(** * Elba → Bitrix24 counterparty synchronisation: a shallow embedding

    The development follows [sync_elba_counterparties.py]: JSON values as the
    script receives them from [resp.json()], Python's truthiness and [str],
    the helper functions, the two HTTP collaborators (the Elba source and the
    Bitrix24 destination), and [main] written in a small state-and-exception
    monad that records every request and every logger call. *)

From Stdlib Require Import ZArith List Ascii String Lia Bool.
From stdpp Require Import base tactics option list strings pretty gmap.
Import ListNotations.

#[local] Set Warnings "-register-all".
#[local] Open Scope Z_scope.

(** ** JSON values and the Python operations applied to them *)

(** What [resp.json()] yields.  JSON numbers are modelled as integers (the
    identifiers and counters of both services): a number with a fraction or
    an exponent, which [resp.json()] decodes to a [float], has no counterpart
    here.  An object keeps its pairs in insertion order, as a Python [dict]
    does.  A [string] holds the UTF-8 bytes of a Python [str]. *)
Inductive json : Type :=
| JNull
| JBool (b : bool)
| JNum (z : Z)
| JStr (s : string)
| JList (l : list json)
| JObj (d : list (string * json)).

(** [bool(v)]: [None], [False], [0], [""], [[]] and [{}] are falsy. *)
Definition truthy (v : json) : bool :=
  match v with
  | JNull => false
  | JBool b => b
  | JNum z => negb (z =? 0)
  | JStr s => negb (String.eqb s "")
  | JList l => match l with [] => false | _ => true end
  | JObj d => match d with [] => false | _ => true end
  end.

(** [a or b] on values that are already evaluated. *)
Definition py_or (a b : json) : json := if truthy a then a else b.

(** Python dicts with string keys, in insertion order. *)
Fixpoint assoc {A} (d : list (string * A)) (k : string) : option A :=
  match d with
  | [] => None
  | (k', v) :: d' => if String.eqb k' k then Some v else assoc d' k
  end.

(** [d[k] = v]: overwrite in place, or append a new pair. *)
Fixpoint assoc_set {A} (d : list (string * A)) (k : string) (v : A)
  : list (string * A) :=
  match d with
  | [] => [(k, v)]
  | (k', v') :: d' =>
      if String.eqb k' k then (k', v) :: d' else (k', v') :: assoc_set d' k v
  end.

(** [d.get(k)]: the value, or [None]. *)
Definition dict_get (d : list (string * json)) (k : string) : json :=
  default JNull (assoc d k).

(** [k in d] *)
Definition dict_mem (d : list (string * json)) (k : string) : bool :=
  bool_decide (is_Some (assoc d k)).

(** *** [str] and [repr] *)

Definition hex_digit (n : N) : ascii :=
  ascii_of_N (if (n <? 10)%N then 48 + n else 87 + n)%N.

Fixpoint str_contains (c : ascii) (s : string) : bool :=
  match s with
  | EmptyString => false
  | String c' s' => Ascii.eqb c c' || str_contains c s'
  end.

(** The last [k] hexadecimal digits of [n]. *)
Fixpoint hex_digits (k : nat) (n : N) : string :=
  match k with
  | O => ""
  | S k' => hex_digits k' (n / 16) +:+ String (hex_digit (n mod 16)) ""
  end.

(** One ASCII character of [repr(str)] inside the chosen quote [q]. *)
Definition repr_char (q c : ascii) : string :=
  let n := N_of_ascii c in
  if Ascii.eqb c q || Ascii.eqb c "\"%char then String "\"%char (String c "")
  else if (n =? 9)%N then "\t"
  else if (n =? 10)%N then "\n"
  else if (n =? 13)%N then "\r"
  else if (n <? 32)%N || (n =? 127)%N then "\x" +:+ hex_digits 2 n
  else String c "".

(** The byte at position [i] of [s]; [0] past the end. *)
Definition byte_at (s : string) (i : nat) : N :=
  match String.get i s with Some c => N_of_ascii c | None => 0%N end.

Definition continuation (b : N) : bool := ((128 <=? b) && (b <? 192))%N.

(** The code point whose UTF-8 encoding starts [s] with a lead byte from 194
    on, and the number of continuation bytes that follow the lead byte. *)
Definition code_point (s : string) : option (N * nat) :=
  let b0 := byte_at s 0 in
  let b1 := byte_at s 1 in
  let b2 := byte_at s 2 in
  let b3 := byte_at s 3 in
  if ((194 <=? b0) && (b0 <=? 223))%N then
    if continuation b1 then Some ((b0 - 192) * 64 + (b1 - 128), 1%nat)%N else None
  else if ((224 <=? b0) && (b0 <=? 239))%N then
    if continuation b1 && continuation b2
    then Some ((b0 - 224) * 4096 + (b1 - 128) * 64 + (b2 - 128), 2%nat)%N else None
  else if ((240 <=? b0) && (b0 <=? 244))%N then
    if continuation b1 && continuation b2 && continuation b3
    then Some ((b0 - 240) * 262144 + (b1 - 128) * 4096 + (b2 - 128) * 64 + (b3 - 128),
               3%nat)%N
    else None
  else None.

(** The code points from 128 on that [str.isprintable] rejects for their
    category: controls, format characters, separators, surrogates and
    private use.  Code points that Unicode leaves unassigned, which the
    interpreter rejects as well according to its version of the Unicode
    database, are not listed. *)
Definition hidden_ranges : list (N * N) :=
  [(128, 160); (173, 173); (1536, 1541); (1564, 1564); (1757, 1757); (1807, 1807);
   (2192, 2193); (2274, 2274); (5760, 5760); (6158, 6158); (8192, 8207);
   (8232, 8239); (8287, 8292); (8294, 8303); (12288, 12288); (55296, 63743);
   (65279, 65279); (65529, 65531); (69821, 69821); (69837, 69837);
   (78896, 78911); (113824, 113827); (119155, 119162); (917505, 917505);
   (917536, 917631); (983040, 1048573); (1048576, 1114109)]%N.

Definition hidden (cp : N) : bool :=
  existsb (fun range => (range.1 <=? cp) && (cp <=? range.2))%N hidden_ranges.

(** The escape [repr] writes for a code point from 128 on that is not
    printable. *)
Definition repr_escape (cp : N) : string :=
  if (cp <? 256)%N then "\x" +:+ hex_digits 2 cp
  else if (cp <? 65536)%N then "\u" +:+ hex_digits 4 cp
  else "\U" +:+ hex_digits 8 cp.

(** The characters of [repr(str)] inside the chosen quote [q]; [skip] counts
    the remaining bytes of a character that was written as an escape. *)
Fixpoint repr_from (q : ascii) (s : string) (skip : nat) : string :=
  match s with
  | EmptyString => ""
  | String c s' =>
      match skip with
      | S k => repr_from q s' k
      | O =>
          if (N_of_ascii c <? 128)%N then repr_char q c +:+ repr_from q s' 0
          else match code_point s with
               | Some (cp, more) =>
                   if hidden cp then repr_escape cp +:+ repr_from q s' more
                   else String c (repr_from q s' 0)
               | None => String c (repr_from q s' 0)
               end
      end
  end.

Definition repr_chars (q : ascii) (s : string) : string := repr_from q s 0.

Definition repr_str (s : string) : string :=
  let q : ascii :=
    if str_contains "'"%char s && negb (str_contains "034"%char s)
    then "034"%char else "'"%char in
  String q (repr_chars q s +:+ String q "").

Fixpoint join_comma (l : list string) : string :=
  match l with
  | [] => ""
  | [x] => x
  | x :: l' => x +:+ ", " +:+ join_comma l'
  end.

Fixpoint py_repr (v : json) : string :=
  match v with
  | JNull => "None"
  | JBool b => if b then "True" else "False"
  | JNum z => pretty z
  | JStr s => repr_str s
  | JList l => "[" +:+ join_comma (List.map py_repr l) +:+ "]"
  | JObj d =>
      "{" +:+ join_comma
                (List.map (fun kv => match kv with
                                     | (k, x) => repr_str k +:+ ": " +:+ py_repr x
                                     end) d) +:+ "}"
  end.

(** [str(v)]; also what an f-string substitutes for [{v}]. *)
Definition py_str (v : json) : string :=
  match v with
  | JStr s => s
  | _ => py_repr v
  end.

(** *** [str.split()] without arguments *)

Definition is_ascii_space (n : N) : bool :=
  ((9 <=? n) && (n <=? 13) || (28 <=? n) && (n <=? 31) || (n =? 32))%N.

(** Number of bytes of the white-space character (in the sense of
    [str.isspace]) whose UTF-8 encoding starts [s]; [0] when [s] does not
    start with white space. *)
Definition space_width (s : string) : nat :=
  match List.map N_of_ascii (list_ascii_of_string s) with
  | [] => 0%nat
  | a :: r =>
      if is_ascii_space a then 1%nat
      else match a, r with
           | 194%N, b :: _ => if ((b =? 133) || (b =? 160))%N then 2%nat else 0%nat
           | 225%N, 154%N :: 128%N :: _ => 3%nat
           | 226%N, 128%N :: c :: _ =>
               if ((128 <=? c) && (c <=? 138) || (c =? 168) || (c =? 169)
                   || (c =? 175))%N then 3%nat else 0%nat
           | 226%N, 129%N :: 159%N :: _ => 3%nat
           | 227%N, 128%N :: 128%N :: _ => 3%nat
           | _, _ => 0%nat
           end
  end.

Definition flush_token (cur : string) (k : list string) : list string :=
  if String.eqb cur "" then k else cur :: k.

(** [skip] counts the remaining bytes of a white-space character being
    consumed; [cur] is the token read so far. *)
Fixpoint split_from (s : string) (skip : nat) (cur : string) : list string :=
  match s with
  | EmptyString => flush_token cur []
  | String c s' =>
      match skip with
      | S k => split_from s' k cur
      | O =>
          match space_width s with
          | O => split_from s' 0 (cur +:+ String c "")
          | S k => flush_token cur (split_from s' k "")
          end
      end
  end.

Definition py_split (s : string) : list string := split_from s 0 "".

(** *** Source functions *)

(** [extract_name_parts(full_name)] *)
Definition extract_name_parts (full_name : json) : string * string * string :=
  if negb (truthy full_name) then ("", "", "")
  else
    let parts := py_split (py_str full_name) in
    let last_name := if (0 <? length parts)%nat then nth 0 parts "" else "" in
    let first_name := if (1 <? length parts)%nat then nth 1 parts "" else "" in
    let second_name := if (2 <? length parts)%nat then nth 2 parts "" else "" in
    (last_name, first_name, second_name).

(** [chunked(iterable, size)]; [range] refuses a zero step ([ValueError]). *)
Fixpoint chunks {A} (n : nat) (l : list A) (size : nat) : list (list A) :=
  match n with
  | O => []
  | S n' =>
      match l with
      | [] => []
      | _ => take size l :: chunks n' (drop size l) size
      end
  end.

Definition chunked {A} (iterable : list A) (size : nat) : option (list (list A)) :=
  match size with
  | O => None
  | S _ => Some (chunks (length iterable) iterable size)
  end.

(** ** Exceptions, events and the monad of the script *)

Inductive exn : Type :=
| AttributeError                      (* [.get] on a value that is not a dict *)
| TypeError                           (* iterating or indexing a number *)
| KeyError                            (* [d[0]] on a dict with string keys *)
| ValueError                          (* [range] with step zero *)
| HTTPError (status : Z)              (* [raise_for_status] *)
| RequestFailure                      (* any other failure of [requests.get] *)
| RetryError                          (* tenacity gave up after three attempts *)
| BitrixApiError (code descr : json)  (* the [RuntimeError] of [bitrix_call] *)
| OrganizationNotFound.               (* the [RuntimeError] of [get_organization_id] *)

(** The level of a [logger] call; the script configures [INFO], so the
    [LDebug] calls are made but not printed. *)
Inductive level : Type := LDebug | LInfo | LWarning | LError.

(** One constructor per [logger] call of the script, carrying the values the
    message formats. *)
Inductive log_msg : Type :=
| MsgUserfieldCreated (entity field : string) (uf_id : json)
| MsgUserfieldsFailed (e : exn)
| MsgOrganizationFailed (e : exn)
| MsgPage (url : string) (got total : nat)
| MsgPaginationHttp (url : string) (status : Z)
| MsgPaginationError (url : string) (e : exn)
| MsgCounterpartiesFrom (endpoint : string) (n : nat)
| MsgEndpointEmpty (endpoint : string)
| MsgNoCounterparties
| MsgCheckingUserfields
| MsgFetchingOrganization
| MsgOrganization (org_id : json)
| MsgFetchingCounterparties
| MsgCounterpartyCount (n : nat)
| MsgSkipCounterparty
| MsgCompanyExists (elba_id bitrix_id : string)
| MsgCompanyCreated (bitrix_id elba_id : string)
| MsgContactExists (uniq bitrix_id : string)
| MsgContactCreated (bitrix_id uniq : string)
| MsgDone
| MsgSyncFailed (e : exn).

(** What one [requests.get] to Elba comes back with. *)
Inductive response : Type :=
| RespJson (data : json)
| RespHttpError (status : Z)
| RespFailure.

(** What one [requests.post] to the Bitrix24 webhook comes back with: a
    decoded body, or a [RequestException] (connection, timeout, HTTP status,
    undecodable body). *)
Inductive reply : Type :=
| ReplyJson (data : json)
| ReplyFailure.

Inductive event : Type :=
| EGet (url : string) (params : list (string * Z))
| EPost (method : string) (params : json) (r : reply)
| ELog (lv : level) (msg : log_msg).

Inductive outcome (A : Type) : Type :=
| Ok (a : A)
| Raise (e : exn)
| NoFuel.
Arguments Ok {A} a.
Arguments Raise {A} e.
Arguments NoFuel {A}.

(** What [bitrix_call] makes of a decoded body: the [RuntimeError] for an
    error payload, the ["result"] member of a dict, or the body itself. *)
Definition bitrix_result (data : json) : exn + json :=
  match data with
  | JObj d =>
      if dict_mem d "error"
      then inl (BitrixApiError (dict_get d "error") (dict_get d "error_description"))
      else inr (dict_get d "result")
  | _ => inr data
  end.

Definition ELBA_API_BASE : string := "https://elba-api.kontur.ru/v1".

(** ** Mapping to Bitrix24 fields *)

(** [str(cp.get("id") or cp.get("counterpartyId") or cp.get("contractorId") or "")],
    the expression the script evaluates on a counterparty dict in
    [map_company_fields_from_cp], in [map_contact_fields_from_person] and
    twice in [main]. *)
Definition cp_elba_id (cp : list (string * json)) : string :=
  py_str (py_or (py_or (py_or (dict_get cp "id") (dict_get cp "counterpartyId"))
                       (dict_get cp "contractorId")) (JStr "")).

(** [fields.setdefault(k, []).append(x)]; in both mappers [k] is not yet a
    key of [fields]. *)
Definition setdefault_append (fields : list (string * json)) (k : string) (x : json)
  : list (string * json) :=
  match assoc fields k with
  | Some (JList l) => assoc_set fields k (JList (l ++ [x]))
  | Some _ => fields
  | None => assoc_set fields k (JList [x])
  end.

Definition work_value (v : json) : json :=
  JObj [("VALUE", JStr (py_str v)); ("VALUE_TYPE", JStr "WORK")].

Definition add_phone_email (fields : list (string * json)) (phone email : json)
  : list (string * json) :=
  let fields :=
    if truthy phone then setdefault_append fields "PHONE" (work_value phone)
    else fields in
  if truthy email then setdefault_append fields "EMAIL" (work_value email)
  else fields.

(** [map_company_fields_from_cp(cp)] *)
Definition map_company_fields_from_cp (cp : json) : exn + list (string * json) :=
  match cp with
  | JObj d =>
      let title := py_or (py_or (py_or (dict_get d "shortName") (dict_get d "name"))
                                (dict_get d "inn")) (JStr "Без названия") in
      let fields := [("TITLE", title); ("UF_CRM_ELBA_ID", JStr (cp_elba_id d))] in
      let inn := py_or (dict_get d "inn") (dict_get d "INN") in
      let fields := if truthy inn then assoc_set fields "UF_CRM_INN" inn else fields in
      match py_or (dict_get d "contactInfo") (JObj []) with
      | JObj contact_info =>
          let phone := py_or (dict_get contact_info "phone")
                             (dict_get contact_info "phoneNumber") in
          let email := py_or (dict_get contact_info "email")
                             (dict_get contact_info "eMail") in
          inr (add_phone_email fields phone email)
      | _ => inl AttributeError
      end
  | _ => inl AttributeError
  end.

(** [map_contact_fields_from_person(person, cp)] *)
Definition map_contact_fields_from_person (person cp : json)
  : exn + list (string * json) :=
  match person with
  | JObj p =>
      let full_name :=
        py_or (py_or (py_or (dict_get p "fullName") (dict_get p "fio"))
                     (dict_get p "name"))
              (JStr ("Контакт " +:+ py_str (py_or (dict_get p "id") (JStr "")))) in
      let '(last_name, first_name, second_name) := extract_name_parts full_name in
      match cp with
      | JObj c =>
          let fields :=
            [("LAST_NAME", JStr last_name);
             ("NAME", JStr first_name);
             ("SECOND_NAME", JStr second_name);
             ("UF_CRM_ELBA_ID",
              JStr (cp_elba_id c +:+ ":" +:+ py_str (py_or (dict_get p "id") (JStr ""))))] in
          let phone := py_or (dict_get p "phone") (dict_get p "phoneNumber") in
          let email := py_or (dict_get p "email") (dict_get p "eMail") in
          inr (add_phone_email fields phone email)
      | _ => inl AttributeError
      end
  | _ => inl AttributeError
  end.

Section Sync.

(** The destination is a state machine answering POST requests; the source
    answers GET requests and does not change during a run. *)
Context {D : Type}.
Variable bitrix_post : string -> json -> D -> reply * D.
Variable elba_get : string -> list (string * Z) -> response.

Definition M (A : Type) : Type := D -> outcome A * D * list event.

Definition ret {A} (a : A) : M A := fun s => (Ok a, s, []).

Definition bind {A B} (m : M A) (k : A -> M B) : M B := fun s =>
  match m s with
  | (Ok a, s', ev) =>
      match k a s' with (r, s'', ev') => (r, s'', ev ++ ev') end
  | (Raise e, s', ev) => (Raise e, s', ev)
  | (NoFuel, s', ev) => (NoFuel, s', ev)
  end.

Definition throw {A} (e : exn) : M A := fun s => (Raise e, s, []).
Definition out_of_fuel {A} : M A := fun s => (NoFuel, s, []).
Definition emit (e : event) : M unit := fun s => (Ok tt, s, [e]).
Definition log (lv : level) (msg : log_msg) : M unit := emit (ELog lv msg).

Definition lift {A} (x : exn + A) : M A :=
  match x with inl e => throw e | inr a => ret a end.

(** [try: m except Exception as e: h e] *)
Definition try_except {A} (m : M A) (h : exn -> M A) : M A := fun s =>
  match m s with
  | (Raise e, s', ev) =>
      match h e s' with (r, s'', ev') => (r, s'', ev ++ ev') end
  | other => other
  end.

Notation "'let*' x ':=' m 'in' k" := (bind m (fun x => k))
  (at level 10, x pattern, m at level 200, k at level 200).
Notation "m ';;' k" := (bind m (fun _ => k))
  (at level 100, right associativity).

(** *** Bitrix24 wrappers *)

(** One attempt of the body of [bitrix_call]; [None] stands for the
    [RequestException] that makes tenacity try again. *)
Definition bitrix_attempt (method : string) (params : json) : M (option json) :=
  fun s =>
    let body := py_or params (JObj []) in
    match bitrix_post method body s with
    | (ReplyFailure, s') => (Ok None, s', [EPost method body ReplyFailure])
    | (ReplyJson data, s') =>
        match bitrix_result data with
        | inl e => (Raise e, s', [EPost method body (ReplyJson data)])
        | inr v => (Ok (Some v), s', [EPost method body (ReplyJson data)])
        end
    end.

Fixpoint bitrix_retry (attempts : nat) (method : string) (params : json) : M json :=
  match attempts with
  | O => throw RetryError
  | S n =>
      let* r := bitrix_attempt method params in
      match r with
      | Some v => ret v
      | None => bitrix_retry n method params
      end
  end.

(** [bitrix_call(method, params)] under [@retry(stop_after_attempt(3), ...)] *)
Definition bitrix_call (method : string) (params : json) : M json :=
  bitrix_retry 3 method params.

Definition create_bitrix_userfield (entity_type field_name label : string) : M json :=
  bitrix_call ("crm." +:+ entity_type +:+ ".userfield.add")
    (JObj [("fields",
            JObj [("FIELD_NAME", JStr field_name);
                  ("EDIT_FORM_LABEL", JObj [("ru", JStr label)]);
                  ("LIST_COLUMN_LABEL", JObj [("ru", JStr label)]);
                  ("USER_TYPE_ID", JStr "string");
                  ("MANDATORY", JStr "N")])]).

(** The rows a [for row in (res or [])] loop visits when its body starts
    with [row.get]: a dict yields its string keys and a string its
    characters, on which [.get] fails; a number cannot be iterated. *)
Definition rows_of (res : json) : exn + list json :=
  match py_or res (JList []) with
  | JList l => inr l
  | JObj _ | JStr _ => inl AttributeError
  | _ => inl TypeError
  end.

(** [any(f.get("FIELD_NAME") == name for f in fields)] *)
Fixpoint any_field_named (name : string) (fields : list json) : exn + bool :=
  match fields with
  | [] => inr false
  | JObj f :: fields' =>
      match dict_get f "FIELD_NAME" with
      | JStr s => if String.eqb s name then inr true
                  else any_field_named name fields'
      | _ => any_field_named name fields'
      end
  | _ :: _ => inl AttributeError
  end.

(** One of the three blocks of [ensure_userfields]. *)
Definition ensure_userfield (entity_type field_name label : string) : M unit :=
  let* res := bitrix_call ("crm." +:+ entity_type +:+ ".userfield.list")
                (JObj [("filter", JObj [("FIELD_NAME", JStr field_name)])]) in
  let* fields := lift (rows_of res) in
  let* found := lift (any_field_named field_name fields) in
  if found then ret tt
  else
    let* uf_id := create_bitrix_userfield entity_type field_name label in
    log LInfo (MsgUserfieldCreated entity_type field_name uf_id).

Definition ensure_userfields : M unit :=
  try_except
    (ensure_userfield "contact" "UF_CRM_ELBA_ID" "ID Эльбы" ;;
     ensure_userfield "company" "UF_CRM_ELBA_ID" "ID Эльбы" ;;
     ensure_userfield "company" "UF_CRM_INN" "ИНН")
    (fun e => log LError (MsgUserfieldsFailed e) ;; throw e).

(** *** Elba API *)

(** One [requests.get(url, params=...)] followed by [raise_for_status] and
    [resp.json()]. *)
Definition elba_request (url : string) (params : list (string * Z)) : M response :=
  fun s => (Ok (elba_get url params), s, [EGet url params]).

Definition get_organization_id : M json :=
  try_except
    (let* resp := elba_request (ELBA_API_BASE +:+ "/organizations") [("limit", 1)] in
     match resp with
     | RespHttpError status => throw (HTTPError status)
     | RespFailure => throw RequestFailure
     | RespJson data0 =>
         match py_or data0 (JObj []) with
         | JObj data =>
             let orgs := py_or (py_or (dict_get data "organizations")
                                      (dict_get data "items")) (JList []) in
             if negb (truthy orgs) then throw OrganizationNotFound
             else
               match orgs with
               | JList (JObj o :: _) =>
                   ret (py_or (dict_get o "id") (dict_get o "organizationId"))
               | JList _ | JStr _ => throw AttributeError
               | JObj _ => throw KeyError
               | _ => throw TypeError
               end
         | _ => throw AttributeError
         end
     end)
    (fun e => log LError (MsgOrganizationFailed e) ;; throw e).

(** The [for key in item_keys] scan over a dict [data]. *)
Fixpoint scan_keys (data : list (string * json)) (item_keys : list string) : list json :=
  match item_keys with
  | [] => []
  | key :: keys =>
      match dict_get data key with
      | JList l => l
      | _ => scan_keys data keys
      end
  end.

(** The batch of one page; [None] when [data.get] raises because [data] is
    not a dict.  With no key to try, a bare array is taken as the batch. *)
Definition extract_batch (item_keys : list string) (data : json) : option (list json) :=
  match data with
  | JObj d => Some (scan_keys d item_keys)
  | JList l => match item_keys with [] => Some l | _ => None end
  | _ => match item_keys with [] => Some [] | _ => None end
  end.

(** The [while True] loop of [fetch_all_paginated]; [fuel] bounds the number
    of pages requested. *)
Fixpoint fetch_pages (fuel : nat) (url : string) (params : list (string * Z))
    (item_keys : list string) (limit : Z) (items : list json) (skip : Z)
  : M (list json) :=
  match fuel with
  | O => out_of_fuel
  | S fuel' =>
      let local_params := assoc_set (assoc_set params "skip" skip) "limit" limit in
      let* resp := elba_request url local_params in
      match resp with
      | RespHttpError status =>
          log LWarning (MsgPaginationHttp url status) ;; ret items
      | RespFailure =>
          log LWarning (MsgPaginationError url RequestFailure) ;; ret items
      | RespJson data0 =>
          match extract_batch item_keys (py_or data0 (JObj [])) with
          | None =>
              log LWarning (MsgPaginationError url AttributeError) ;; ret items
          | Some batch =>
              let items' := items ++ batch in
              log LDebug (MsgPage url (length batch) (length items')) ;;
              if Z.of_nat (length batch) <? limit then ret items'
              else fetch_pages fuel' url params item_keys limit items' (skip + limit)
          end
      end
  end.

Definition fetch_all_paginated (fuel : nat) (url : string)
    (params : list (string * Z)) (item_keys : list string) : M (list json) :=
  let limit := default 100 (assoc params "limit") in
  fetch_pages fuel url params item_keys limit [] 0.

Definition counterparty_endpoints (organization_id : json) : list string :=
  [ELBA_API_BASE +:+ "/organizations/" +:+ py_str organization_id +:+ "/counterparties";
   ELBA_API_BASE +:+ "/organizations/" +:+ py_str organization_id +:+ "/contractors";
   ELBA_API_BASE +:+ "/counterparties";
   ELBA_API_BASE +:+ "/contractors"].

(** The [for endpoint in candidate_endpoints] loop of
    [get_elba_counterparties]. *)
Fixpoint probe_counterparties (fuel : nat) (candidates : list string) : M (list json) :=
  match candidates with
  | [] => log LError MsgNoCounterparties ;; ret []
  | endpoint :: rest =>
      let* items := fetch_all_paginated fuel endpoint [("limit", 100)]
                      ["items"; "counterparties"; "contractors"] in
      match items with
      | _ :: _ => log LInfo (MsgCounterpartiesFrom endpoint (length items)) ;; ret items
      | [] => log LInfo (MsgEndpointEmpty endpoint) ;; probe_counterparties fuel rest
      end
  end.

Definition get_elba_counterparties (fuel : nat) (organization_id : json) : M (list json) :=
  probe_counterparties fuel (counterparty_endpoints organization_id).

Definition contact_endpoints (organization_id : json) (counterparty_id : string)
  : list string :=
  [ELBA_API_BASE +:+ "/organizations/" +:+ py_str organization_id
     +:+ "/counterparties/" +:+ counterparty_id +:+ "/contacts";
   ELBA_API_BASE +:+ "/organizations/" +:+ py_str organization_id
     +:+ "/contractors/" +:+ counterparty_id +:+ "/contacts";
   ELBA_API_BASE +:+ "/counterparties/" +:+ counterparty_id +:+ "/contacts";
   ELBA_API_BASE +:+ "/contractors/" +:+ counterparty_id +:+ "/contacts"].

(** The [for url in candidates] loop of [get_elba_contacts_for_counterparty]. *)
Fixpoint probe_contacts (fuel : nat) (candidates : list string) : M (list json) :=
  match candidates with
  | [] => ret []
  | url :: rest =>
      let* contacts := fetch_all_paginated fuel url [("limit", 100)]
                         ["items"; "contacts"] in
      match contacts with
      | _ :: _ => ret contacts
      | [] => probe_contacts fuel rest
      end
  end.

Definition get_elba_contacts_for_counterparty (fuel : nat)
    (organization_id : json) (counterparty_id : string) : M (list json) :=
  probe_contacts fuel (contact_endpoints organization_id counterparty_id).

(** *** Lookup of existing records *)

(** The [for row in res] loop of [find_existing_by_elba_ids]. *)
Fixpoint index_rows (rows : list json) (result : gmap string string)
  : exn + gmap string string :=
  match rows with
  | [] => inr result
  | JObj row :: rows' =>
      let key := py_str (dict_get row "UF_CRM_ELBA_ID") in
      index_rows rows'
        (if String.eqb key "" then result
         else <[key := py_str (dict_get row "ID")]> result)
  | _ :: _ => inl AttributeError
  end.

(** The [for group in chunked(elba_ids, 50)] loop. *)
Fixpoint find_in_groups (method : string) (groups : list (list string))
    (result : gmap string string) : M (gmap string string) :=
  match groups with
  | [] => ret result
  | group :: groups' =>
      let* res := bitrix_call method
                    (JObj [("filter", JObj [("UF_CRM_ELBA_ID", JList (List.map JStr group))]);
                           ("select", JList [JStr "ID"; JStr "UF_CRM_ELBA_ID"])]) in
      let* rows := lift (rows_of res) in
      let* result' := lift (index_rows rows result) in
      find_in_groups method groups' result'
  end.

Definition find_existing_by_elba_ids (entity_type : string) (elba_ids : list string)
  : M (gmap string string) :=
  match elba_ids with
  | [] => ret ∅
  | _ =>
      match chunked elba_ids 50 with
      | Some groups => find_in_groups ("crm." +:+ entity_type +:+ ".list") groups ∅
      | None => throw ValueError
      end
  end.

(** *** Creation *)

Definition create_company (fields : list (string * json)) : M string :=
  let* r := bitrix_call "crm.company.add" (JObj [("fields", JObj fields)]) in
  ret (py_str r).

Definition create_contact (fields : list (string * json)) : M string :=
  let* r := bitrix_call "crm.contact.add" (JObj [("fields", JObj fields)]) in
  ret (py_str r).

(** *** The main run *)

(** [str(p.get("id") or p.get("personId") or "")] on a person dict. *)
Definition person_id (p : list (string * json)) : string :=
  py_str (py_or (py_or (dict_get p "id") (dict_get p "personId")) (JStr "")).

(** The comprehension that builds [company_elba_ids], before the filter. *)
Fixpoint company_ids (counterparties : list json) : exn + list string :=
  match counterparties with
  | [] => inr []
  | JObj cp :: rest =>
      match company_ids rest with
      | inr ids => inr (cp_elba_id cp :: ids)
      | inl e => inl e
      end
  | _ :: _ => inl AttributeError
  end.

(** The comprehension that builds [contact_elba_ids]. *)
Fixpoint contact_ids (cp_id : string) (persons : list json) : exn + list string :=
  match persons with
  | [] => inr []
  | JObj p :: rest =>
      match contact_ids cp_id rest with
      | inr ids =>
          if truthy (py_or (dict_get p "id") (dict_get p "personId"))
          then inr ((cp_id +:+ ":" +:+ person_id p) :: ids)
          else inr ids
      | inl e => inl e
      end
  | _ :: _ => inl AttributeError
  end.

(** The [for key in ("contacts", "contactPersons", "persons")] scan. *)
Fixpoint inline_persons (cp : list (string * json)) (keys : list string) : list json :=
  match keys with
  | [] => []
  | key :: keys' =>
      match dict_get cp key with
      | JList (p :: l) => p :: l
      | _ => inline_persons cp keys'
      end
  end.

(** The [for person in persons] loop of [main]. *)
Fixpoint sync_persons (persons : list json) (cp : json) (cp_id company_id : string)
    (existing_contacts : gmap string string) : M unit :=
  match persons with
  | [] => ret tt
  | person :: rest =>
      match person with
      | JObj p =>
          let pid := person_id p in
          if String.eqb pid "" then
            sync_persons rest cp cp_id company_id existing_contacts
          else
            let uniq := cp_id +:+ ":" +:+ pid in
            match existing_contacts !! uniq with
            | Some found =>
                log LDebug (MsgContactExists uniq found) ;;
                sync_persons rest cp cp_id company_id existing_contacts
            | None =>
                let* contact_fields := lift (map_contact_fields_from_person person cp) in
                let contact_fields :=
                  if String.eqb company_id "" then contact_fields
                  else assoc_set contact_fields "COMPANY_ID" (JStr company_id) in
                let* cid := create_contact contact_fields in
                log LInfo (MsgContactCreated cid uniq) ;;
                sync_persons rest cp cp_id company_id existing_contacts
            end
      | _ => throw AttributeError
      end
  end.

(** The company part of one iteration: the Bitrix24 id of the company of
    [cp] and the updated map. *)
Definition sync_company (cp : json) (cp_id : string)
    (existing_companies : gmap string string) : M (string * gmap string string) :=
  let found := default "" (existing_companies !! cp_id) in
  if negb (String.eqb found "") then
    log LDebug (MsgCompanyExists cp_id found) ;;
    ret (found, existing_companies)
  else
    let* company_fields := lift (map_company_fields_from_cp cp) in
    let* company_id := create_company company_fields in
    log LInfo (MsgCompanyCreated company_id cp_id) ;;
    ret (company_id, <[cp_id := company_id]> existing_companies).

(** The contacts part of one iteration. *)
Definition sync_contacts (fuel : nat) (org_id : json) (cp : list (string * json))
    (cp_id company_id : string) : M unit :=
  let persons := inline_persons cp ["contacts"; "contactPersons"; "persons"] in
  let* persons :=
    match persons with
    | [] => get_elba_contacts_for_counterparty fuel org_id cp_id
    | _ => ret persons
    end in
  match persons with
  | [] => ret tt
  | _ =>
      let* contact_elba_ids := lift (contact_ids cp_id persons) in
      let* existing_contacts := find_existing_by_elba_ids "contact" contact_elba_ids in
      sync_persons persons (JObj cp) cp_id company_id existing_contacts
  end.

(** The [for cp in counterparties] loop of [main]. *)
Fixpoint sync_counterparties (fuel : nat) (org_id : json) (counterparties : list json)
    (existing_companies : gmap string string) : M unit :=
  match counterparties with
  | [] => ret tt
  | cp :: rest =>
      match cp with
      | JObj c =>
          let cp_id := cp_elba_id c in
          if String.eqb cp_id "" then
            log LWarning MsgSkipCounterparty ;;
            sync_counterparties fuel org_id rest existing_companies
          else
            let* r := sync_company cp cp_id existing_companies in
            sync_contacts fuel org_id c cp_id r.1 ;;
            sync_counterparties fuel org_id rest r.2
      | _ => throw AttributeError
      end
  end.

Definition main (fuel : nat) : M unit :=
  try_except
    (log LInfo MsgCheckingUserfields ;;
     ensure_userfields ;;
     log LInfo MsgFetchingOrganization ;;
     let* org_id := get_organization_id in
     log LInfo (MsgOrganization org_id) ;;
     log LInfo MsgFetchingCounterparties ;;
     let* counterparties := get_elba_counterparties fuel org_id in
     log LInfo (MsgCounterpartyCount (length counterparties)) ;;
     match counterparties with
     | [] => ret tt
     | _ =>
         let* ids := lift (company_ids counterparties) in
         let company_elba_ids := List.filter (fun eid => negb (String.eqb eid "")) ids in
         let* existing_companies := find_existing_by_elba_ids "company" company_elba_ids in
         sync_counterparties fuel org_id counterparties existing_companies ;;
         log LInfo MsgDone
     end)
    (fun e => log LError (MsgSyncFailed e) ;; throw e).

End Sync.

(** ** Reference collaborators *)

(** Modelled from the spec: the destination CRM behind the webhook is an
    external service, not part of the script.  Following §3, §4.2 and §6 it is
    a store of records with destination-assigned ids; a listing filtered on
    the identity field returns every stored record carrying one of the
    requested keys, a creation stores the fields it is given, and nothing
    enforces uniqueness of the identity field. *)
Record crm : Type := Crm {
  crm_companies : list (Z * list (string * json));
  crm_contacts : list (Z * list (string * json));
  crm_company_fields : list string;
  crm_contact_fields : list string;
  crm_next : Z
}.

Definition crm_empty : crm := Crm [] [] [] [] 1.

Definition json_dict (v : json) : list (string * json) :=
  match v with JObj d => d | _ => [] end.

Definition json_strings (v : json) : list string :=
  match v with
  | JList l => omap (fun x => match x with JStr s => Some s | _ => None end) l
  | _ => []
  end.

Definition has_key (keys : list string) (record : Z * list (string * json)) : bool :=
  match dict_get record.2 "UF_CRM_ELBA_ID" with
  | JStr s => bool_decide (s ∈ keys)
  | _ => false
  end.

Definition crm_row (record : Z * list (string * json)) : json :=
  JObj [("ID", JStr (pretty record.1));
        ("UF_CRM_ELBA_ID", dict_get record.2 "UF_CRM_ELBA_ID")].

Definition crm_list (records : list (Z * list (string * json))) (params : json) : json :=
  let keys := json_strings (dict_get (json_dict (dict_get (json_dict params) "filter"))
                              "UF_CRM_ELBA_ID") in
  JObj [("result", JList (List.map crm_row (List.filter (has_key keys) records)))].

Definition crm_field_list (fields : list string) (params : json) : json :=
  let name := py_str (dict_get (json_dict (dict_get (json_dict params) "filter"))
                        "FIELD_NAME") in
  JObj [("result",
         JList (List.map (fun f => JObj [("FIELD_NAME", JStr f)])
                  (List.filter (String.eqb name) fields)))].

Definition crm_post (method : string) (params : json) (st : crm) : reply * crm :=
  let fields := json_dict (dict_get (json_dict params) "fields") in
  let created := ReplyJson (JObj [("result", JNum (crm_next st))]) in
  if String.eqb method "crm.company.list" then
    (ReplyJson (crm_list (crm_companies st) params), st)
  else if String.eqb method "crm.contact.list" then
    (ReplyJson (crm_list (crm_contacts st) params), st)
  else if String.eqb method "crm.company.add" then
    (created, Crm (crm_companies st ++ [(crm_next st, fields)]) (crm_contacts st)
                (crm_company_fields st) (crm_contact_fields st) (crm_next st + 1))
  else if String.eqb method "crm.contact.add" then
    (created, Crm (crm_companies st) (crm_contacts st ++ [(crm_next st, fields)])
                (crm_company_fields st) (crm_contact_fields st) (crm_next st + 1))
  else if String.eqb method "crm.company.userfield.list" then
    (ReplyJson (crm_field_list (crm_company_fields st) params), st)
  else if String.eqb method "crm.contact.userfield.list" then
    (ReplyJson (crm_field_list (crm_contact_fields st) params), st)
  else if String.eqb method "crm.company.userfield.add" then
    (created, Crm (crm_companies st) (crm_contacts st)
                (crm_company_fields st ++ [py_str (dict_get fields "FIELD_NAME")])
                (crm_contact_fields st) (crm_next st + 1))
  else if String.eqb method "crm.contact.userfield.add" then
    (created, Crm (crm_companies st) (crm_contacts st) (crm_company_fields st)
                (crm_contact_fields st ++ [py_str (dict_get fields "FIELD_NAME")])
                (crm_next st + 1))
  else
    (ReplyJson (JObj [("error", JStr "ERROR_METHOD_NOT_FOUND");
                      ("error_description", JStr "Method not found!")]), st).

(** A source that serves a listing page by page: the items from [skip] on,
    at most [limit] of them, under the key ["items"]. *)
Definition page_of (items : list json) (params : list (string * Z)) : response :=
  let skip := Z.to_nat (default 0 (assoc params "skip")) in
  let limit := Z.to_nat (default 100 (assoc params "limit")) in
  RespJson (JObj [("items", JList (take limit (drop skip items)))]).

(** A source that serves the pages of [page_of], each as a bare JSON array. *)
Definition array_page_of (items : list json) (params : list (string * Z)) : response :=
  let skip := Z.to_nat (default 0 (assoc params "skip")) in
  let limit := Z.to_nat (default 100 (assoc params "limit")) in
  RespJson (JList (take limit (drop skip items))).

(** A source with one organization and the given listings by URL; any other
    URL answers 404. *)
Definition elba_serving (org : list (string * json))
    (listings : list (string * list json)) : string -> list (string * Z) -> response :=
  fun url params =>
    if String.eqb url (ELBA_API_BASE +:+ "/organizations")
    then RespJson (JObj [("organizations", JList [JObj org])])
    else match assoc listings url with
         | Some items => page_of items params
         | None => RespHttpError 404
         end.

(** A source in which one URL alone answers, with the same body to every
    request; any other URL answers 404. *)
Definition only_endpoint (endpoint : string) (body : json)
  : string -> list (string * Z) -> response :=
  fun url _ => if String.eqb url endpoint then RespJson body else RespHttpError 404.

(** ** Vocabulary of the statements *)

(** *** Runs and their events *)

(** [prepend ev x]: the run [x] after the events [ev]. *)
Definition prepend {A D} (ev : list event) (x : outcome A * D * list event)
  : outcome A * D * list event :=
  (x.1.1, x.1.2, ev ++ x.2).

(** The GET requests among the events, in order. *)
Definition gets (ev : list event) : list (string * list (string * Z)) :=
  omap (fun e => match e with EGet url params => Some (url, params) | _ => None end) ev.

Definition requested (ev : list event) : list string := (gets ev).*1.

(** The offsets carried by the GET requests of a trace. *)
Definition offsets (ev : list event) : list (option Z) :=
  List.map (fun q => assoc q.2 "skip") (gets ev).

Definition is_warning (e : event) : bool :=
  match e with ELog LWarning _ => true | _ => false end.

(** The sizes of the received pages, as the debug lines report them. *)
Definition page_sizes (ev : list event) : list nat :=
  omap (fun e => match e with ELog LDebug (MsgPage _ got _) => Some got | _ => None end) ev.

(** Requests that create a record, and those that create a contact. *)
Definition is_creation (e : event) : bool :=
  match e with
  | EPost method _ _ =>
      String.eqb method "crm.company.add" || String.eqb method "crm.contact.add"
  | _ => false
  end.

Definition is_contact_add (e : event) : bool :=
  match e with
  | EPost method _ _ => String.eqb method "crm.contact.add"
  | _ => false
  end.

Definition no_creation (e : event) : Prop := is_creation e = false.

Definition no_contact_add (e : event) : Prop := is_contact_add e = false.

(** *** Pages of a listing *)

Section Pages.

Variable elba_get : string -> list (string * Z) -> response.
Variables (url : string) (params : list (string * Z)) (item_keys : list string).
Variable limit : Z.

(** The query of page [i] and the batch it yields; [None] when the request
    fails or the body is not a dict. *)
Definition page_params (i : nat) : list (string * Z) :=
  assoc_set (assoc_set params "skip" (Z.of_nat i * limit)) "limit" limit.

Definition page_batch (i : nat) : option (list json) :=
  match elba_get url (page_params i) with
  | RespJson data0 => extract_batch item_keys (py_or data0 (JObj []))
  | _ => None
  end.

Definition full_page (i : nat) : Prop :=
  ∃ batch, page_batch i = Some batch ∧ limit ≤ Z.of_nat (length batch).

Definition short_page (i : nat) : Prop :=
  ∃ batch, page_batch i = Some batch ∧ Z.of_nat (length batch) < limit.

(** What pages [k .. k+n-1] deliver, and the requests that fetch them. *)
Definition batches (k n : nat) : list json :=
  concat (List.map (fun i => default [] (page_batch i)) (seq k n)).

Definition page_gets (k n : nat) : list (string * list (string * Z)) :=
  List.map (fun i => (url, page_params i)) (seq k n).

Definition page_lengths (k n : nat) : list nat :=
  List.map (fun i => length (default [] (page_batch i))) (seq k n).

(** [ev] is the trace of fetching pages [k .. k+n-1] without a failure. *)
Definition page_trace (ev : list event) (k n : nat) : Prop :=
  gets ev = page_gets k n
  ∧ page_sizes ev = page_lengths k n
  ∧ List.filter is_warning ev = [].

End Pages.

(** *** Invariants of computations *)

Section Invariants.

Context {D : Type}.
Variable bitrix_post : string -> json -> D -> reply * D.
Variable elba_get : string -> list (string * Z) -> response.

(** [P] holds of every event and [R] relates the destination before and
    after; POSTs are covered for the [allowed] methods only. *)
Variable P : event -> Prop.
Variable R : D -> D -> Prop.
Variable allowed : string -> Prop.

Definition calm {A} (m : M (D := D) A) : Prop :=
  ∀ s, Forall P (m s).2 ∧ R s (m s).1.2.

Record calm_rules : Prop := {
  calm_refl : ∀ s, R s s;
  calm_trans : ∀ s1 s2 s3, R s1 s2 → R s2 s3 → R s1 s3;
  calm_on_log : ∀ lv msg, P (ELog lv msg);
  calm_on_get : ∀ url params, P (EGet url params);
  calm_on_post : ∀ method body s,
    allowed method →
    P (EPost method body (bitrix_post method body s).1)
    ∧ R s (bitrix_post method body s).2
}.

(** The same result and the same events from every destination state,
    which is handed back untouched. *)
Definition stateless {A} (m : M (D := D) A) : Prop :=
  ∃ r ev, ∀ s, m s = (r, s, ev).

(** The persons of a counterparty, as [main] obtains them. *)
Definition gather_persons (fuel : nat) (org : json) (c : list (string * json))
  : M (D := D) (list json) :=
  match inline_persons c ["contacts"; "contactPersons"; "persons"] with
  | [] => get_elba_contacts_for_counterparty elba_get fuel org (cp_elba_id c)
  | p :: l => ret (p :: l)
  end.

End Invariants.

Arguments calm_refl {D bitrix_post P R allowed}.
Arguments calm_trans {D bitrix_post P R allowed}.
Arguments calm_on_log {D bitrix_post P R allowed}.
Arguments calm_on_get {D bitrix_post P R allowed}.
Arguments calm_on_post {D bitrix_post P R allowed}.

(** *** Companies known from the events *)

(** What the events of a run tell about companies: a row of a company
    listing, or the answer to a company creation. *)
Definition listed (key cid : string) (e : event) : Prop :=
  ∃ params data res rows row,
    e = EPost "crm.company.list" params (ReplyJson data)
    ∧ bitrix_result data = inr res ∧ rows_of res = inr rows ∧ JObj row ∈ rows
    ∧ py_str (dict_get row "UF_CRM_ELBA_ID") = key
    ∧ py_str (dict_get row "ID") = cid.

Definition created (key cid : string) (e : event) : Prop :=
  ∃ fields data res,
    e = EPost "crm.company.add" (JObj [("fields", JObj fields)]) (ReplyJson data)
    ∧ assoc fields "UF_CRM_ELBA_ID" = Some (JStr key)
    ∧ bitrix_result data = inr res ∧ py_str res = cid.

Definition company_known (pre : list event) (key cid : string) : Prop :=
  ∃ e, e ∈ pre ∧ (listed key cid e ∨ created key cid e).

Definition known_map (pre : list event) (existing : gmap string string) : Prop :=
  ∀ k v, existing !! k = Some v → company_known pre k v.

(** *** Records of the reference destination *)

Definition crm_size (st : crm) : nat :=
  (length (crm_companies st) + length (crm_contacts st))%nat.

Definition stored_keys (records : list (Z * list (string * json))) : list json :=
  List.map (fun record => dict_get record.2 "UF_CRM_ELBA_ID") records.

Definition stored (records : list (Z * list (string * json))) (k : string) : Prop :=
  ∃ record, record ∈ records ∧ dict_get record.2 "UF_CRM_ELBA_ID" = JStr k.

Definition same_records (s s' : crm) : Prop :=
  crm_companies s = crm_companies s' ∧ crm_contacts s = crm_contacts s'.

Definition same_companies (s s' : crm) : Prop := crm_companies s = crm_companies s'.

Definition grows (s s' : crm) : Prop :=
  (∀ k, stored (crm_companies s) k → stored (crm_companies s') k)
  ∧ (∀ k, stored (crm_contacts s) k → stored (crm_contacts s') k).

(** The rows a listing answers for the keys of [group]. *)
Definition lookup_rows (records : list (Z * list (string * json))) (group : list string)
  : list json :=
  List.map crm_row (List.filter (has_key group) records).

(** The map [find_in_groups] builds from such answers. *)
Fixpoint index_groups (records : list (Z * list (string * json)))
    (groups : list (list string)) (result : gmap string string)
  : exn + gmap string string :=
  match groups with
  | [] => inr result
  | group :: groups' =>
      match index_rows (lookup_rows records group) result with
      | inr result' => index_groups records groups' result'
      | inl e => inl e
      end
  end.

(** Every binding of the map is a stored key with a non-empty id. *)
Definition sound_map (records : list (Z * list (string * json)))
    (m : gmap string string) : Prop :=
  ∀ k v, m !! k = Some v → stored records k ∧ v ≠ "".

(** Every stored company key among the counterparties is in the map. *)
Definition complete_map (m : gmap string string) (s : crm) (cps : list json) : Prop :=
  ∀ c, JObj c ∈ cps → cp_elba_id c ≠ "" → stored (crm_companies s) (cp_elba_id c) →
       ∃ found, m !! cp_elba_id c = Some found ∧ found ≠ "".

(** The records a run appended: pairwise distinct keys, none stored before. *)
Definition fresh_keys (before added : list (Z * list (string * json))) : Prop :=
  NoDup (stored_keys added)
  ∧ ∀ k, JStr k ∈ stored_keys added → ¬ stored before k.

(** A person record that does not rely on [personId]: it has a truthy [id],
    or no truthy [personId] either. *)
Definition plain_id (person : json) : Prop :=
  match person with
  | JObj p => truthy (dict_get p "id") = true ∨ truthy (dict_get p "personId") = false
  | _ => True
  end.

Section SourceData.

Variable elba_get : string -> list (string * Z) -> response.
Variable fuel : nat.

(** What the source answers, whatever the destination holds. *)
Definition source_org : outcome json :=
  (get_organization_id elba_get crm_empty).1.1.

Definition source_counterparties (org : json) : outcome (list json) :=
  (get_elba_counterparties elba_get fuel org crm_empty).1.1.

Variable org : json.

(** The persons of [c], as any run obtains them. *)
Definition gathered (c : list (string * json)) : outcome (list json) :=
  (gather_persons elba_get fuel org c crm_empty).1.1.

(** What a run leaves behind for the counterparties [cps]. *)
Definition covered (s : crm) (cps : list json) : Prop :=
  ∀ c, JObj c ∈ cps → cp_elba_id c ≠ "" →
       stored (crm_companies s) (cp_elba_id c)
       ∧ ∀ persons p, gathered c = Ok persons → JObj p ∈ persons → person_id p ≠ "" →
                      stored (crm_contacts s) (cp_elba_id c +:+ ":" +:+ person_id p).

Definition plain_ids (cps : list json) : Prop :=
  ∀ c persons, JObj c ∈ cps → gathered c = Ok persons → Forall plain_id persons.

End SourceData.

(** *** Requests to the destination *)

(** The POST requests of a trace, in order, and their methods. *)
Definition posts (ev : list event) : list (string * json * reply) :=
  omap (fun e => match e with
                 | EPost method params r => Some (method, params, r)
                 | _ => None
                 end) ev.

Definition methods (ev : list event) : list string := (posts ev).*1.*1.

(** The requests of a trace that were answered with a decoded body. *)
Definition answered (ev : list event) : list (string * json) :=
  omap (fun e => match e with
                 | EPost method params (ReplyJson _) => Some (method, params)
                 | _ => None
                 end) ev.

(** [e] is no request of the method [name]. *)
Definition other_method (name : string) (e : event) : Prop :=
  ∀ params r, e ≠ EPost name params r.

(** The Bitrix24 methods the script names. *)
Definition script_methods : list string :=
  ["crm.contact.userfield.list"; "crm.contact.userfield.add";
   "crm.company.userfield.list"; "crm.company.userfield.add";
   "crm.company.list"; "crm.company.add"; "crm.contact.list"; "crm.contact.add"].

Definition script_method (e : event) : Prop :=
  match e with
  | EPost method _ _ => method ∈ script_methods
  | _ => True
  end.

(** Those that list or add user fields. *)
Definition userfield_methods : list string :=
  ["crm.contact.userfield.list"; "crm.contact.userfield.add";
   "crm.company.userfield.list"; "crm.company.userfield.add"].

Definition userfield_method (e : event) : Prop :=
  match e with
  | EPost method _ _ => method ∈ userfield_methods
  | _ => True
  end.

(** A computation that sends no request to the source. *)
Definition no_get (e : event) : Prop := ∀ url params, e ≠ EGet url params.

Definition posting {D A} (m : M (D := D) A) : Prop := ∀ s, Forall no_get (m s).2.

(** *** Lookups and creations of companies *)

(** The listing request for one group of keys. *)
Definition lookup_request (entity_type : string) (group : list string) : string * json :=
  ("crm." +:+ entity_type +:+ ".list",
   JObj [("filter", JObj [("UF_CRM_ELBA_ID", JList (List.map JStr group))]);
         ("select", JList [JStr "ID"; JStr "UF_CRM_ELBA_ID"])]).

(** The lookup result holds a destination id for [key]. *)
Definition found_in (m : gmap string string) (key : string) : Prop :=
  ∃ v, m !! key = Some v ∧ v ≠ "".

(** The company listing of a run shows [key], and never with an empty id. *)
Definition company_listed (ev : list event) (key : string) : Prop :=
  (∃ e cid, e ∈ ev ∧ listed key cid e)
  ∧ ∀ e cid, e ∈ ev → listed key cid e → cid ≠ "".

(** [e] asks for the creation of a company under [key]. *)
Definition creates_company (key : string) (e : event) : Prop :=
  ∃ fields r,
    e = EPost "crm.company.add" (JObj [("fields", JObj fields)]) r
    ∧ assoc fields "UF_CRM_ELBA_ID" = Some (JStr key).

(** A request for the creation of a company carries an identity key and a
    title, neither of them empty. *)
Definition sound_company_add (e : event) : Prop :=
  ∀ params r,
    e = EPost "crm.company.add" params r →
    ∃ fields key title,
      params = JObj [("fields", JObj fields)]
      ∧ assoc fields "UF_CRM_ELBA_ID" = Some (JStr key) ∧ key ≠ ""
      ∧ assoc fields "TITLE" = Some title ∧ truthy title = true.

(** A request for the creation of a contact refers to the company
    [company_id], or to none when that id is empty. *)
Definition contact_link (company_id : string) (e : event) : Prop :=
  ∀ params r,
    e = EPost "crm.contact.add" params r →
    ∃ fields,
      params = JObj [("fields", JObj fields)]
      ∧ assoc fields "COMPANY_ID"
        = if String.eqb company_id "" then None else Some (JStr company_id).

(** What [main] does once it holds the counterparties and their keys: the
    company lookup, the loop, and the closing line. *)
Definition lookup_and_sync {D} (bitrix_post : string -> json -> D -> reply * D)
    (elba_get : string -> list (string * Z) -> response) (fuel : nat) (org_id : json)
    (counterparties : list json) (ids : list string) : M (D := D) unit :=
  bind (find_existing_by_elba_ids bitrix_post "company"
          (List.filter (fun eid => negb (String.eqb eid "")) ids))
    (fun existing_companies =>
       bind (sync_counterparties bitrix_post elba_get fuel org_id counterparties
               existing_companies)
         (fun _ => log LInfo MsgDone)).

(** *** Strings without white space *)

Definition no_ascii_space (s : string) : Prop :=
  Forall (fun c => is_ascii_space (N_of_ascii c) = false) (list_ascii_of_string s).

(** *** Words of a string *)

Definition utf8 (bytes : list N) : string :=
  string_of_list_ascii (List.map ascii_of_N bytes).

(** The white-space characters of Unicode, in UTF-8: the ones [str.isspace]
    accepts and [str.split()] splits on. *)
Definition white_space : list string :=
  List.map utf8
    [[9]; [10]; [11]; [12]; [13]; [28]; [29]; [30]; [31]; [32];
     [194; 133]; [194; 160]; [225; 154; 128];
     [226; 128; 128]; [226; 128; 129]; [226; 128; 130]; [226; 128; 131];
     [226; 128; 132]; [226; 128; 133]; [226; 128; 134]; [226; 128; 135];
     [226; 128; 136]; [226; 128; 137]; [226; 128; 138];
     [226; 128; 168]; [226; 128; 169]; [226; 128; 175];
     [226; 129; 159]; [227; 128; 128]]%N.

(** A run of white space, possibly empty. *)
Inductive white : string -> Prop :=
| white_nil : white ""
| white_cons (w rest : string) : w ∈ white_space → white rest → white (w +:+ rest).

(** A word: not empty, with no white-space character anywhere in it. *)
Definition word (t : string) : Prop :=
  t ≠ "" ∧ ∀ a w b, t = a +:+ w +:+ b → w ∉ white_space.

(** [words_after rest words]: [rest] is what follows a word, and the words
    still to come in it are [words], each after white space that is not
    empty. *)
Inductive words_after : string -> list string -> Prop :=
| words_after_end (sep : string) : white sep → words_after sep []
| words_after_next (sep t rest : string) (words : list string) :
    white sep → sep ≠ "" → word t → words_after rest words →
    words_after (sep +:+ t +:+ rest) (t :: words).

(** Modelled from the spec's words ("whitespace-splitting"): [words] are
    the maximal runs of characters of [s] that are not white space, in
    order; white space may lead and trail. *)
Definition words_of (s : string) (words : list string) : Prop :=
  words_after s words
  ∨ ∃ t rest ts, words = t :: ts ∧ s = t +:+ rest ∧ word t ∧ words_after rest ts.

(** What follows a word is the end of the string or white space. *)
Definition word_end (rest : string) : Prop :=
  rest = "" ∨ ∃ w r, w ∈ white_space ∧ rest = w +:+ r.

(** What was read of the current word so far: nowhere in it does white space
    start, with [s] still to come. *)
Definition reading (cur s : string) : Prop :=
  ∀ a b, cur = a +:+ b → b ≠ "" → space_width (b +:+ s) = 0%nat.

(** *** Records without an external id *)

(** What [main] does with a non-empty listing of counterparties: the keys,
    the company lookup, the loop and the closing line. *)
Definition sync_listing {D} (bitrix_post : string -> json -> D -> reply * D)
    (elba_get : string -> list (string * Z) -> response) (fuel : nat) (org_id : json)
    (counterparties : list json) : M (D := D) unit :=
  bind (lift (company_ids counterparties))
    (lookup_and_sync bitrix_post elba_get fuel org_id counterparties).

(** What [main] does with the persons of a counterparty once it holds them:
    the contact lookup and the loop over the persons. *)
Definition lookup_and_sync_persons {D} (bitrix_post : string -> json -> D -> reply * D)
    (persons : list json) (cp : json) (cp_id company_id : string) : M (D := D) unit :=
  bind (lift (contact_ids cp_id persons)) (fun contact_elba_ids =>
  bind (find_existing_by_elba_ids bitrix_post "contact" contact_elba_ids)
    (fun existing_contacts =>
       sync_persons bitrix_post persons cp cp_id company_id existing_contacts)).

(** [with_skip] is the run [without] with nothing but the warning for one
    skipped counterparty added to its events, unless the run ended, not
    normally, before it came to that record. *)
Definition skipped_with_warning {D A}
    (with_skip without : outcome A * D * list event) : Prop :=
  with_skip.1 = without.1
  ∧ ∃ ev1 ev2,
      without.2 = ev1 ++ ev2
      ∧ (with_skip.2 = ev1 ++ ELog LWarning MsgSkipCounterparty :: ev2
         ∨ (with_skip.2 = ev1 ∧ ev2 = [] ∧ ∀ a, with_skip.1.1 ≠ Ok a)).

(** The answered requests of a trace that concern companies and contacts
    rather than user fields. *)
Definition record_requests (ev : list event) : list (string * json) :=
  List.filter (fun q => negb (bool_decide (q.1 ∈ userfield_methods))) (answered ev).

(** *** The iteration of a contact creation *)

(** The request that creates the contact of [person] in the iteration of
    [cp]: the mapped fields, with the reference to the company when
    [company_id] is not empty. *)
Definition contact_request (person cp : json) (company_id : string) (params : json)
  : Prop :=
  ∃ mapped,
    map_contact_fields_from_person person cp = inr mapped
    ∧ params
      = JObj [("fields",
               JObj (if String.eqb company_id "" then mapped
                     else assoc_set mapped "COMPANY_ID" (JStr company_id)))].

(** The request [params], sent after the events [pre] of a run from [s], is
    sent in the iteration of a counterparty [c] of the listing of the source,
    for a person of [c], after the company part of that iteration has yielded
    [company_id]; the company part starts from a map [existing] that holds
    only what the events before it show. *)
Definition created_in_iteration {D} (bitrix_post : string -> json -> D -> reply * D)
    (elba_get : string -> list (string * Z) -> response) (fuel : nat) (s : D)
    (pre : list event) (params : json) (r : reply) : Prop :=
  ∃ (org : json) (before : list json) (c : list (string * json)) (after : list json)
    (head ev_company ev_contacts rest : list event)
    (existing existing' : gmap string string) (s0 s1 : D) (company_id : string)
    (persons : list json) (person : json) (fields : list (string * json)),
    (* [c] is a counterparty of the source listing and has an id *)
    (get_organization_id elba_get s).1.1 = Ok org
    ∧ (get_elba_counterparties elba_get fuel org s).1.1 = Ok (before ++ JObj c :: after)
    ∧ cp_elba_id c ≠ ""
    (* the iteration of [c]: the company part, then the contact part up to
       the request *)
    ∧ pre = head ++ ev_company ++ ev_contacts
    ∧ known_map head existing
    ∧ sync_company bitrix_post (JObj c) (cp_elba_id c) existing s0
      = (Ok (company_id, existing'), s1, ev_company)
    ∧ (sync_contacts bitrix_post elba_get fuel org c (cp_elba_id c) company_id s1).2
      = ev_contacts ++ EPost "crm.contact.add" params r :: rest
    (* the company id was listed, or returned by a creation, before *)
    ∧ company_known (head ++ ev_company) (cp_elba_id c) company_id
    (* the request is for a person of [c] and refers to that company *)
    ∧ (gather_persons elba_get fuel org c s).1.1 = Ok persons
    ∧ person ∈ persons
    ∧ contact_request person (JObj c) company_id params
    ∧ params = JObj [("fields", JObj fields)]
    ∧ assoc fields "COMPANY_ID"
      = if String.eqb company_id "" then None else Some (JStr company_id).

(** *** Scenarios *)

(** One counterparty whose only contact person carries [personId] and no [id]. *)
Definition acme_person : list (string * json) :=
  [("personId", JStr "7"); ("fullName", JStr "Ivanov Ivan")].

Definition acme : list (string * json) :=
  [("id", JStr "1"); ("name", JStr "Acme"); ("contacts", JList [JObj acme_person])].

Definition acme_source : string -> list (string * Z) -> response :=
  elba_serving [("id", JStr "o1")]
    [(ELBA_API_BASE +:+ "/organizations/o1/counterparties", [JObj acme])].

Definition acme_events : list event := (main crm_post acme_source 1 crm_empty).2.

(** One counterparty listing the same person id twice. *)
Definition twin_person : list (string * json) :=
  [("id", JStr "7"); ("fullName", JStr "Ivanov Ivan")].

Definition twins : list (string * json) :=
  [("id", JStr "1"); ("name", JStr "Acme");
   ("contacts", JList [JObj twin_person; JObj twin_person])].

Definition twins_source : string -> list (string * Z) -> response :=
  elba_serving [("id", JStr "o1")]
    [(ELBA_API_BASE +:+ "/organizations/o1/counterparties", [JObj twins])].

(** A source in which only the third counterparty endpoint has data. *)
Definition third_only_source : string -> list (string * Z) -> response :=
  elba_serving [("id", JStr "o1")]
    [(ELBA_API_BASE +:+ "/counterparties", [JObj [("id", JStr "1")]])].

(** A source whose first counterparty endpoint delivers one full page and
    then fails, while the second endpoint has a record to offer. *)
Definition flaky_item : json := JObj [("id", JStr "1")].

Definition flaky_source : string -> list (string * Z) -> response :=
  fun url params =>
    if String.eqb url (ELBA_API_BASE +:+ "/organizations/o1/counterparties") then
      if default 0 (assoc params "skip") =? 0
      then RespJson (JObj [("items", JList (replicate 100 flaky_item))])
      else RespHttpError 500
    else
      elba_serving [("id", JStr "o1")]
        [(ELBA_API_BASE +:+ "/organizations/o1/contractors", [JObj [("id", JStr "2")]])]
        url params.

(** A contact person without an id of any kind. *)
Definition anonymous_person : list (string * json) := [("fullName", JStr "Nobody")].

(** A source with an organization and no listing at all. *)
Definition silent_source : string -> list (string * Z) -> response :=
  elba_serving [("id", JStr "o1")] [].

(** A destination that cannot be reached. *)
Definition unreachable : string -> json -> unit -> reply * unit :=
  fun _ _ s => (ReplyFailure, s).

(** A counterparty without any id, followed by one with a person without
    any id and a person with one. *)
Definition mixed : list json :=
  [JObj [("name", JStr "Nameless")];
   JObj [("id", JStr "1"); ("name", JStr "Acme");
         ("contacts", JList [JObj anonymous_person; JObj twin_person])]].

Definition mixed_source : string -> list (string * Z) -> response :=
  elba_serving [("id", JStr "o1")]
    [(ELBA_API_BASE +:+ "/organizations/o1/counterparties", mixed)].

(** A destination that answers the creation of a company with an empty id,
    any other creation with the id 9, and every listing with no row. *)
Definition crm_blank_id : string -> json -> unit -> reply * unit :=
  fun method _ s =>
    if String.eqb method "crm.company.add" then
      (ReplyJson (JObj [("result", JStr "")]), s)
    else if bool_decide (method ∈ ["crm.contact.add"; "crm.company.userfield.add";
                                   "crm.contact.userfield.add"]) then
      (ReplyJson (JObj [("result", JNum 9)]), s)
    else (ReplyJson (JObj [("result", JList [])]), s).

(** * Theorems *)

(** ** Name decomposition *)

Lemma nth_guard (parts : list string) (i : nat) :
  (if (i <? length parts)%nat then nth i parts "" else "") = nth i parts "".
Proof.
  destruct (Nat.ltb_spec i (length parts)) as [Hlt | Hge]; [done |].
  by rewrite nth_overflow.
Qed.

Lemma flush_token_nonempty (cur : string) (k : list string) :
  Forall (fun t => t ≠ "") k → Forall (fun t => t ≠ "") (flush_token cur k).
Proof.
  intros Hk. unfold flush_token.
  destruct (String.eqb_spec cur ""); [done |]. by constructor.
Qed.

Lemma split_from_nonempty (s : string) :
  ∀ skip cur, Forall (fun t => t ≠ "") (split_from s skip cur).
Proof.
  induction s as [| c s IH]; intros skip cur.
  - apply flush_token_nonempty. constructor.
  - cbn [split_from]. destruct skip as [| k]; [| apply IH].
    destruct (space_width (String c s)); [apply IH |].
    apply flush_token_nonempty, IH.
Qed.

(** No token of [str.split()] is empty. *)
Lemma py_split_nonempty (s : string) : Forall (fun t => t ≠ "") (py_split s).
Proof. apply split_from_nonempty. Qed.

Lemma str_app_cons (x : ascii) (a b : string) : String x a +:+ b = String x (a +:+ b).
Proof. reflexivity. Qed.

Lemma str_app_assoc (a b c : string) : (a +:+ b) +:+ c = a +:+ (b +:+ c).
Proof. induction a as [| x a IH]; [done |]. by rewrite !str_app_cons, IH. Qed.

Lemma str_app_nil_r (a : string) : a +:+ "" = a.
Proof. induction a as [| x a IH]; [done |]. by rewrite str_app_cons, IH. Qed.

Lemma white_space_width (w : string) :
  w ∈ white_space → ∀ rest, space_width (w +:+ rest) ≠ 0%nat ∧ w ≠ "".
Proof.
  intros Hw rest. unfold white_space in Hw. cbn [List.map] in Hw.
  repeat (apply elem_of_cons in Hw as [-> | Hw]; [by split |]).
  by apply elem_of_nil in Hw.
Qed.

Lemma split_from_skip (x : string) :
  ∀ (y cur : string), split_from (x +:+ y) (String.length x) cur = split_from y 0 cur.
Proof.
  induction x as [| c x IH]; intros y cur; [done |]. rewrite str_app_cons. cbn. apply IH.
Qed.

Ltac eval_byte :=
  match goal with
  | |- context [N_of_ascii (Ascii ?a ?b ?c ?d ?e ?f ?g ?h)] =>
      let v := eval vm_compute in (N_of_ascii (Ascii a b c d e f g h)) in
      change (N_of_ascii (Ascii a b c d e f g h)) with v
  end.

Ltac white_byte c :=
  destruct c as [[] [] [] [] [] [] [] []]; eval_byte; cbn; try discriminate.

Ltac white_member :=
  split; [reflexivity |]; split; [| reflexivity];
  repeat first [apply list_elem_of_here | apply list_elem_of_further].

Ltac next_byte s :=
  let c := fresh "c" in
  destruct s as [| c s]; [cbn; discriminate |];
  cbn [list_ascii_of_string List.map]; white_byte c.

Lemma space_width_white (c : ascii) (s : string) (k : nat) :
  space_width (String c s) = S k →
  ∃ w rest, String c s = w +:+ rest ∧ w ∈ white_space ∧ String.length w = S k.
Proof.
  unfold space_width, white_space. cbn [list_ascii_of_string List.map].
  white_byte c.
  all: try solve [intros [= <-]; eexists (String _ ""), _; white_member].
  all: next_byte s.
  all: try solve [intros [= <-]; eexists (String _ (String _ "")), _; white_member].
  all: next_byte s.
  all: solve [intros [= <-]; eexists (String _ (String _ (String _ ""))), _; white_member].
Qed.

Lemma reading_word (cur s : string) : cur ≠ "" → reading cur s → word cur.
Proof.
  intros Hne Hread. split; [done |]. intros a w b -> Hw.
  destruct (white_space_width w Hw (b +:+ s)) as [Hwidth Hw'].
  apply Hwidth. rewrite <- str_app_assoc. apply (Hread a (w +:+ b)); [done |].
  destruct w; [done |]. by rewrite str_app_cons.
Qed.

Lemma str_app_snoc (a : string) (c : ascii) (s : string) :
  (a +:+ String c "") +:+ s = a +:+ String c s.
Proof. by rewrite str_app_assoc. Qed.

Lemma reading_snoc (cur : string) (c : ascii) (s : string) :
  reading cur (String c s) → space_width (String c s) = 0%nat →
  reading (cur +:+ String c "") s.
Proof.
  intros Hread Hc a b Hab Hb.
  assert (∃ b0, b = b0 +:+ String c "" ∧ cur = a +:+ b0) as (b0 & -> & ->).
  { clear Hread Hc. revert cur Hab. induction a as [| x a IH]; intros cur Hab.
    - change ("" +:+ b) with b in Hab. subst b. by exists cur.
    - destruct cur as [| y cur].
      + rewrite str_app_cons in Hab. change ("" +:+ String c "") with (String c "") in Hab.
        injection Hab as <- Hab. destruct a as [| z a]; [| discriminate Hab].
        change ("" +:+ b) with b in Hab. by subst b.
      + rewrite !str_app_cons in Hab. injection Hab as <- Hab.
        destruct (IH _ Hab) as (b0 & -> & ->). by exists b0. }
  rewrite str_app_snoc. destruct b0 as [| y b0]; [done |].
  apply (Hread a (String y b0)); done.
Qed.

Lemma white_app (a b : string) : white a → white b → white (a +:+ b).
Proof.
  induction 1 as [| w rest Hw _ IH]; intros Hb; [done |].
  rewrite str_app_assoc. apply white_cons; [done | by apply IH].
Qed.

Lemma white_one (w : string) : w ∈ white_space → white w.
Proof. intros Hw. rewrite <- (str_app_nil_r w). apply white_cons; [done | constructor]. Qed.

Lemma str_length_app (a b : string) :
  String.length (a +:+ b) = (String.length a + String.length b)%nat.
Proof. induction a as [| x a IH]; [done |]. rewrite str_app_cons. cbn. by rewrite IH. Qed.

Lemma reading_first (c : ascii) (s : string) :
  space_width (String c s) = 0%nat → reading (String c "") s.
Proof.
  intros Hc. apply (reading_snoc "" c s); [| done].
  intros a b Hab Hb. destruct a; [| discriminate Hab].
  change ("" +:+ b) with b in Hab. by subst b.
Qed.

Lemma split_from_words (n : nat) :
  ∀ s, (String.length s ≤ n)%nat →
    (∀ sep, white sep → sep ≠ "" → words_after (sep +:+ s) (split_from s 0 ""))
    ∧ (∀ cur, cur ≠ "" → reading cur s →
         ∃ t rest ts,
           split_from s 0 cur = t :: ts ∧ cur +:+ s = t +:+ rest
           ∧ word t ∧ words_after rest ts).
Proof.
  induction n as [| n IH]; intros s Hlen.
  { destruct s; [| cbn in Hlen; lia]. split.
    - intros sep Hsep _. rewrite str_app_nil_r. by constructor.
    - intros cur Hcur Hread. exists cur, "", []. cbn. unfold flush_token.
      destruct (String.eqb_spec cur ""); [done |].
      split; [done |]. split; [done |]. split; [by eapply reading_word |].
      constructor; constructor. }
  destruct s as [| c s].
  { apply IH. cbn. lia. }
  cbn [split_from]. destruct (space_width (String c s)) as [| k] eqn:Hw.
  - destruct (IH s ltac:(cbn in Hlen; lia)) as [_ Hword]. split.
    + intros sep Hsep Hne. change ("" +:+ String c "") with (String c "").
      destruct (Hword (String c "") ltac:(done) (reading_first c s Hw))
        as (t & rest & ts & -> & Heq & Ht & Hrest).
      change (String c "" +:+ s) with (String c s) in Heq. rewrite Heq.
      by constructor.
    + intros cur Hcur Hread.
      destruct (Hword (cur +:+ String c "")) as (t & rest & ts & -> & Heq & Ht & Hrest).
      { destruct cur; done. }
      { by apply reading_snoc. }
      exists t, rest, ts. by rewrite <- str_app_snoc.
  - destruct (space_width_white c s k Hw) as (w & rest0 & Heq & Hin & Hk).
    destruct w as [| c' w]; [done |]. rewrite str_app_cons in Heq.
    injection Heq as <- ->. cbn in Hk. injection Hk as <-.
    rewrite split_from_skip.
    destruct (IH rest0) as [Hafter _].
    { cbn in Hlen. rewrite str_length_app in Hlen. lia. }
    unfold flush_token. split.
    + intros sep Hsep Hne. cbn [String.eqb].
      rewrite <- str_app_cons, <- str_app_assoc. apply Hafter.
      * apply white_app; [done | by apply white_one].
      * by destruct sep.
    + intros cur Hcur Hread. destruct (String.eqb_spec cur ""); [done |].
      exists cur, (String c w +:+ rest0), (split_from rest0 0 "").
      split; [done |]. split; [done |]. split; [by eapply reading_word |].
      apply Hafter; [by apply white_one | done].
Qed.

(** The tokens of [str.split()] are the words of the string. *)
Lemma py_split_words (s : string) : words_of s (py_split s).
Proof.
  unfold py_split.
  destruct (split_from_words (String.length s) s ltac:(lia)) as [_ Hword].
  destruct s as [| c s]; [left; constructor; constructor |].
  cbn [split_from]. destruct (space_width (String c s)) as [| k] eqn:Hw.
  - right. change ("" +:+ String c "") with (String c "").
    destruct (split_from_words (String.length s) s ltac:(lia)) as [_ Hword'].
    destruct (Hword' (String c "") ltac:(done) (reading_first c s Hw))
      as (t & rest & ts & -> & Heq & Ht & Hrest).
    by exists t, rest, ts.
  - left. destruct (space_width_white c s k Hw) as (w & rest0 & Heq & Hin & Hk).
    destruct w as [| c' w]; [done |]. rewrite str_app_cons in Heq.
    injection Heq as <- ->. cbn in Hk. injection Hk as <-.
    rewrite split_from_skip. unfold flush_token. cbn [String.eqb].
    destruct (split_from_words (String.length rest0) rest0 ltac:(lia)) as [Hafter _].
    rewrite <- str_app_cons. apply Hafter; [by apply white_one | done].
Qed.

(** *** The words of a string are unique *)

Lemma white_width (w : string) :
  w ∈ white_space → ∀ rest, space_width (w +:+ rest) = String.length w.
Proof.
  intros Hw rest. unfold white_space in Hw. cbn [List.map] in Hw.
  repeat (apply elem_of_cons in Hw as [-> | Hw]; [reflexivity |]).
  by apply elem_of_nil in Hw.
Qed.

(** Leading white space is skipped. *)
Lemma split_from_white (sep : string) :
  white sep → ∀ rest, split_from (sep +:+ rest) 0 "" = split_from rest 0 "".
Proof.
  induction 1 as [| w sep Hw _ IH]; intros rest; [done |].
  rewrite str_app_assoc. pose proof (white_width w Hw (sep +:+ rest)) as Hwidth.
  destruct w as [| c w]; [by destruct (white_space_width "" Hw "") |].
  rewrite str_app_cons in *. cbn [split_from]. rewrite Hwidth. cbn [String.length].
  unfold flush_token. cbn [String.eqb]. by rewrite split_from_skip.
Qed.

(** A white-space character starts with a byte that continues no character,
    and goes on with bytes that start none. *)
Lemma white_starts (w : string) :
  w ∈ white_space →
  ∃ c w', w = String c w' ∧ ((N_of_ascii c <? 128) || (192 <=? N_of_ascii c))%N = true.
Proof.
  intros Hw. unfold white_space in Hw. cbn [List.map] in Hw.
  repeat (apply elem_of_cons in Hw as [-> | Hw]; [by eexists _, _ |]).
  by apply elem_of_nil in Hw.
Qed.

Lemma white_continues (w b : string) (c : ascii) (x : string) :
  w ∈ white_space → b ≠ "" → w = b +:+ String c x →
  ((N_of_ascii c <? 128) || (192 <=? N_of_ascii c))%N = false.
Proof.
  intros Hw Hb. unfold white_space in Hw. cbn [List.map] in Hw.
  destruct b as [| c1 b]; [done |]. rewrite str_app_cons.
  repeat (apply elem_of_cons in Hw as [-> | Hw];
          [intros [= <- H];
           repeat (destruct b as [| ? b]; [by injection H as <- <- |];
                   rewrite str_app_cons in H; injection H as <- H);
           by destruct b |]).
  by apply elem_of_nil in Hw.
Qed.

Lemma str_app_inv (a b c d : string) :
  a +:+ b = c +:+ d →
  (∃ m, c = a +:+ m ∧ b = m +:+ d) ∨ (∃ m, m ≠ "" ∧ a = c +:+ m ∧ d = m +:+ b).
Proof.
  revert c. induction a as [| x a IH]; intros c H.
  - left. exists c. by split.
  - destruct c as [| y c].
    + right. exists (String x a). by split.
    + rewrite !str_app_cons in H. injection H as <- H.
      destruct (IH _ H) as [(m & -> & ->) | (m & Hm & -> & ->)].
      * left. by exists m.
      * right. by exists m.
Qed.

Lemma white_word_end (sep : string) : white sep → word_end sep.
Proof. destruct 1 as [| w rest Hw _]; [by left | right; by exists w, rest]. Qed.

Lemma words_after_word_end (rest : string) (words : list string) :
  words_after rest words → word_end rest.
Proof.
  destruct 1 as [sep Hsep | sep t rest words Hsep Hne _ _]; [by apply white_word_end |].
  destruct Hsep as [| w sep Hw _]; [done |]. right. exists w, (sep +:+ t +:+ rest).
  split; [done |]. by rewrite str_app_assoc.
Qed.

(** Inside a word that is followed by its end, no white space starts. *)
Lemma word_reading (t rest : string) : word t → word_end rest → reading t rest.
Proof.
  intros [_ Hword] Hend a b -> Hb.
  destruct (space_width (b +:+ rest)) as [| k] eqn:Hwidth; [done |].
  destruct b as [| c b]; [done |]. rewrite str_app_cons in Hwidth.
  destruct (space_width_white _ _ _ Hwidth) as (w & r & Heq & Hw & _).
  rewrite <- str_app_cons in Heq.
  apply str_app_inv in Heq as [(m & Hwm & Hrest) | (m & _ & Hcb & _)].
  - destruct m as [| x m].
    { rewrite str_app_nil_r in Hwm. subst w.
      by destruct (Hword a (String c b) "" ltac:(by rewrite str_app_nil_r)). }
    destruct Hend as [-> | (w2 & r2 & Hw2 & ->)]; [done |].
    destruct (white_starts w2 Hw2) as (c2 & w2' & -> & Hlead).
    rewrite !str_app_cons in Hrest. injection Hrest as -> _.
    by rewrite (white_continues w (String c b) x m Hw ltac:(done) Hwm) in Hlead.
  - rewrite Hcb in Hword. by destruct (Hword a w m eq_refl).
Qed.

Lemma reading_tail (c : ascii) (t rest : string) :
  reading (String c t) rest → space_width (String c (t +:+ rest)) = 0%nat ∧ reading t rest.
Proof.
  intros Hread. split.
  - by apply (Hread "" (String c t)).
  - intros a b -> Hb. by apply (Hread (String c a) b).
Qed.

(** A word is read to its end. *)
Lemma split_from_word (t rest : string) :
  reading t rest → ∀ cur, split_from (t +:+ rest) 0 cur = split_from rest 0 (cur +:+ t).
Proof.
  induction t as [| c t IH]; intros Hread cur; [by rewrite str_app_nil_r |].
  apply reading_tail in Hread as [Hc Hread].
  rewrite str_app_cons. cbn [split_from]. rewrite Hc, (IH Hread).
  by rewrite str_app_snoc.
Qed.

(** At the end of a word the word is cut off. *)
Lemma split_from_word_end (t rest : string) :
  t ≠ "" → word_end rest → split_from rest 0 t = t :: split_from rest 0 "".
Proof.
  intros Ht [-> | (w & r & Hw & ->)]; cbn [split_from]; unfold flush_token.
  { by destruct (String.eqb_spec t ""). }
  pose proof (white_width w Hw r) as Hwidth.
  destruct w as [| c w]; [by destruct (white_space_width "" Hw "") |].
  rewrite str_app_cons in *. cbn [split_from]. rewrite Hwidth. cbn [String.length].
  unfold flush_token. cbn [String.eqb]. by destruct (String.eqb_spec t "").
Qed.

Lemma words_after_split (rest : string) (words : list string) :
  words_after rest words → split_from rest 0 "" = words.
Proof.
  induction 1 as [sep Hsep | sep t rest words Hsep Hne Ht Hrest IH].
  - rewrite <- (str_app_nil_r sep). by rewrite split_from_white.
  - pose proof (words_after_word_end _ _ Hrest) as Hend.
    rewrite split_from_white by done.
    rewrite (split_from_word t rest (word_reading t rest Ht Hend) "").
    change ("" +:+ t) with t.
    rewrite (split_from_word_end t rest (proj1 Ht) Hend). by rewrite IH.
Qed.

(** The words of a string are the tokens of [str.split()], and no others. *)
Lemma words_of_py_split (s : string) (words : list string) :
  words_of s words → words = py_split s.
Proof.
  unfold py_split. intros [Hafter | (t & rest & ts & -> & -> & Ht & Hrest)].
  - symmetry. by apply words_after_split.
  - pose proof (words_after_word_end _ _ Hrest) as Hend.
    rewrite (split_from_word t rest (word_reading t rest Ht Hend) "").
    change ("" +:+ t) with t.
    rewrite (split_from_word_end t rest (proj1 Ht) Hend).
    by rewrite (words_after_split _ _ Hrest).
Qed.

(** C10. [extract_name_parts] splits on white space and assigns by
    position: every input string has its words (the maximal runs of
    characters that are not white space, in order), and only those, and the
    first word is returned as the last name, the second as the first name
    and the third as the middle name, with the empty string for a word that
    is missing.  "Ivanov Ivan Ivanovich" gives ("Ivanov", "Ivan",
    "Ivanovich"), "Ivanov" gives ("Ivanov", "", "") and the empty string
    gives ("", "", "").  White space of any length and kind separates: a
    name written with leading spaces, two spaces, a tab and a no-break space
    gives the same three parts, and a fourth word is dropped. *)
Theorem extract_name_parts_positional :
  (∀ s : string,
     ∃ words,
       words_of s words
       ∧ (∀ other, words_of s other → other = words)
       ∧ extract_name_parts (JStr s) = (nth 0 words "", nth 1 words "", nth 2 words ""))
  ∧ extract_name_parts (JStr "Ivanov Ivan Ivanovich") = ("Ivanov", "Ivan", "Ivanovich")
  ∧ extract_name_parts (JStr "Ivanov") = ("Ivanov", "", "")
  ∧ extract_name_parts (JStr "") = ("", "", "")
  ∧ extract_name_parts
      (JStr ("  Ivanov  Ivan" +:+ utf8 [9; 194; 160]%N +:+ "Ivanovich Jr "))
    = ("Ivanov", "Ivan", "Ivanovich").
Proof.
  split; [| by vm_compute].
  intros s. exists (py_split s). split; [apply py_split_words |].
  split; [intros other; apply words_of_py_split |].
  unfold extract_name_parts.
  destruct (truthy (JStr s)) eqn:Ht; cbn [negb].
  - cbn [py_str]. by rewrite !nth_guard.
  - cbn [truthy] in Ht. apply negb_false_iff, String.eqb_eq in Ht. by subst s.
Qed.

(** ** Identity keys *)

Lemma assoc_set_eq {A} (d : list (string * A)) (k : string) (v : A) :
  assoc (assoc_set d k v) k = Some v.
Proof.
  induction d as [| [k' v'] d IH]; cbn.
  - by rewrite String.eqb_refl.
  - destruct (String.eqb_spec k' k) as [-> | Hne]; cbn.
    + by rewrite String.eqb_refl.
    + by destruct (String.eqb_spec k' k).
Qed.

Lemma assoc_set_ne {A} (d : list (string * A)) (k k' : string) (v : A) :
  k ≠ k' → assoc (assoc_set d k v) k' = assoc d k'.
Proof.
  intros Hne. induction d as [| [k0 v0] d IH]; cbn.
  - by destruct (String.eqb_spec k k').
  - destruct (String.eqb_spec k0 k) as [-> | Hk]; cbn.
    + by destruct (String.eqb_spec k k').
    + by rewrite IH.
Qed.

Lemma setdefault_append_ne (fields : list (string * json)) (k k' : string) (x : json) :
  k ≠ k' → assoc (setdefault_append fields k x) k' = assoc fields k'.
Proof.
  intros Hne. unfold setdefault_append.
  destruct (assoc fields k) as [[] |]; auto using assoc_set_ne.
Qed.

Lemma add_phone_email_other (fields : list (string * json)) (phone email : json)
    (k : string) :
  k ≠ "PHONE" → k ≠ "EMAIL" →
  assoc (add_phone_email fields phone email) k = assoc fields k.
Proof.
  intros Hp He. unfold add_phone_email.
  destruct (truthy email), (truthy phone);
    rewrite ?setdefault_append_ne by done; done.
Qed.

(** The identity field of a company is the external id of its counterparty,
    as a string. *)
Lemma company_key (cp : list (string * json)) (fields : list (string * json)) :
  map_company_fields_from_cp (JObj cp) = inr fields →
  assoc fields "UF_CRM_ELBA_ID" = Some (JStr (cp_elba_id cp)).
Proof.
  unfold map_company_fields_from_cp.
  destruct (py_or (dict_get cp "contactInfo") (JObj [])); try discriminate.
  intros [= <-]. rewrite add_phone_email_other by done.
  by destruct (truthy (py_or (dict_get cp "inn") (dict_get cp "INN"))).
Qed.

(** The identity field written for a contact is built from the person's
    [id] field alone. *)
Lemma contact_key (p cp : list (string * json)) (fields : list (string * json)) :
  map_contact_fields_from_person (JObj p) (JObj cp) = inr fields →
  assoc fields "UF_CRM_ELBA_ID"
  = Some (JStr (cp_elba_id cp +:+ ":" +:+ py_str (py_or (dict_get p "id") (JStr "")))).
Proof.
  unfold map_contact_fields_from_person.
  destruct (extract_name_parts _) as [[last_name first_name] second_name].
  intros [= <-]. by rewrite add_phone_email_other.
Qed.

(** When the person has a truthy [id], the written key is the composite of
    the counterparty id and the id [main] derives for the person. *)
Lemma contact_key_with_id (p cp : list (string * json)) (fields : list (string * json)) :
  truthy (dict_get p "id") = true →
  map_contact_fields_from_person (JObj p) (JObj cp) = inr fields →
  assoc fields "UF_CRM_ELBA_ID" = Some (JStr (cp_elba_id cp +:+ ":" +:+ person_id p)).
Proof.
  intros Hid Hmap. rewrite (contact_key _ _ _ Hmap).
  unfold person_id, py_or. by rewrite !Hid.
Qed.

(** *** The key a contact is looked up by and the key it is stored under *)

(** C3. A person with a [personId] and no [id]: the key looked up for it is
    "1:7" while the key written into the fields of its contact is "1:". *)
Theorem lookup_key_differs_from_written_key :
  contact_ids (cp_elba_id acme) [JObj acme_person] = inr ["1:7"]
  ∧ ∃ fields,
      map_contact_fields_from_person (JObj acme_person) (JObj acme) = inr fields
      ∧ assoc fields "UF_CRM_ELBA_ID" = Some (JStr "1:").
Proof.
  split; [by vm_compute |].
  eexists. split; [by vm_compute | by vm_compute].
Qed.

(** C2. In a run on that counterparty the id derived for the person is "7",
    and the one contact created is stored under the key "1:" instead of
    "1:7"; the company is stored under "1". *)
Theorem created_contact_key_lacks_person_id :
  let run := main crm_post acme_source 1 crm_empty in
  person_id acme_person = "7"
  ∧ run.1.1 = Ok tt
  ∧ stored_keys (crm_companies run.1.2) = [JStr "1"]
  ∧ stored_keys (crm_contacts run.1.2) = [JStr "1:"].
Proof. by vm_compute. Qed.

(** C1. Two runs on that counterparty, the first against an empty
    destination: the second run issues one creation request and leaves three
    records where the first left two. *)
Theorem second_run_creates_again :
  let run1 := main crm_post acme_source 1 crm_empty in
  let run2 := main crm_post acme_source 1 run1.1.2 in
  run1.1.1 = Ok tt ∧ run2.1.1 = Ok tt
  ∧ crm_size run1.1.2 = 2%nat
  ∧ crm_size run2.1.2 = 3%nat
  ∧ length (List.filter is_creation run2.2) = 1%nat.
Proof. by vm_compute. Qed.

(** C4. A run on a counterparty that lists person "7" twice creates two
    contacts carrying the same key "1:7". *)
Theorem twin_person_created_twice :
  let run := main crm_post twins_source 1 crm_empty in
  run.1.1 = Ok tt
  ∧ stored_keys (crm_contacts run.1.2) = [JStr "1:7"; JStr "1:7"].
Proof. by vm_compute. Qed.

(** ** Runs of the monad *)

Lemma gets_app (ev1 ev2 : list event) : gets (ev1 ++ ev2) = gets ev1 ++ gets ev2.
Proof. apply omap_app. Qed.

Lemma requested_app (ev1 ev2 : list event) :
  requested (ev1 ++ ev2) = requested ev1 ++ requested ev2.
Proof. unfold requested. by rewrite gets_app, fmap_app. Qed.

Lemma prepend_nil {A D} (x : outcome A * D * list event) : prepend [] x = x.
Proof. by destruct x as [[r s] ev]. Qed.

Lemma prepend_prepend {A D} (ev1 ev2 : list event) (x : outcome A * D * list event) :
  prepend ev1 (prepend ev2 x) = prepend (ev1 ++ ev2) x.
Proof. unfold prepend. cbn. by rewrite app_assoc. Qed.

Section Pagination.

Context {D : Type}.
Variable elba_get : string -> list (string * Z) -> response.
Variables (url : string) (params : list (string * Z)) (item_keys : list string).
Variable limit : Z.

Abbreviation page_params := (page_params params limit).
Abbreviation page_batch := (page_batch elba_get url params item_keys limit).
Abbreviation full_page := (full_page elba_get url params item_keys limit).
Abbreviation short_page := (short_page elba_get url params item_keys limit).
Abbreviation batches := (batches elba_get url params item_keys limit).
Abbreviation page_gets := (page_gets url params limit).
Abbreviation page_lengths := (page_lengths elba_get url params item_keys limit).
Abbreviation page_trace := (page_trace elba_get url params item_keys limit).

Lemma page_trace_app (ev1 ev2 : list event) (k n m : nat) :
  page_trace ev1 k n → page_trace ev2 (k + n) m → page_trace (ev1 ++ ev2) k (n + m).
Proof.
  intros (Hg1 & Hs1 & Hw1) (Hg2 & Hs2 & Hw2). unfold page_trace, page_gets, page_lengths.
  rewrite seq_app, !List.map_app, gets_app, List.filter_app, Hg1, Hg2, Hw1, Hw2.
  unfold page_sizes in *. by rewrite omap_app, Hs1, Hs2.
Qed.

Lemma batches_app (k n m : nat) : batches k (n + m) = batches k n ++ batches (k + n) m.
Proof. unfold batches. by rewrite seq_app, List.map_app, concat_app. Qed.

Lemma batches_one (k : nat) : batches k 1 = default [] (page_batch k).
Proof. unfold batches. cbn. by rewrite app_nil_r. Qed.

Abbreviation fetch_from fuel items k :=
  (fetch_pages (D := D) elba_get fuel url params item_keys limit items
     (Z.of_nat k * limit)).

Lemma fetch_pages_short (fuel k : nat) (items : list json) (s : D) :
  short_page k →
  ∃ ev, fetch_from (S fuel) items k s = (Ok (items ++ batches k 1), s, ev)
        ∧ page_trace ev k 1.
Proof.
  intros (batch & Hb & Hlen). rewrite batches_one.
  unfold page_trace, page_gets, page_lengths. cbn [seq List.map].
  rewrite Hb. cbn [default from_option id].
  unfold page_batch in Hb. cbn [fetch_pages].
  unfold bind, elba_request. fold (page_params k).
  destruct (elba_get url (page_params k)) as [data0 | |]; try discriminate.
  rewrite Hb. unfold log, emit.
  destruct (Z.ltb_spec (Z.of_nat (length batch)) limit) as [_ | Hge]; [| lia].
  by eexists [_; _].
Qed.

Lemma fetch_pages_failed (fuel k : nat) (items : list json) (s : D) :
  page_batch k = None →
  ∃ w, fetch_from (S fuel) items k s
       = (Ok items, s, [EGet url (page_params k); ELog LWarning w]).
Proof.
  intros Hb. unfold page_batch in Hb. cbn [fetch_pages].
  unfold bind, elba_request. fold (page_params k).
  destruct (elba_get url (page_params k)) as [data0 | status |].
  - rewrite Hb. by eexists.
  - by eexists.
  - by eexists.
Qed.

Lemma fetch_pages_full (fuel k : nat) (items : list json) (s : D) :
  full_page k →
  ∃ ev, fetch_from (S fuel) items k s
        = prepend ev (fetch_from fuel (items ++ batches k 1) (S k) s)
        ∧ page_trace ev k 1.
Proof.
  intros (batch & Hb & Hlen). rewrite batches_one.
  unfold page_trace, page_gets, page_lengths. cbn [seq List.map].
  rewrite Hb. cbn [default from_option id].
  unfold page_batch in Hb. cbn [fetch_pages].
  unfold bind at 1. unfold elba_request. fold (page_params k).
  destruct (elba_get url (page_params k)) as [data0 | |]; try discriminate.
  rewrite Hb. unfold bind at 1. unfold log, emit.
  destruct (Z.ltb_spec (Z.of_nat (length batch)) limit) as [Hlt | _]; [lia |].
  replace (Z.of_nat k * limit + limit) with (Z.of_nat (S k) * limit) by lia.
  destruct (fetch_from fuel (items ++ batch) (S k) s) as [[r s'] ev'].
  by eexists [_; _].
Qed.

(** [n] full pages from page [k] on are requested one after the other. *)
Lemma fetch_pages_full_run (n : nat) :
  ∀ (fuel k : nat) (items : list json) (s : D),
    (∀ i, (k ≤ i < k + n)%nat → full_page i) →
    ∃ ev, fetch_from (n + fuel) items k s
          = prepend ev (fetch_from fuel (items ++ batches k n) (k + n) s)
          ∧ page_trace ev k n.
Proof.
  induction n as [| n IH]; intros fuel k items s Hfull.
  - exists []. rewrite prepend_nil, Nat.add_0_r. unfold batches. cbn.
    by rewrite app_nil_r.
  - destruct (fetch_pages_full (n + fuel) k items s) as (ev1 & Hrun & Ht1);
      [apply Hfull; lia |].
    destruct (IH fuel (S k) (items ++ batches k 1) s) as (ev2 & Hrest & Ht2);
      [intros i Hi; apply Hfull; lia |].
    exists (ev1 ++ ev2). cbn [Nat.add]. rewrite Hrun, Hrest, prepend_prepend.
    rewrite (batches_app k 1 n : batches k (S n) = _), app_assoc.
    replace (k + 1)%nat with (S k) by lia.
    replace (k + S n)%nat with (S k + n)%nat by lia. split; [done |].
    apply (page_trace_app ev1 ev2 k 1 n); [done |]. by rewrite Nat.add_1_r.
Qed.

(** Full pages up to page [n], which is short: the listing is the
    concatenation of pages [0..n], fetched with one request each. *)
Lemma fetch_pages_until_short (n fuel : nat) (s : D) :
  (n < fuel)%nat → (∀ i, (i < n)%nat → full_page i) → short_page n →
  ∃ ev, fetch_from fuel [] 0 s = (Ok (batches 0 (S n)), s, ev)
        ∧ page_trace ev 0 (S n).
Proof.
  intros Hfuel Hfull Hshort.
  replace fuel with (n + S (fuel - S n))%nat by lia.
  destruct (fetch_pages_full_run n (S (fuel - S n)) 0 [] s) as (ev1 & Hrun & Ht1);
    [intros i Hi; apply Hfull; lia |].
  destruct (fetch_pages_short (fuel - S n) (0 + n) ([] ++ batches 0 n) s Hshort)
    as (ev2 & Hlast & Ht2).
  exists (ev1 ++ ev2). rewrite Hrun, Hlast. unfold prepend. cbn [fst snd].
  replace (S n) with (n + 1)%nat by lia. rewrite (batches_app 0 n 1).
  split; [done |]. by apply page_trace_app.
Qed.

(** Full pages up to page [n], whose request fails: the listing is what
    pages [0..n-1] delivered; page [n] is requested once, a warning is
    logged and the loop ends. *)
Lemma fetch_pages_until_failure (n fuel : nat) (s : D) :
  (n < fuel)%nat → (∀ i, (i < n)%nat → full_page i) → page_batch n = None →
  ∃ ev, fetch_from fuel [] 0 s = (Ok (batches 0 n), s, ev)
        ∧ gets ev = page_gets 0 (S n)
        ∧ length (List.filter is_warning ev) = 1%nat.
Proof.
  intros Hfuel Hfull Hfail.
  replace fuel with (n + S (fuel - S n))%nat by lia.
  destruct (fetch_pages_full_run n (S (fuel - S n)) 0 [] s)
    as (ev1 & Hrun & Hg1 & _ & Hw1);
    [intros i Hi; apply Hfull; lia |].
  destruct (fetch_pages_failed (fuel - S n) (0 + n) ([] ++ batches 0 n) s Hfail)
    as (w & Hlast).
  eexists. rewrite Hrun, Hlast. unfold prepend. cbn [fst snd].
  split; [reflexivity |].
  rewrite gets_app, Hg1, List.filter_app, Hw1. unfold page_gets.
  by rewrite seq_S, List.map_app.
Qed.

Lemma batches_full_length (n : nat) :
  (∀ i, (i < n)%nat → full_page i) → Z.of_nat n * limit ≤ Z.of_nat (length (batches 0 n)).
Proof.
  induction n as [| n IH]; intros Hfull; [cbn; lia |].
  replace (S n) with (n + 1)%nat at 2 by lia.
  rewrite (batches_app 0 n 1), length_app, batches_one.
  destruct (Hfull n) as (batch & Hb & Hlen); [lia |]. cbn [Nat.add]. rewrite Hb.
  cbn [default from_option id].
  specialize (IH ltac:(intros; apply Hfull; lia)). lia.
Qed.

(** Shape of any run of the loop: the destination is untouched, every
    request goes to [url], and the result extends [items]. *)
Lemma fetch_pages_shape (fuel : nat) :
  ∀ (items : list json) (skip : Z) (s : D) r s' ev,
    fetch_pages elba_get fuel url params item_keys limit items skip s = (r, s', ev) →
    s' = s
    ∧ ∃ n, requested ev = replicate n url
           ∧ (r ≠ NoFuel → (0 < n)%nat)
           ∧ ∀ l, r = Ok l →
                  ∃ more, l = items ++ more ∧ (0 < limit → more = [] → n = 1%nat).
Proof.
  induction fuel as [| fuel IH]; intros items skip s r s' ev.
  - cbn. intros [= <- <- <-]. split; [done |]. exists 0%nat. by repeat split.
  - cbn [fetch_pages]. unfold bind at 1. unfold elba_request.
    destruct (elba_get url _) as [data0 | status |].
    + destruct (extract_batch item_keys _) as [batch |].
      * unfold bind at 1. unfold log, emit.
        destruct (Z.ltb_spec (Z.of_nat (length batch)) limit) as [Hlt | Hge].
        -- cbn. intros [= <- <- <-]. split; [done |]. exists 1%nat.
           repeat split; [lia |]. intros l [= <-]. by exists batch.
        -- destruct (fetch_pages _ fuel _ _ _ _ _ _ s) as [[r1 s1] ev1] eqn:Hrest.
           apply IH in Hrest as (-> & n & Hreq & Hpos & Hres).
           cbn. intros [= <- <- <-]. split; [done |]. exists (S n).
           split; [cbn; by rewrite <- Hreq |]. split; [lia |].
           intros l Hl. destruct (Hres l Hl) as (more & -> & _).
           exists (batch ++ more). split; [by rewrite app_assoc |].
           intros Hlim Hnil. apply app_eq_nil in Hnil as [-> _]. cbn in Hge. lia.
      * cbn. intros [= <- <- <-]. split; [done |]. exists 1%nat.
        repeat split; [lia |]. intros l [= <-]. exists []. by rewrite app_nil_r.
    + cbn. intros [= <- <- <-]. split; [done |]. exists 1%nat.
      repeat split; [lia |]. intros l [= <-]. exists []. by rewrite app_nil_r.
    + cbn. intros [= <- <- <-]. split; [done |]. exists 1%nat.
      repeat split; [lia |]. intros l [= <-]. exists []. by rewrite app_nil_r.
Qed.

End Pagination.

(** *** A listing served page by page *)

Section PagedListing.

Context {D : Type}.
Variables (items : list json) (url : string) (keys : list string) (L : nat).
Hypothesis L_pos : (0 < L)%nat.

Abbreviation served := (fun _ : string => page_of items).
Abbreviation query := [("limit", Z.of_nat L)].
Abbreviation item_keys := ("items" :: keys).

Lemma page_of_batch (i : nat) :
  page_batch served url query item_keys (Z.of_nat L) i = Some (take L (drop (i * L) items)).
Proof.
  unfold page_batch, page_params, page_of. cbn.
  by rewrite <- Nat2Z.inj_mul, !Nat2Z.id.
Qed.

Lemma batches_paged (m : nat) :
  batches served url query item_keys (Z.of_nat L) 0 m = take (m * L) items.
Proof.
  induction m as [| m IH]; [done |].
  replace (S m) with (m + 1)%nat at 1 by lia.
  rewrite batches_app, IH, batches_one, page_of_batch. cbn [Nat.add default from_option id].
  rewrite take_take_drop. f_equal. lia.
Qed.

Lemma page_lengths_paged (m : nat) :
  page_lengths served url query item_keys (Z.of_nat L) 0 m
  = List.map (fun i => (L `min` (length items - i * L))%nat) (seq 0 m).
Proof.
  unfold page_lengths. apply List.map_ext. intros i.
  rewrite page_of_batch. cbn [default from_option id].
  by rewrite length_take, length_drop.
Qed.

(** The whole listing is fetched with [length items / L + 1] requests. *)
Lemma paged_listing_fetched (fuel : nat) (s : D) :
  let n := (length items / L)%nat in
  (n < fuel)%nat →
  ∃ ev, fetch_all_paginated served fuel url query item_keys s = (Ok items, s, ev)
        ∧ page_trace served url query item_keys (Z.of_nat L) ev 0 (S n).
Proof.
  intros n Hfuel. unfold fetch_all_paginated. cbn [assoc String.eqb Ascii.eqb Bool.eqb default from_option id].
  assert (Hdiv : (n * L ≤ length items < S n * L)%nat).
  { subst n. pose proof (Nat.div_mod_eq (length items) L) as Heq.
    pose proof (Nat.mod_upper_bound (length items) L ltac:(lia)) as Hmod. nia. }
  destruct (fetch_pages_until_short served url query item_keys (Z.of_nat L) n fuel s)
    as (ev & Hrun & Htrace); [done | | |].
  - intros i Hi. exists (take L (drop (i * L) items)). split; [apply page_of_batch |].
    rewrite length_take, length_drop. nia.
  - exists (take L (drop (n * L) items)). split; [apply page_of_batch |].
    rewrite length_take, length_drop. nia.
  - exists ev. split; [| done].
    rewrite batches_paged, take_ge in Hrun by lia. exact Hrun.
Qed.

End PagedListing.

Lemma page_params_skip (params : list (string * Z)) (limit : Z) (i : nat) :
  assoc (page_params params limit i) "skip" = Some (Z.of_nat i * limit)
  ∧ assoc (page_params params limit i) "limit" = Some limit.
Proof.
  unfold page_params. split; [| apply assoc_set_eq].
  rewrite assoc_set_ne by done. apply assoc_set_eq.
Qed.

Lemma offsets_page_gets (url : string) (params : list (string * Z)) (limit : Z)
    (ev : list event) (n : nat) :
  gets ev = page_gets url params limit 0 n →
  offsets ev = List.map (fun i => Some (Z.of_nat i * limit)) (seq 0 n)
  ∧ requested ev = replicate n url.
Proof.
  intros Hg. unfold offsets, requested. rewrite Hg. unfold page_gets.
  rewrite List.map_map. split.
  - apply List.map_ext. intros i. apply page_params_skip.
  - clear Hg. generalize 0%nat. induction n as [| n IH]; intros k; [done |].
    cbn. f_equal. apply IH.
Qed.

(** Pages the loop can read, that is JSON objects: page requests carry the
    offsets 0, limit, 2*limit, ...; when pages [0..n-1] are full and page [n]
    returns fewer items than the page size, the loop stops after page [n]
    (given fuel for [n+1] requests) and returns the concatenation of the
    pages received.  A listing of exactly 250 items served under ["items"]
    with page size 100 takes 3 requests, which return 100, 100 and 50
    items. *)
Theorem pagination_stops_after_short_page :
  (∀ (D : Type) (elba_get : string -> list (string * Z) -> response)
     (url : string) (params : list (string * Z)) (item_keys : list string)
     (n fuel : nat) (s : D),
     let limit := default 100 (assoc params "limit") in
     (n < fuel)%nat →
     (∀ i, (i < n)%nat → full_page elba_get url params item_keys limit i) →
     short_page elba_get url params item_keys limit n →
     let run := fetch_all_paginated elba_get fuel url params item_keys s in
     run.1.1 = Ok (batches elba_get url params item_keys limit 0 (S n))
     ∧ requested run.2 = replicate (S n) url
     ∧ offsets run.2 = List.map (fun i => Some (Z.of_nat i * limit)) (seq 0 (S n)))
  ∧ (∀ (D : Type) (items : list json) (url : string) (fuel : nat) (s : D),
       length items = 250%nat → (3 ≤ fuel)%nat →
       let run := fetch_all_paginated (fun _ => page_of items) fuel url
                    [("limit", 100)] ["items"; "counterparties"; "contractors"] s in
       run.1.1 = Ok items
       ∧ offsets run.2 = [Some 0; Some 100; Some 200]
       ∧ page_sizes run.2 = [100; 100; 50]%nat).
Proof.
  split.
  - intros D elba_get url params item_keys n fuel s limit Hfuel Hfull Hshort run.
    destruct (fetch_pages_until_short elba_get url params item_keys limit n fuel s)
      as (ev & Hrun & Hg & _ & _); [done .. |].
    subst run. unfold fetch_all_paginated. fold limit.
    change 0 with (Z.of_nat 0 * limit). rewrite Hrun. cbn [fst snd].
    split; [done |]. by apply offsets_page_gets in Hg as [-> ->].
  - intros D items url fuel s Hlen Hfuel run.
    destruct (paged_listing_fetched (D := D) items url ["counterparties"; "contractors"]
                100 ltac:(lia) fuel s) as (ev & Hrun & Hg & Hs & _).
    { rewrite Hlen. cbn. lia. }
    rewrite page_lengths_paged, Hlen in Hs. rewrite Hlen in Hg.
    apply offsets_page_gets in Hg as [Hoff _].
    subst run. change (Z.of_nat 100) with 100 in *. rewrite Hrun. cbn [fst snd].
    by rewrite Hoff, Hs.
Qed.

Lemma pagination_stops_after_short_page_witness :
  let elba_get := fun _ : string => page_of [JNum 1; JNum 2; JNum 3] in
  let run := fetch_all_paginated elba_get 2 "u" [("limit", 2)] ["items"] crm_empty in
  run.1.1 = Ok (batches elba_get "u" [("limit", 2)] ["items"] 2 0 2)
  ∧ requested run.2 = replicate 2 "u"
  ∧ offsets run.2 = [Some 0; Some 2].
Proof.
  apply (proj1 pagination_stops_after_short_page crm
           (fun _ => page_of [JNum 1; JNum 2; JNum 3]) "u" [("limit", 2)] ["items"] 1%nat 2%nat).
  - lia.
  - intros [| i] Hi; [| lia]. exists [JNum 1; JNum 2]. split; [reflexivity | cbn; lia].
  - exists [JNum 3]. split; [reflexivity | cbn; lia].
Defined.

(** ** Endpoint probing *)

Section Probing.

Context {D : Type}.
Variable elba_get : string -> list (string * Z) -> response.

(** A listing fetch with page size 100 leaves the destination alone, asks
    only its own URL, and asked exactly once when it comes back empty. *)
Lemma fetch_listing_shape (fuel : nat) (url : string) (keys : list string) (s : D)
    r s' ev :
  fetch_all_paginated elba_get fuel url [("limit", 100)] keys s = (r, s', ev) →
  s' = s
  ∧ ∃ n, requested ev = replicate n url
         ∧ (r ≠ NoFuel → (0 < n)%nat)
         ∧ (r = Ok [] → n = 1%nat).
Proof.
  intros Hrun. apply fetch_pages_shape in Hrun as (-> & n & Hreq & Hpos & Hres).
  split; [done |]. exists n. repeat split; [done .. |].
  intros Hr. destruct (Hres [] Hr) as (more & Hmore & Hone).
  apply Hone; [done |]. by destruct more.
Qed.

Lemma probe_counterparties_miss (fuel : nat) (endpoint : string) (rest : list string)
    (s : D) ev :
  fetch_all_paginated elba_get fuel endpoint [("limit", 100)]
    ["items"; "counterparties"; "contractors"] s = (Ok [], s, ev) →
  probe_counterparties elba_get fuel (endpoint :: rest) s
  = prepend (ev ++ [ELog LInfo (MsgEndpointEmpty endpoint)])
      (probe_counterparties elba_get fuel rest s).
Proof.
  intros Hrun. cbn [probe_counterparties]. unfold bind at 1. rewrite Hrun.
  unfold bind at 1. unfold log, emit.
  destruct (probe_counterparties elba_get fuel rest s) as [[r s'] ev'].
  unfold prepend. cbn. by rewrite <- app_assoc.
Qed.

Lemma probe_counterparties_hit (fuel : nat) (endpoint : string) (rest : list string)
    (s : D) (items : list json) ev :
  items ≠ [] →
  fetch_all_paginated elba_get fuel endpoint [("limit", 100)]
    ["items"; "counterparties"; "contractors"] s = (Ok items, s, ev) →
  probe_counterparties elba_get fuel (endpoint :: rest) s
  = (Ok items, s, ev ++ [ELog LInfo (MsgCounterpartiesFrom endpoint (length items))]).
Proof.
  intros Hne Hrun. cbn [probe_counterparties]. unfold bind at 1. rewrite Hrun.
  by destruct items.
Qed.

Lemma probe_contacts_miss (fuel : nat) (endpoint : string) (rest : list string)
    (s : D) ev :
  fetch_all_paginated elba_get fuel endpoint [("limit", 100)] ["items"; "contacts"] s
  = (Ok [], s, ev) →
  probe_contacts elba_get fuel (endpoint :: rest) s
  = prepend ev (probe_contacts elba_get fuel rest s).
Proof.
  intros Hrun. cbn [probe_contacts]. unfold bind at 1. rewrite Hrun.
  by destruct (probe_contacts elba_get fuel rest s) as [[r s'] ev'].
Qed.

Lemma probe_contacts_hit (fuel : nat) (endpoint : string) (rest : list string)
    (s : D) (items : list json) ev :
  items ≠ [] →
  fetch_all_paginated elba_get fuel endpoint [("limit", 100)] ["items"; "contacts"] s
  = (Ok items, s, ev) →
  probe_contacts elba_get fuel (endpoint :: rest) s = (Ok items, s, ev ++ []).
Proof.
  intros Hne Hrun. cbn [probe_contacts]. unfold bind at 1. rewrite Hrun.
  by destruct items.
Qed.

End Probing.

Lemma requested_log (ev : list event) (lv : level) (msg : log_msg) :
  requested (ev ++ [ELog lv msg]) = requested ev.
Proof. rewrite requested_app. cbn. apply app_nil_r. Qed.

Lemma append_inj_l (a b c : string) : a +:+ b = a +:+ c → b = c.
Proof. induction a as [| x a IH]; cbn; [done |]. intros [= H]. by apply IH. Qed.

(** Two URLs that part after a common prefix are different. *)
Ltac url_neq :=
  let H := fresh in
  intros H; cbn in H; simplify_eq;
  try (apply append_inj_l in H; cbn in H; simplify_eq).

Lemma counterparty_endpoints_distinct (org : json) :
  NoDup (counterparty_endpoints org).
Proof.
  unfold counterparty_endpoints.
  repeat (apply NoDup_cons_2;
          [rewrite ?elem_of_cons, elem_of_nil;
           intros H; repeat destruct H as [H | H]; try done; revert H; url_neq |]).
  apply NoDup_nil_2.
Qed.

Lemma contact_endpoints_distinct (org : json) (cp_id : string) :
  NoDup (contact_endpoints org cp_id).
Proof.
  unfold contact_endpoints.
  repeat (apply NoDup_cons_2;
          [rewrite ?elem_of_cons, elem_of_nil;
           intros H; repeat destruct H as [H | H]; try done; revert H; url_neq |]).
  apply NoDup_nil_2.
Qed.

Section ProbingOrder.

Context {D : Type}.
Variable elba_get : string -> list (string * Z) -> response.

Lemma fetch_outcome_empty (fuel : nat) (url : string) (keys : list string) (s : D) :
  (fetch_all_paginated elba_get fuel url [("limit", 100)] keys s).1.1 = Ok [] →
  ∃ ev, fetch_all_paginated elba_get fuel url [("limit", 100)] keys s = (Ok [], s, ev)
        ∧ requested ev = [url].
Proof.
  destruct (fetch_all_paginated _ _ _ _ _ _) as [[r s'] ev] eqn:Hrun. cbn. intros ->.
  apply fetch_listing_shape in Hrun as (-> & n & Hreq & _ & Hone).
  exists ev. split; [done |]. by rewrite Hreq, Hone.
Qed.

Lemma fetch_outcome_items (fuel : nat) (url : string) (keys : list string) (s : D)
    (items : list json) :
  (fetch_all_paginated elba_get fuel url [("limit", 100)] keys s).1.1 = Ok items →
  ∃ ev n, fetch_all_paginated elba_get fuel url [("limit", 100)] keys s = (Ok items, s, ev)
          ∧ requested ev = replicate (S n) url.
Proof.
  destruct (fetch_all_paginated _ _ _ _ _ _) as [[r s'] ev] eqn:Hrun. cbn. intros ->.
  apply fetch_listing_shape in Hrun as (-> & n & Hreq & Hpos & _).
  destruct n as [| n]; [by specialize (Hpos ltac:(done)); lia |].
  by exists ev, n.
Qed.

Lemma fourth_not_requested (e1 e2 e3 e4 : string) (n : nat) :
  NoDup [e1; e2; e3; e4] → e4 ∉ e1 :: e2 :: replicate n e3.
Proof.
  intros Hnd. apply NoDup_cons in Hnd as [H1 Hnd]. apply NoDup_cons in Hnd as [H2 Hnd].
  apply NoDup_cons in Hnd as [H3 _].
  rewrite !elem_of_cons, elem_of_replicate.
  intros [Heq | [Heq | [Heq _]]]; subst; [apply H1 | apply H2 | apply H3];
    repeat first [apply list_elem_of_here | apply list_elem_of_further].
Qed.

End ProbingOrder.

(** When the pagination of the first two of the four candidate endpoints
    comes back empty and that of the third with at least one item, the
    listing requests the first, then the second, then the third and nothing
    else (the fourth is never requested), and returns the items of the
    third.  This holds for the counterparty listing and for the contact
    listing. *)
Theorem probing_first_success_wins :
  (∀ (D : Type) (elba_get : string -> list (string * Z) -> response) (fuel : nat)
     (org : json) (s : D) (items : list json) (e1 e2 e3 e4 : string),
     counterparty_endpoints org = [e1; e2; e3; e4] →
     let fetch := fun e => fetch_all_paginated elba_get fuel e [("limit", 100)]
                             ["items"; "counterparties"; "contractors"] s in
     (fetch e1).1.1 = Ok [] → (fetch e2).1.1 = Ok [] →
     (fetch e3).1.1 = Ok items → items ≠ [] →
     let run := get_elba_counterparties elba_get fuel org s in
     run.1.1 = Ok items
     ∧ (∃ n, requested run.2 = e1 :: e2 :: replicate (S n) e3)
     ∧ e4 ∉ requested run.2)
  ∧ (∀ (D : Type) (elba_get : string -> list (string * Z) -> response) (fuel : nat)
       (org : json) (cp_id : string) (s : D) (items : list json) (e1 e2 e3 e4 : string),
       contact_endpoints org cp_id = [e1; e2; e3; e4] →
       let fetch := fun e => fetch_all_paginated elba_get fuel e [("limit", 100)]
                               ["items"; "contacts"] s in
       (fetch e1).1.1 = Ok [] → (fetch e2).1.1 = Ok [] →
       (fetch e3).1.1 = Ok items → items ≠ [] →
       let run := get_elba_contacts_for_counterparty elba_get fuel org cp_id s in
       run.1.1 = Ok items
       ∧ (∃ n, requested run.2 = e1 :: e2 :: replicate (S n) e3)
       ∧ e4 ∉ requested run.2).
Proof.
  split.
  - intros D elba_get fuel org s items e1 e2 e3 e4 Hc fetch H1 H2 H3 Hne run.
    pose proof (counterparty_endpoints_distinct org) as Hnd. rewrite Hc in Hnd.
    apply fetch_outcome_empty in H1 as (ev1 & H1 & Hr1).
    apply fetch_outcome_empty in H2 as (ev2 & H2 & Hr2).
    apply fetch_outcome_items in H3 as (ev3 & n & H3 & Hr3).
    subst run. unfold get_elba_counterparties. rewrite Hc.
    rewrite (probe_counterparties_miss _ _ _ _ _ _ H1).
    rewrite (probe_counterparties_miss _ _ _ _ _ _ H2).
    rewrite (probe_counterparties_hit _ _ _ _ _ _ _ Hne H3).
    unfold prepend. cbn [fst snd].
    match goal with
    | |- _ ∧ _ ∧ _ ∉ requested ?ev =>
        assert (requested ev = e1 :: e2 :: replicate (S n) e3) as Hreq
          by (rewrite !requested_app, Hr1, Hr2, Hr3; cbn; by rewrite ?app_nil_r)
    end.
    split; [done |]. split; [by exists n |].
    rewrite Hreq. by apply fourth_not_requested.
  - intros D elba_get fuel org cp_id s items e1 e2 e3 e4 Hc fetch H1 H2 H3 Hne run.
    pose proof (contact_endpoints_distinct org cp_id) as Hnd. rewrite Hc in Hnd.
    apply fetch_outcome_empty in H1 as (ev1 & H1 & Hr1).
    apply fetch_outcome_empty in H2 as (ev2 & H2 & Hr2).
    apply fetch_outcome_items in H3 as (ev3 & n & H3 & Hr3).
    subst run. unfold get_elba_contacts_for_counterparty. rewrite Hc.
    rewrite (probe_contacts_miss _ _ _ _ _ _ H1).
    rewrite (probe_contacts_miss _ _ _ _ _ _ H2).
    rewrite (probe_contacts_hit _ _ _ _ _ _ _ Hne H3).
    unfold prepend. cbn [fst snd].
    match goal with
    | |- _ ∧ _ ∧ _ ∉ requested ?ev =>
        assert (requested ev = e1 :: e2 :: replicate (S n) e3) as Hreq
          by (rewrite !requested_app, Hr1, Hr2, Hr3; cbn; by rewrite ?app_nil_r)
    end.
    split; [done |]. split; [by exists n |].
    rewrite Hreq. by apply fourth_not_requested.
Qed.

Lemma probing_first_success_wins_witness :
  let run := get_elba_counterparties third_only_source 1 (JStr "o1") crm_empty in
  run.1.1 = Ok [JObj [("id", JStr "1")]]
  ∧ (∃ n, requested run.2
          = (ELBA_API_BASE +:+ "/organizations/o1/counterparties")
            :: (ELBA_API_BASE +:+ "/organizations/o1/contractors")
            :: replicate (S n) (ELBA_API_BASE +:+ "/counterparties"))
  ∧ (ELBA_API_BASE +:+ "/contractors") ∉ requested run.2.
Proof.
  apply (proj1 probing_first_success_wins crm third_only_source 1%nat (JStr "o1")
           crm_empty [JObj [("id", JStr "1")]]).
  - reflexivity.
  - reflexivity.
  - reflexivity.
  - reflexivity.
  - discriminate.
Defined.

(** ** Read failures *)

Section ReadFailure.

Context {D : Type}.
Variable elba_get : string -> list (string * Z) -> response.
Variables (endpoint : string) (keys : list string).
Variables (n fuel : nat) (s : D).
Hypothesis enough_fuel : (n < fuel)%nat.
Hypothesis full_before :
  ∀ i, (i < n)%nat → full_page elba_get endpoint [("limit", 100)] keys 100 i.
Hypothesis failure_at : page_batch elba_get endpoint [("limit", 100)] keys 100 n = None.

Abbreviation fetched := (batches elba_get endpoint [("limit", 100)] keys 100 0 n).

(** The fetch asks each of the pages [0..n] once, the failed one last, and
    returns what the full pages delivered. *)
Lemma fetch_after_failure :
  ∃ ev, fetch_all_paginated elba_get fuel endpoint [("limit", 100)] keys s
        = (Ok fetched, s, ev)
        ∧ requested ev = replicate (S n) endpoint
        ∧ offsets ev = List.map (fun i => Some (Z.of_nat i * 100)) (seq 0 (S n))
        ∧ length (List.filter is_warning ev) = 1%nat.
Proof.
  destruct (fetch_pages_until_failure elba_get endpoint [("limit", 100)] keys 100
              n fuel s enough_fuel full_before failure_at) as (ev & Hrun & Hg & Hw).
  exists ev. apply offsets_page_gets in Hg as [Hoff Hreq]. by repeat split.
Qed.

Lemma fetched_nonempty : (0 < n)%nat → fetched ≠ [].
Proof.
  intros Hn Hnil.
  pose proof (batches_full_length elba_get endpoint [("limit", 100)] keys 100 n
                full_before) as Hlen.
  rewrite Hnil in Hlen. cbn in Hlen. lia.
Qed.

End ReadFailure.

(** C5, as amended.  A read failure is not retried: the failing page is
    requested once and ends the pagination of its endpoint.  When the first
    page fails, the endpoint contributes nothing and probing goes on with the
    next candidate; when a later page fails, the full pages already fetched
    are returned as the result of the listing and no further candidate is
    requested. *)
Theorem read_failure_ends_endpoint
    (D : Type) (elba_get : string -> list (string * Z) -> response)
    (endpoint : string) (rest : list string) (n fuel : nat) (s : D) :
  let keys := ["items"; "counterparties"; "contractors"] in
  (n < fuel)%nat →
  (∀ i, (i < n)%nat → full_page elba_get endpoint [("limit", 100)] keys 100 i) →
  page_batch elba_get endpoint [("limit", 100)] keys 100 n = None →
  let fetch := fetch_all_paginated elba_get fuel endpoint [("limit", 100)] keys s in
  let run := probe_counterparties elba_get fuel (endpoint :: rest) s in
  fetch.1.1 = Ok (batches elba_get endpoint [("limit", 100)] keys 100 0 n)
  ∧ offsets fetch.2 = List.map (fun i => Some (Z.of_nat i * 100)) (seq 0 (S n))
  ∧ (n = 0%nat →
     ∃ ev, requested ev = [endpoint]
           ∧ run = prepend ev (probe_counterparties elba_get fuel rest s))
  ∧ ((0 < n)%nat →
     run.1.1 = Ok (batches elba_get endpoint [("limit", 100)] keys 100 0 n)
     ∧ batches elba_get endpoint [("limit", 100)] keys 100 0 n ≠ []
     ∧ requested run.2 = replicate (S n) endpoint).
Proof.
  intros keys Hfuel Hfull Hfail fetch run.
  destruct (fetch_after_failure elba_get endpoint keys n fuel s Hfuel Hfull Hfail)
    as (ev & Hrun & Hreq & Hoff & _).
  subst fetch run. rewrite Hrun. cbn [fst snd]. split; [done |]. split; [done |]. split.
  - intros ->. exists (ev ++ [ELog LInfo (MsgEndpointEmpty endpoint)]).
    rewrite requested_log. split; [done |].
    by apply probe_counterparties_miss.
  - intros Hn.
    assert (Hne : batches elba_get endpoint [("limit", 100)] keys 100 0 n ≠ [])
      by (by eapply fetched_nonempty).
    rewrite (probe_counterparties_hit _ _ _ _ _ _ _ Hne Hrun). cbn [fst snd].
    by rewrite requested_log.
Qed.

(** The contact listing treats a read failure in the same way. *)
Lemma read_failure_ends_contact_endpoint
    (D : Type) (elba_get : string -> list (string * Z) -> response)
    (endpoint : string) (rest : list string) (n fuel : nat) (s : D) :
  let keys := ["items"; "contacts"] in
  (n < fuel)%nat →
  (∀ i, (i < n)%nat → full_page elba_get endpoint [("limit", 100)] keys 100 i) →
  page_batch elba_get endpoint [("limit", 100)] keys 100 n = None →
  let run := probe_contacts elba_get fuel (endpoint :: rest) s in
  (n = 0%nat →
   ∃ ev, requested ev = [endpoint]
         ∧ run = prepend ev (probe_contacts elba_get fuel rest s))
  ∧ ((0 < n)%nat →
     run.1.1 = Ok (batches elba_get endpoint [("limit", 100)] keys 100 0 n)
     ∧ requested run.2 = replicate (S n) endpoint).
Proof.
  intros keys Hfuel Hfull Hfail run.
  destruct (fetch_after_failure elba_get endpoint keys n fuel s Hfuel Hfull Hfail)
    as (ev & Hrun & Hreq & Hoff & _).
  subst run. split.
  - intros ->. exists ev. split; [done |]. by apply probe_contacts_miss.
  - intros Hn.
    assert (Hne : batches elba_get endpoint [("limit", 100)] keys 100 0 n ≠ [])
      by (by eapply fetched_nonempty).
    rewrite (probe_contacts_hit _ _ _ _ _ _ _ Hne Hrun). cbn [fst snd].
    by rewrite app_nil_r.
Qed.

Lemma read_failure_ends_endpoint_witness :
  let keys := ["items"; "counterparties"; "contractors"] in
  let e1 := ELBA_API_BASE +:+ "/organizations/o1/counterparties" in
  let rest := [ELBA_API_BASE +:+ "/organizations/o1/contractors"] in
  let fetch := fetch_all_paginated flaky_source 2 e1 [("limit", 100)] keys crm_empty in
  let run := probe_counterparties flaky_source 2 (e1 :: rest) crm_empty in
  fetch.1.1 = Ok (batches flaky_source e1 [("limit", 100)] keys 100 0 1)
  ∧ offsets fetch.2 = List.map (fun i => Some (Z.of_nat i * 100)) (seq 0 2)
  ∧ (1%nat = 0%nat →
     ∃ ev, requested ev = [e1]
           ∧ run = prepend ev (probe_counterparties flaky_source 2 rest crm_empty))
  ∧ ((0 < 1)%nat →
     run.1.1 = Ok (batches flaky_source e1 [("limit", 100)] keys 100 0 1)
     ∧ batches flaky_source e1 [("limit", 100)] keys 100 0 1 ≠ []
     ∧ requested run.2 = replicate 2 e1).
Proof.
  apply (read_failure_ends_endpoint crm flaky_source
           (ELBA_API_BASE +:+ "/organizations/o1/counterparties")
           [ELBA_API_BASE +:+ "/organizations/o1/contractors"] 1%nat 2%nat crm_empty).
  - lia.
  - intros [| i] Hi; [| lia]. exists (replicate 100 flaky_item).
    split; [reflexivity | cbn; lia].
  - reflexivity.
Defined.

(** C5, the sentence as written fails: the first endpoint meets an HTTP error on
    its second page, yet its 100 items are the accepted result of the listing
    and the second endpoint, which has data, is never requested. *)
Lemma failed_endpoint_still_feeds_listing :
  let e1 := ELBA_API_BASE +:+ "/organizations/o1/counterparties" in
  let run := get_elba_counterparties flaky_source 2 (JStr "o1") crm_empty in
  List.filter is_warning run.2 = [ELog LWarning (MsgPaginationHttp e1 500)]
  ∧ run.1.1 = Ok (replicate 100 flaky_item)
  ∧ requested run.2 = [e1; e1].
Proof. by vm_compute. Qed.

(** ** Computations that keep an invariant *)

Section Calm.

Context {D : Type}.
Variable bitrix_post : string -> json -> D -> reply * D.
Variable elba_get : string -> list (string * Z) -> response.

Lemma bind_run {A B} (m : M A) (k : A -> M B) (s : D) :
  bind m k s
  = match m s with
    | (Ok a, s1, ev1) => prepend ev1 (k a s1)
    | (Raise e, s1, ev1) => (Raise e, s1, ev1)
    | (NoFuel, s1, ev1) => (NoFuel, s1, ev1)
    end.
Proof.
  unfold bind. destruct (m s) as [[[a | e |] s1] ev1]; [| done ..].
  by destruct (k a s1) as [[r s2] ev2].
Qed.

Lemma bind_lift {A B} (x : exn + A) (k : A -> M B) (s : D) :
  bind (lift x) k s
  = match x with inl e => (Raise e, s, []) | inr a => k a s end.
Proof. rewrite bind_run. destruct x as [e | a]; [done |]. apply prepend_nil. Qed.

(** Every event of [bitrix_call] is a POST of its own method and body. *)
Lemma bitrix_call_events (method : string) (params : json) (s : D) :
  Forall (fun e => ∃ r, e = EPost method (py_or params (JObj [])) r)
    (bitrix_call bitrix_post method params s).2.
Proof.
  unfold bitrix_call. generalize 3%nat. intros n. revert s.
  induction n as [| n IH]; intros s; [constructor |].
  cbn [bitrix_retry]. rewrite bind_run. unfold bitrix_attempt at 1.
  destruct (bitrix_post method _ s) as [[data |] s1].
  - destruct (bitrix_result data); cbn; repeat constructor; by eexists.
  - specialize (IH s1). destruct (bitrix_retry _ n method params s1) as [[r s2] ev2].
    cbn in *. constructor; [by eexists | done].
Qed.

(** A successful [bitrix_call] ends with the POST whose body it decoded. *)
Lemma bitrix_call_ok (method : string) (params : json) (s : D) v s' ev :
  bitrix_call bitrix_post method params s = (Ok v, s', ev) →
  ∃ s0 data,
    bitrix_post method (py_or params (JObj [])) s0 = (ReplyJson data, s')
    ∧ bitrix_result data = inr v
    ∧ EPost method (py_or params (JObj [])) (ReplyJson data) ∈ ev.
Proof.
  unfold bitrix_call. generalize 3%nat. intros n. revert s ev.
  induction n as [| n IH]; intros s ev; [done |].
  cbn [bitrix_retry]. rewrite bind_run. unfold bitrix_attempt at 1.
  destruct (bitrix_post method _ s) as [[data |] s1] eqn:Hpost.
  - destruct (bitrix_result data) as [e | v'] eqn:Hres; [done |].
    cbn. intros [= <- <- <-]. exists s, data. repeat split; [done .. |].
    apply list_elem_of_here.
  - destruct (bitrix_retry _ n method params s1) as [[r s2] ev2] eqn:Hrest.
    cbn. intros [= -> -> <-].
    destruct (IH _ _ Hrest) as (s0 & data & ? & ? & ?).
    exists s0, data. repeat split; [done .. |]. by apply list_elem_of_further.
Qed.

(** When the first attempt is answered, it decides the call. *)
Lemma bitrix_call_answered (method : string) (params : json) (s : D) data s' :
  bitrix_post method (py_or params (JObj [])) s = (ReplyJson data, s') →
  bitrix_call bitrix_post method params s
  = (match bitrix_result data with inl e => Raise e | inr v => Ok v end, s',
     [EPost method (py_or params (JObj [])) (ReplyJson data)]).
Proof.
  intros Hpost. unfold bitrix_call. cbn [bitrix_retry]. rewrite bind_run.
  unfold bitrix_attempt. rewrite Hpost. by destruct (bitrix_result data).
Qed.

(** [P] holds of every event and [R] relates the destination before and
    after; POSTs are covered for the [allowed] methods only. *)
Variable P : event -> Prop.
Variable R : D -> D -> Prop.
Variable allowed : string -> Prop.

Abbreviation calm := (calm P R).
Abbreviation calm_rules := (calm_rules bitrix_post P R allowed).

Hypothesis rules : calm_rules.

Lemma calm_ret {A} (a : A) : calm (ret a).
Proof. intros s. split; [constructor | apply rules]. Qed.

Lemma calm_throw {A} (e : exn) : calm (throw (A := A) e).
Proof. intros s. split; [constructor | apply rules]. Qed.

Lemma calm_out_of_fuel {A} : calm (out_of_fuel (A := A)).
Proof. intros s. split; [constructor | apply rules]. Qed.

Lemma calm_log (lv : level) (msg : log_msg) : calm (log lv msg).
Proof. intros s. split; [repeat constructor | ]; apply rules. Qed.

Lemma calm_lift {A} (x : exn + A) : calm (lift x).
Proof. destruct x; [apply calm_throw | apply calm_ret]. Qed.

Lemma calm_bind {A B} (m : M A) (k : A -> M B) :
  calm m → (∀ a, calm (k a)) → calm (bind m k).
Proof.
  intros Hm Hk s. rewrite bind_run. destruct (Hm s) as [Hev Hst].
  destruct (m s) as [[[a | e |] s1] ev1]; [| done ..].
  destruct (Hk a s1) as [Hev' Hst']. cbn in *. split.
  - apply Forall_app. by split.
  - by eapply (calm_trans rules).
Qed.

Lemma calm_try_except {A} (m : M A) (h : exn -> M A) :
  calm m → (∀ e, calm (h e)) → calm (try_except m h).
Proof.
  intros Hm Hh s. unfold try_except. destruct (Hm s) as [Hev Hst].
  destruct (m s) as [[[a | e |] s1] ev1]; [done | | done].
  destruct (Hh e s1) as [Hev' Hst']. destruct (h e s1) as [[r s2] ev2].
  cbn in *. split.
  - apply Forall_app. by split.
  - by eapply (calm_trans rules).
Qed.

Lemma calm_elba_request (url : string) (params : list (string * Z)) :
  calm (elba_request elba_get url params).
Proof. intros s. split; [repeat constructor |]; apply rules. Qed.

Lemma calm_bitrix_call (method : string) (params : json) :
  allowed method → calm (bitrix_call bitrix_post method params).
Proof.
  intros Hm. unfold bitrix_call. generalize 3%nat. intros n.
  induction n as [| n IH]; [apply calm_throw |].
  cbn [bitrix_retry]. apply calm_bind.
  - intros s. unfold bitrix_attempt.
    destruct (calm_on_post rules method (py_or params (JObj [])) s Hm) as [Hev Hst].
    destruct (bitrix_post method _ s) as [[data |] s1]; cbn in *.
    + by destruct (bitrix_result data); cbn; repeat constructor.
    + by repeat constructor.
  - intros [v |]; [apply calm_ret | apply IH].
Qed.

Lemma calm_fetch_pages (fuel : nat) (url : string) (params : list (string * Z))
    (item_keys : list string) (limit : Z) :
  ∀ items skip, calm (fetch_pages elba_get fuel url params item_keys limit items skip).
Proof.
  induction fuel as [| fuel IH]; intros items skip; [apply calm_out_of_fuel |].
  cbn [fetch_pages]. apply calm_bind; [apply calm_elba_request |].
  intros [data0 | status |].
  - destruct (extract_batch _ _) as [batch |].
    + apply calm_bind; [apply calm_log |]. intros _.
      destruct (_ <? _); [apply calm_ret | apply IH].
    + apply calm_bind; [apply calm_log | intros _; apply calm_ret].
  - apply calm_bind; [apply calm_log | intros _; apply calm_ret].
  - apply calm_bind; [apply calm_log | intros _; apply calm_ret].
Qed.

Lemma calm_probe_counterparties (fuel : nat) (candidates : list string) :
  calm (probe_counterparties elba_get fuel candidates).
Proof.
  induction candidates as [| endpoint rest IH]; cbn [probe_counterparties].
  - apply calm_bind; [apply calm_log | intros _; apply calm_ret].
  - apply calm_bind; [apply calm_fetch_pages |]. intros [| item items].
    + by apply calm_bind; [apply calm_log |].
    + apply calm_bind; [apply calm_log | intros _; apply calm_ret].
Qed.

Lemma calm_probe_contacts (fuel : nat) (candidates : list string) :
  calm (probe_contacts elba_get fuel candidates).
Proof.
  induction candidates as [| url rest IH]; cbn [probe_contacts]; [apply calm_ret |].
  apply calm_bind; [apply calm_fetch_pages |].
  intros [| item items]; [done | apply calm_ret].
Qed.

Lemma calm_find_in_groups (method : string) (groups : list (list string)) :
  allowed method →
  ∀ result, calm (find_in_groups bitrix_post method groups result).
Proof.
  intros Hm. induction groups as [| group groups IH]; intros result;
    cbn [find_in_groups]; [apply calm_ret |].
  apply calm_bind; [by apply calm_bitrix_call |]. intros res.
  apply calm_bind; [apply calm_lift |]. intros rows.
  apply calm_bind; [apply calm_lift |]. intros result'. apply IH.
Qed.

Lemma calm_find_existing (entity_type : string) (elba_ids : list string) :
  allowed ("crm." +:+ entity_type +:+ ".list") →
  calm (find_existing_by_elba_ids bitrix_post entity_type elba_ids).
Proof.
  intros Hm. unfold find_existing_by_elba_ids.
  destruct elba_ids as [| x l]; [apply calm_ret |].
  cbn [chunked]. by apply calm_find_in_groups.
Qed.

Lemma calm_ensure_userfield (entity_type field_name label : string) :
  allowed ("crm." +:+ entity_type +:+ ".userfield.list") →
  allowed ("crm." +:+ entity_type +:+ ".userfield.add") →
  calm (ensure_userfield bitrix_post entity_type field_name label).
Proof.
  intros Hlist Hadd. unfold ensure_userfield, create_bitrix_userfield.
  apply calm_bind; [by apply calm_bitrix_call |]. intros res.
  apply calm_bind; [apply calm_lift |]. intros fields.
  apply calm_bind; [apply calm_lift |]. intros [|]; [apply calm_ret |].
  apply calm_bind; [by apply calm_bitrix_call | intros uf; apply calm_log].
Qed.

Lemma calm_ensure_userfields :
  allowed "crm.contact.userfield.list" → allowed "crm.contact.userfield.add" →
  allowed "crm.company.userfield.list" → allowed "crm.company.userfield.add" →
  calm (ensure_userfields bitrix_post).
Proof.
  intros H1 H2 H3 H4. unfold ensure_userfields.
  apply calm_try_except;
    [| intros e; apply calm_bind; [apply calm_log | intros _; apply calm_throw]].
  apply calm_bind; [by apply calm_ensure_userfield |]. intros _.
  apply calm_bind; [by apply calm_ensure_userfield |]. intros _.
  by apply calm_ensure_userfield.
Qed.

Lemma calm_get_organization_id : calm (get_organization_id elba_get).
Proof.
  unfold get_organization_id.
  apply calm_try_except;
    [| intros e; apply calm_bind; [apply calm_log | intros _; apply calm_throw]].
  apply calm_bind; [apply calm_elba_request |].
  intros [data0 | status |]; [| apply calm_throw ..].
  destruct (py_or data0 _); try apply calm_throw.
  destruct (negb _); [apply calm_throw |].
  repeat (match goal with
          | |- calm (match ?x with _ => _ end) => destruct x
          end; try apply calm_throw; try apply calm_ret).
Qed.

Lemma calm_sync_persons (cp : json) (cp_id company_id : string)
    (existing : gmap string string) (persons : list json) :
  allowed "crm.contact.add" →
  calm (sync_persons bitrix_post persons cp cp_id company_id existing).
Proof.
  intros Hadd. induction persons as [| person rest IH]; cbn [sync_persons];
    [apply calm_ret |].
  destruct person; try apply calm_throw.
  destruct (String.eqb _ ""); [done |].
  destruct (existing !! _); [by apply calm_bind; [apply calm_log |] |].
  apply calm_bind; [apply calm_lift |]. intros fields.
  apply calm_bind.
  { apply calm_bind; [by apply calm_bitrix_call | intros r; apply calm_ret]. }
  intros cid. by apply calm_bind; [apply calm_log |].
Qed.

Lemma calm_sync_contacts (fuel : nat) (org : json) (c : list (string * json))
    (cp_id company_id : string) :
  allowed "crm.contact.list" → allowed "crm.contact.add" →
  calm (sync_contacts bitrix_post elba_get fuel org c cp_id company_id).
Proof.
  intros Hlist Hadd. unfold sync_contacts. apply calm_bind.
  { destruct (inline_persons _ _); [apply calm_probe_contacts | apply calm_ret]. }
  intros [| person persons]; [apply calm_ret |].
  apply calm_bind; [apply calm_lift |]. intros ids.
  apply calm_bind; [by apply calm_find_existing |]. intros existing.
  by apply calm_sync_persons.
Qed.

End Calm.

(** ** Listings served as bare arrays *)

Lemma fetch_bare_array {D} (elba_get : string -> list (string * Z) -> response)
    (fuel : nat) (url : string) (key : string) (keys : list string)
    (item : json) (items : list json) (s : D) :
  elba_get url (page_params [("limit", 100)] 100 0) = RespJson (JList (item :: items)) →
  fetch_all_paginated elba_get (S fuel) url [("limit", 100)] (key :: keys) s
  = (Ok [], s, [EGet url (page_params [("limit", 100)] 100 0);
                ELog LWarning (MsgPaginationError url AttributeError)]).
Proof.
  intros Hget. unfold fetch_all_paginated. cbn [fetch_pages]. rewrite bind_run.
  unfold elba_request.
  change (assoc_set (assoc_set [("limit", 100)] "skip" 0) "limit"
            (default 100 (assoc [("limit", 100)] "limit")))
    with (page_params [("limit", 100)] 100 0).
  by rewrite Hget.
Qed.

Lemma fetch_not_found {D} (elba_get : string -> list (string * Z) -> response)
    (fuel : nat) (url : string) (keys : list string) (s : D) :
  elba_get url (page_params [("limit", 100)] 100 0) = RespHttpError 404 →
  fetch_all_paginated elba_get (S fuel) url [("limit", 100)] keys s
  = (Ok [], s, [EGet url (page_params [("limit", 100)] 100 0);
                ELog LWarning (MsgPaginationHttp url 404)]).
Proof.
  intros Hget. unfold fetch_all_paginated. cbn [fetch_pages]. rewrite bind_run.
  unfold elba_request.
  change (assoc_set (assoc_set [("limit", 100)] "skip" 0) "limit"
            (default 100 (assoc [("limit", 100)] "limit")))
    with (page_params [("limit", 100)] 100 0).
  by rewrite Hget.
Qed.

Lemma fetch_single_item {D} (elba_get : string -> list (string * Z) -> response)
    (fuel : nat) (url : string) (keys : list string) (item : json) (s : D) :
  elba_get url (page_params [("limit", 100)] 100 0)
  = RespJson (JObj [("items", JList [item])]) →
  fetch_all_paginated elba_get (S fuel) url [("limit", 100)] ("items" :: keys) s
  = (Ok [item], s, [EGet url (page_params [("limit", 100)] 100 0);
                    ELog LDebug (MsgPage url 1 1)]).
Proof.
  intros Hget. unfold fetch_all_paginated. cbn [fetch_pages]. rewrite bind_run.
  unfold elba_request.
  change (assoc_set (assoc_set [("limit", 100)] "skip" 0) "limit"
            (default 100 (assoc [("limit", 100)] "limit")))
    with (page_params [("limit", 100)] 100 0).
  by rewrite Hget.
Qed.

Lemma only_endpoint_hit (endpoint : string) (body : json) (params : list (string * Z)) :
  only_endpoint endpoint body endpoint params = RespJson body.
Proof. unfold only_endpoint. by rewrite String.eqb_refl. Qed.

Lemma only_endpoint_miss (endpoint url : string) (body : json) (params : list (string * Z)) :
  url ≠ endpoint → only_endpoint endpoint body url params = RespHttpError 404.
Proof. intros Hne. unfold only_endpoint. by apply String.eqb_neq in Hne as ->. Qed.

Lemma third_of_four {A} (e1 e2 e3 e4 : A) :
  NoDup [e1; e2; e3; e4] → e1 ≠ e3 ∧ e2 ≠ e3 ∧ e4 ≠ e3.
Proof.
  intros Hnd. apply NoDup_cons in Hnd as [H1 Hnd]. apply NoDup_cons in Hnd as [H2 Hnd].
  apply NoDup_cons in Hnd as [H3 _]. set_solver.
Qed.

(** C8. A listing of 250 items served in pages of 100 under the key
    ["items"] is fetched page by page: three requests with the offsets
    0, 100 and 200, which return 100, 100 and 50 items, and the whole listing
    as the result.  The same listing served as bare JSON arrays is not: the
    first page is requested, looking up the first key in the array fails, a
    warning is logged and the loop ends with no item at all.  This second
    outcome is what every non-empty bare array gets when there are keys to
    try. *)
Theorem bare_array_listing_is_lost :
  (∀ (D : Type) (item : json) (items : list json) (url : string) (key : string)
     (keys : list string) (fuel : nat) (s : D),
     fetch_all_paginated (fun _ => array_page_of (item :: items)) (S fuel) url
       [("limit", 100)] (key :: keys) s
     = (Ok [], s, [EGet url [("limit", 100); ("skip", 0)];
                   ELog LWarning (MsgPaginationError url AttributeError)]))
  ∧ (∀ (D : Type) (items : list json) (url : string) (fuel : nat) (s : D),
       length items = 250%nat → (3 ≤ fuel)%nat →
       let fetch := fun served =>
         fetch_all_paginated (fun _ : string => served items) fuel url
           [("limit", 100)] ["items"; "counterparties"; "contractors"] s in
       ((fetch page_of).1.1 = Ok items
        ∧ offsets (fetch page_of).2 = [Some 0; Some 100; Some 200]
        ∧ page_sizes (fetch page_of).2 = [100; 100; 50]%nat)
       ∧ ((fetch array_page_of).1.1 = Ok []
          ∧ offsets (fetch array_page_of).2 = [Some 0]
          ∧ page_sizes (fetch array_page_of).2 = []
          ∧ List.filter is_warning (fetch array_page_of).2
            = [ELog LWarning (MsgPaginationError url AttributeError)])).
Proof.
  split.
  - intros D item items url key keys fuel s.
    by apply (fetch_bare_array _ fuel url key keys item (take 99 items) s).
  - intros D items url fuel s Hlen Hfuel fetch. split.
    + destruct (paged_listing_fetched (D := D) items url ["counterparties"; "contractors"]
                  100 ltac:(lia) fuel s) as (ev & Hrun & Hg & Hs & _).
      { rewrite Hlen. cbn. lia. }
      rewrite page_lengths_paged, Hlen in Hs. rewrite Hlen in Hg.
      apply offsets_page_gets in Hg as [Hoff _].
      subst fetch. change (Z.of_nat 100) with 100 in *. cbn beta. rewrite Hrun.
      cbn [fst snd]. by rewrite Hoff, Hs.
    + destruct items as [| item items]; [done |].
      destruct fuel as [| fuel]; [lia |]. subst fetch. cbn beta.
      by rewrite (fetch_bare_array (fun _ => array_page_of (item :: items)) fuel url
                    "items" ["counterparties"; "contractors"] item (take 99 items) s).
Qed.

Lemma bare_array_listing_is_lost_witness :
  let items := replicate 250 (JObj [("id", JStr "1")]) in
  let fetch := fun served =>
    fetch_all_paginated (fun _ : string => served items) 3 "u"
      [("limit", 100)] ["items"; "counterparties"; "contractors"] crm_empty in
  ((fetch page_of).1.1 = Ok items
   ∧ offsets (fetch page_of).2 = [Some 0; Some 100; Some 200]
   ∧ page_sizes (fetch page_of).2 = [100; 100; 50]%nat)
  ∧ ((fetch array_page_of).1.1 = Ok []
     ∧ offsets (fetch array_page_of).2 = [Some 0]
     ∧ page_sizes (fetch array_page_of).2 = []
     ∧ List.filter is_warning (fetch array_page_of).2
       = [ELog LWarning (MsgPaginationError "u" AttributeError)]).
Proof.
  apply (proj2 bare_array_listing_is_lost crm (replicate 250 (JObj [("id", JStr "1")]))
           "u" 3%nat crm_empty).
  - reflexivity.
  - lia.
Defined.

(** C7. With a source in which only the third candidate endpoint has data,
    a single item: when that endpoint serves the item under the key
    ["items"], the listing requests the first, the second and the third
    candidate, in this order, does not request the fourth and returns the
    item; when it serves a bare JSON array, the items are lost, the fourth
    candidate is requested as well and the listing comes back empty.  This
    holds for the counterparty listing and for the contact listing, for every
    organization and counterparty id. *)
Theorem probing_misses_bare_array :
  ∀ (D : Type) (fuel : nat) (org : json) (cp_id : string) (s : D)
    (item : json) (items : list json),
    let base := ELBA_API_BASE +:+ "/organizations/" +:+ py_str org in
    let cp1 := base +:+ "/counterparties" in
    let cp2 := base +:+ "/contractors" in
    let cp3 := ELBA_API_BASE +:+ "/counterparties" in
    let cp4 := ELBA_API_BASE +:+ "/contractors" in
    let ct1 := base +:+ "/counterparties/" +:+ cp_id +:+ "/contacts" in
    let ct2 := base +:+ "/contractors/" +:+ cp_id +:+ "/contacts" in
    let ct3 := ELBA_API_BASE +:+ "/counterparties/" +:+ cp_id +:+ "/contacts" in
    let ct4 := ELBA_API_BASE +:+ "/contractors/" +:+ cp_id +:+ "/contacts" in
    let keyed := JObj [("items", JList [item])] in
    let bare := JList (item :: items) in
    let counterparties := fun third =>
      get_elba_counterparties (only_endpoint cp3 third) (S fuel) org s in
    let contacts := fun third =>
      get_elba_contacts_for_counterparty (only_endpoint ct3 third) (S fuel) org cp_id s in
    ((counterparties keyed).1.1 = Ok [item]
     ∧ requested (counterparties keyed).2 = [cp1; cp2; cp3])
    ∧ ((counterparties bare).1.1 = Ok []
       ∧ requested (counterparties bare).2 = [cp1; cp2; cp3; cp4])
    ∧ ((contacts keyed).1.1 = Ok [item]
       ∧ requested (contacts keyed).2 = [ct1; ct2; ct3])
    ∧ ((contacts bare).1.1 = Ok []
       ∧ requested (contacts bare).2 = [ct1; ct2; ct3; ct4]).
Proof.
  intros D fuel org cp_id s item items base cp1 cp2 cp3 cp4 ct1 ct2 ct3 ct4 keyed bare
    counterparties contacts.
  destruct (third_of_four cp1 cp2 cp3 cp4 (counterparty_endpoints_distinct org))
    as (Hcp1 & Hcp2 & Hcp4).
  destruct (third_of_four ct1 ct2 ct3 ct4 (contact_endpoints_distinct org cp_id))
    as (Hct1 & Hct2 & Hct4).
  assert (∀ third, counterparties third
            = prepend ([EGet cp1 (page_params [("limit", 100)] 100 0);
                        ELog LWarning (MsgPaginationHttp cp1 404)]
                         ++ [ELog LInfo (MsgEndpointEmpty cp1)])
                (prepend ([EGet cp2 (page_params [("limit", 100)] 100 0);
                           ELog LWarning (MsgPaginationHttp cp2 404)]
                            ++ [ELog LInfo (MsgEndpointEmpty cp2)])
                   (probe_counterparties (only_endpoint cp3 third) (S fuel) [cp3; cp4] s)))
    as Hcps.
  { intros third. subst counterparties. cbn beta.
    unfold get_elba_counterparties, counterparty_endpoints.
    fold base. fold cp1 cp2 cp3 cp4.
    rewrite (probe_counterparties_miss _ _ _ _ _ _
               (fetch_not_found _ fuel cp1 _ s (only_endpoint_miss _ _ _ _ Hcp1))).
    by rewrite (probe_counterparties_miss _ _ _ _ _ _
                  (fetch_not_found _ fuel cp2 _ s (only_endpoint_miss _ _ _ _ Hcp2))). }
  assert (∀ third, contacts third
            = prepend [EGet ct1 (page_params [("limit", 100)] 100 0);
                       ELog LWarning (MsgPaginationHttp ct1 404)]
                (prepend [EGet ct2 (page_params [("limit", 100)] 100 0);
                          ELog LWarning (MsgPaginationHttp ct2 404)]
                   (probe_contacts (only_endpoint ct3 third) (S fuel) [ct3; ct4] s)))
    as Hcts.
  { intros third. subst contacts. cbn beta.
    unfold get_elba_contacts_for_counterparty, contact_endpoints.
    fold base. fold ct1 ct2 ct3 ct4.
    rewrite (probe_contacts_miss _ _ _ _ _ _
               (fetch_not_found _ fuel ct1 _ s (only_endpoint_miss _ _ _ _ Hct1))).
    by rewrite (probe_contacts_miss _ _ _ _ _ _
                  (fetch_not_found _ fuel ct2 _ s (only_endpoint_miss _ _ _ _ Hct2))). }
  rewrite !Hcps, !Hcts. clear Hcps Hcts. subst keyed bare.
  rewrite (probe_counterparties_hit _ _ _ _ _ [item] _ ltac:(done)
             (fetch_single_item _ fuel cp3 _ item s (only_endpoint_hit _ _ _))).
  rewrite (probe_counterparties_miss _ _ _ _ _ _
             (fetch_bare_array _ fuel cp3 _ _ item items s (only_endpoint_hit _ _ _))).
  rewrite (probe_counterparties_miss _ _ _ _ _ _
             (fetch_not_found _ fuel cp4 _ s (only_endpoint_miss _ _ _ _ Hcp4))).
  rewrite (probe_contacts_hit _ _ _ _ _ [item] _ ltac:(done)
             (fetch_single_item _ fuel ct3 _ item s (only_endpoint_hit _ _ _))).
  rewrite (probe_contacts_miss _ _ _ _ _ _
             (fetch_bare_array _ fuel ct3 _ _ item items s (only_endpoint_hit _ _ _))).
  rewrite (probe_contacts_miss _ _ _ _ _ _
             (fetch_not_found _ fuel ct4 _ s (only_endpoint_miss _ _ _ _ Hct4))).
  done.
Qed.

(** ** Companies known from the events *)

Lemma pretty_N_go_nonempty (x : N) (s : string) : s ≠ "" → pretty_N_go x s ≠ "".
Proof.
  revert s. induction (N.lt_wf_0 x) as [x _ IH]; intros s Hs.
  destruct (decide (x = 0%N)) as [-> | Hx]; [by rewrite pretty_N_go_0 |].
  rewrite pretty_N_go_step by lia. apply IH; [| done].
  apply N.div_lt; lia.
Qed.

Lemma pretty_Z_nonempty (z : Z) : pretty z ≠ "".
Proof.
  destruct z as [| x | x]; [done | |].
  - unfold pretty, pretty_Z, pretty, pretty_positive, pretty, pretty_N.
    destruct (decide _); [done |].
    rewrite pretty_N_go_step by lia. by apply pretty_N_go_nonempty.
  - done.
Qed.

(** [str(v)] is empty for the empty string only. *)
Lemma py_str_empty (v : json) : py_str v = "" → v = JStr "".
Proof.
  destruct v as [| [] | z | s | l | d]; cbn; try done.
  - intros H. by destruct (pretty_Z_nonempty z).
  - by intros ->.
Qed.

Lemma company_known_mono (pre more : list event) (key cid : string) :
  company_known pre key cid → company_known (pre ++ more) key cid.
Proof. intros (e & He & H). exists e. split; [| done]. apply elem_of_app. by left. Qed.

Lemma company_known_mono_l (pre more : list event) (key cid : string) :
  company_known more key cid → company_known (pre ++ more) key cid.
Proof. intros (e & He & H). exists e. split; [| done]. apply elem_of_app. by right. Qed.

Section Linkage.

Context {D : Type}.
Variable bitrix_post : string -> json -> D -> reply * D.
Variable elba_get : string -> list (string * Z) -> response.

(** A computation that never asks for the creation of a contact. *)
Abbreviation quiet :=
  (calm (D := D) no_contact_add (fun _ _ => True)).

Lemma quiet_rules :
  calm_rules bitrix_post no_contact_add (fun _ _ => True)
    (fun method => method ≠ "crm.contact.add").
Proof.
  split; try done.
  intros method body s Hne. split; [| done]. by apply String.eqb_neq.
Qed.

Lemma quiet_ret {A} (a : A) : quiet (ret a).
Proof. eapply calm_ret, quiet_rules. Qed.

Lemma quiet_throw {A} (e : exn) : quiet (throw (A := A) e).
Proof. eapply calm_throw, quiet_rules. Qed.

Lemma quiet_log (lv : level) (msg : log_msg) : quiet (log lv msg).
Proof. eapply calm_log, quiet_rules. Qed.

Lemma quiet_lift {A} (x : exn + A) : quiet (lift x).
Proof. eapply calm_lift, quiet_rules. Qed.

Lemma quiet_bind {A B} (m : M A) (k : A -> M B) :
  quiet m → (∀ a, quiet (k a)) → quiet (bind m k).
Proof. eapply calm_bind, quiet_rules. Qed.

Lemma quiet_bitrix_call (method : string) (params : json) :
  method ≠ "crm.contact.add" → quiet (bitrix_call bitrix_post method params).
Proof. intros Hne. by eapply calm_bitrix_call; [apply quiet_rules |]. Qed.

Lemma quiet_probe_counterparties (fuel : nat) (candidates : list string) :
  quiet (probe_counterparties elba_get fuel candidates).
Proof. eapply calm_probe_counterparties, quiet_rules. Qed.

Lemma quiet_probe_contacts (fuel : nat) (candidates : list string) :
  quiet (probe_contacts elba_get fuel candidates).
Proof. eapply calm_probe_contacts, quiet_rules. Qed.

Lemma quiet_get_organization_id : quiet (get_organization_id elba_get).
Proof. eapply calm_get_organization_id, quiet_rules. Qed.

Lemma list_method_not_add (entity_type : string) :
  "crm." +:+ entity_type +:+ ".list" ≠ "crm.contact.add".
Proof.
  cbn. intros [= H]. revert H.
  repeat (destruct entity_type as [| ? entity_type]; cbn; [done |];
          intros [= ? H]; revert H).
Qed.

Lemma quiet_find_existing (entity_type : string) (elba_ids : list string) :
  quiet (find_existing_by_elba_ids bitrix_post entity_type elba_ids).
Proof. eapply calm_find_existing; [apply quiet_rules | apply list_method_not_add]. Qed.

Lemma quiet_ensure_userfields : quiet (ensure_userfields bitrix_post).
Proof. by eapply calm_ensure_userfields; [apply quiet_rules | ..]. Qed.

(** Every binding of the map built by [index_rows] was there before or
    comes from one of the rows. *)
Lemma index_rows_known (rows : list json) :
  ∀ (result result' : gmap string string),
    index_rows rows result = inr result' →
    ∀ k v, result' !! k = Some v →
           result !! k = Some v
           ∨ ∃ row, JObj row ∈ rows
                    ∧ py_str (dict_get row "UF_CRM_ELBA_ID") = k
                    ∧ py_str (dict_get row "ID") = v.
Proof.
  induction rows as [| row rows IH]; intros result result'; cbn [index_rows].
  - intros [= <-] k v Hk. by left.
  - destruct row as [| | | | | row]; try done.
    intros Hrest k v Hk.
    destruct (IH _ _ Hrest k v Hk) as [Hold | (row' & Hin & ? & ?)].
    + destruct (String.eqb_spec (py_str (dict_get row "UF_CRM_ELBA_ID")) "") as [_ | Hne];
        [by left |].
      apply lookup_insert_Some in Hold as [[<- <-] | [_ Hold]]; [| by left].
      right. exists row. split; [apply list_elem_of_here | done].
    + right. exists row'. split; [by apply list_elem_of_further | done].
Qed.

Lemma known_map_mono (pre more : list event) (existing : gmap string string) :
  known_map pre existing → known_map (pre ++ more) existing.
Proof. intros H k v Hk. by apply company_known_mono, H. Qed.

Lemma find_in_groups_known (groups : list (list string)) :
  ∀ (result : gmap string string) (pre : list event) (s : D) result' s' ev,
    find_in_groups bitrix_post "crm.company.list" groups result s = (Ok result', s', ev) →
    known_map pre result → known_map (pre ++ ev) result'.
Proof.
  induction groups as [| group groups IH]; intros result pre s result' s' ev;
    cbn [find_in_groups].
  - intros [= <- <- <-]. by rewrite app_nil_r.
  - rewrite bind_run.
    destruct (bitrix_call _ _ _ s) as [[[res | e |] s1] ev1] eqn:Hcall; [| done ..].
    apply bitrix_call_ok in Hcall as (s0 & data & _ & Hres & Hin).
    rewrite bind_lift. destruct (rows_of res) as [e | rows] eqn:Hrows; [done |].
    rewrite bind_lift. destruct (index_rows rows result) as [e | result1] eqn:Hidx;
      [done |].
    destruct (find_in_groups _ _ groups result1 s1) as [[r2 s2] ev2] eqn:Hrest.
    cbn. intros [= -> -> <-] Hknown. rewrite app_assoc.
    eapply IH; [exact Hrest |]. intros k v Hk.
    destruct (index_rows_known _ _ _ Hidx k v Hk) as [Hold | (row & Hrow & Hkey & Hid)].
    + by apply company_known_mono, Hknown.
    + eexists. split; [apply elem_of_app; right; exact Hin |].
      left. eexists _, data, res, rows, row. by repeat split.
Qed.

Lemma find_existing_companies_known (elba_ids : list string) (s : D) existing s' ev :
  find_existing_by_elba_ids bitrix_post "company" elba_ids s = (Ok existing, s', ev) →
  known_map ev existing.
Proof.
  unfold find_existing_by_elba_ids. destruct elba_ids as [| x l].
  - intros [= <- <- <-] k v Hk. by rewrite lookup_empty in Hk.
  - cbn [chunked]. intros Hrun.
    apply (find_in_groups_known _ ∅ [] s existing s' ev Hrun).
    intros k v Hk. by rewrite lookup_empty in Hk.
Qed.

Lemma quiet_sync_company (cp : json) (cp_id : string) (existing : gmap string string) :
  quiet (sync_company bitrix_post cp cp_id existing).
Proof.
  unfold sync_company, create_company. destruct (negb _).
  - apply quiet_bind; [apply quiet_log | intros _; apply quiet_ret].
  - apply quiet_bind; [apply quiet_lift |]. intros fields.
    apply quiet_bind.
    { apply quiet_bind; [by apply quiet_bitrix_call | intros r; apply quiet_ret]. }
    intros company_id.
    apply quiet_bind; [apply quiet_log | intros _; apply quiet_ret].
Qed.

End Linkage.

(** ** Records without an external id *)

Lemma main_listing {D} (bitrix_post : string -> json -> D -> reply * D)
    (elba_get : string -> list (string * Z) -> response) (fuel : nat) :
  main bitrix_post elba_get fuel
  = try_except
      (bind (log LInfo MsgCheckingUserfields) (fun _ =>
       bind (ensure_userfields bitrix_post) (fun _ =>
       bind (log LInfo MsgFetchingOrganization) (fun _ =>
       bind (get_organization_id elba_get) (fun org_id =>
       bind (log LInfo (MsgOrganization org_id)) (fun _ =>
       bind (log LInfo MsgFetchingCounterparties) (fun _ =>
       bind (get_elba_counterparties elba_get fuel org_id) (fun counterparties =>
       bind (log LInfo (MsgCounterpartyCount (length counterparties))) (fun _ =>
       match counterparties with
       | [] => ret tt
       | _ => sync_listing bitrix_post elba_get fuel org_id counterparties
       end)))))))))
      (fun e => bind (log LError (MsgSyncFailed e)) (fun _ => throw e)).
Proof. reflexivity. Qed.

Lemma sync_contacts_persons {D} (bitrix_post : string -> json -> D -> reply * D)
    (elba_get : string -> list (string * Z) -> response) (fuel : nat) (org : json)
    (c : list (string * json)) (company_id : string) :
  sync_contacts bitrix_post elba_get fuel org c (cp_elba_id c) company_id
  = bind (gather_persons elba_get fuel org c)
      (fun persons =>
         match persons with
         | [] => ret tt
         | _ => lookup_and_sync_persons bitrix_post persons (JObj c) (cp_elba_id c)
                  company_id
         end).
Proof.
  unfold sync_contacts, gather_persons, get_elba_contacts_for_counterparty.
  destruct (inline_persons _ _); reflexivity.
Qed.

Lemma bind_ext {D A B} (m : M (D := D) A) (k k' : A -> M B) (s : D) :
  (∀ a s1, k a s1 = k' a s1) → bind m k s = bind m k' s.
Proof.
  intros Hk. rewrite !bind_run. destruct (m s) as [[[a | e |] s1] ev1]; [| done ..].
  by rewrite Hk.
Qed.

Lemma person_without_id (p : list (string * json)) :
  person_id p = "" → truthy (py_or (dict_get p "id") (dict_get p "personId")) = false.
Proof.
  unfold person_id. intros Hid.
  destruct (truthy (py_or (dict_get p "id") (dict_get p "personId"))) eqn:Ht; [| done].
  unfold py_or at 1 in Hid. rewrite Ht in Hid. apply py_str_empty in Hid.
  by rewrite Hid in Ht.
Qed.

Lemma contact_ids_skip (cp_id : string) (p : list (string * json)) (after : list json) :
  person_id p = "" →
  ∀ before, contact_ids cp_id (before ++ JObj p :: after)
            = contact_ids cp_id (before ++ after).
Proof.
  intros Hid. induction before as [| b before IH]; cbn [app contact_ids].
  - rewrite (person_without_id p Hid). by destruct (contact_ids cp_id after).
  - destruct b; try done. by rewrite IH.
Qed.

Lemma sync_persons_skip {D} (bitrix_post : string -> json -> D -> reply * D)
    (cp : json) (cp_id company_id : string) (existing : gmap string string)
    (p : list (string * json)) (after : list json) :
  person_id p = "" →
  ∀ before (s : D),
    sync_persons bitrix_post (before ++ JObj p :: after) cp cp_id company_id existing s
    = sync_persons bitrix_post (before ++ after) cp cp_id company_id existing s.
Proof.
  intros Hid. induction before as [| b before IH]; intros s; cbn [app sync_persons].
  - by rewrite Hid.
  - destruct b; try done. destruct (String.eqb _ ""); [apply IH |].
    destruct (existing !! _).
    + apply bind_ext. intros _ s1. apply IH.
    + apply bind_ext. intros fields s1. apply bind_ext. intros cid s2.
      apply bind_ext. intros _ s3. apply IH.
Qed.

Lemma company_ids_skip (c : list (string * json)) (after : list json) :
  cp_elba_id c = "" →
  ∀ before,
    match company_ids (before ++ JObj c :: after), company_ids (before ++ after) with
    | inr ids, inr ids' =>
        List.filter (fun eid => negb (String.eqb eid "")) ids
        = List.filter (fun eid => negb (String.eqb eid "")) ids'
    | inl e, inl e' => e = e'
    | _, _ => False
    end.
Proof.
  intros Hid. induction before as [| b before IH]; cbn [app company_ids].
  - rewrite Hid. by destruct (company_ids after).
  - destruct b; try done.
    destruct (company_ids (before ++ JObj c :: after)), (company_ids (before ++ after));
      try done.
    cbn [List.filter]. by rewrite IH.
Qed.

Lemma skipped_with_warning_prepend {D A} (ev : list event)
    (x y : outcome A * D * list event) :
  skipped_with_warning x y → skipped_with_warning (prepend ev x) (prepend ev y).
Proof.
  intros (Hres & ev1 & ev2 & Hev & Hcase). split.
  { unfold prepend. cbn. by rewrite Hres. }
  exists (ev ++ ev1), ev2. unfold prepend. cbn [fst snd]. rewrite Hev, <- app_assoc.
  split; [done |].
  destruct Hcase as [-> | (-> & -> & Hno)]; [left; by rewrite <- app_assoc | by right].
Qed.

Lemma skipped_with_warning_stopped {D A} (x : outcome A * D * list event) :
  (∀ a, x.1.1 ≠ Ok a) → skipped_with_warning x x.
Proof.
  intros Hno. split; [done |]. exists x.2, []. rewrite app_nil_r. split; [done |]. by right.
Qed.

Lemma skipped_with_warning_bind {D A B} (m m' : M (D := D) A) (k : A -> M B) (s : D) :
  skipped_with_warning (m s) (m' s) → skipped_with_warning (bind m k s) (bind m' k s).
Proof.
  intros (Hres & ev1 & ev2 & Hev & Hcase). rewrite !bind_run.
  destruct (m s) as [[r s1] ev], (m' s) as [[r' s1'] ev']. cbn in Hres, Hev, Hcase.
  injection Hres as <- <-. subst ev'.
  destruct r as [a | e |].
  - destruct Hcase as [-> | (_ & _ & Hno)]; [| by destruct (Hno a)].
    destruct (k a s1) as [[r2 s2] ev3]. unfold prepend. cbn [fst snd]. split; [done |].
    exists ev1, (ev2 ++ ev3). rewrite <- !app_assoc. split; [done |]. by left.
  - split; [done |]. exists ev1, ev2. split; [done |].
    destruct Hcase as [-> | (-> & -> & _)]; [by left | right]. by repeat split.
  - split; [done |]. exists ev1, ev2. split; [done |].
    destruct Hcase as [-> | (-> & -> & _)]; [by left | right]. by repeat split.
Qed.

Lemma sync_counterparties_skip {D} (bitrix_post : string -> json -> D -> reply * D)
    (elba_get : string -> list (string * Z) -> response) (fuel : nat) (org : json)
    (c : list (string * json)) (after : list json) :
  cp_elba_id c = "" →
  ∀ before (existing : gmap string string) (s : D),
    skipped_with_warning
      (sync_counterparties bitrix_post elba_get fuel org (before ++ JObj c :: after)
         existing s)
      (sync_counterparties bitrix_post elba_get fuel org (before ++ after) existing s).
Proof.
  intros Hid. induction before as [| b before IH]; intros existing s;
    cbn [app sync_counterparties].
  - rewrite Hid. cbn [String.eqb]. rewrite bind_run. cbn [log emit].
    destruct (sync_counterparties _ _ _ _ after existing s) as [[r s1] ev].
    split; [done |]. exists [], ev. split; [done |]. by left.
  - destruct b as [| | | | | cb]; try by apply skipped_with_warning_stopped.
    destruct (String.eqb (cp_elba_id cb) "").
    { rewrite !bind_run. cbn [log emit]. apply skipped_with_warning_prepend, IH. }
    rewrite !bind_run.
    destruct (sync_company _ _ _ _ s) as [[[r | e |] s1] ev1];
      try by apply skipped_with_warning_stopped.
    apply skipped_with_warning_prepend. rewrite !bind_run.
    destruct (sync_contacts _ _ _ _ _ _ _ s1) as [[[[] | e |] s2] ev2];
      try by apply skipped_with_warning_stopped.
    apply skipped_with_warning_prepend, IH.
Qed.

(** C6. A counterparty record without a derivable external id changes a run
    in one way only: the run over a listing that holds the record is the run
    over the listing without it, with the same result and the same final
    state of the destination, and with exactly one warning added to the
    events (unless the run ended, not normally, before it came to the
    record); no lookup and no creation mentions the record.  A person record
    without a derivable external id changes nothing at all: the contact
    lookup and the loop over the persons run exactly as on the list without
    it, so the skip is not logged.  In the run over a listing with one such
    counterparty and one such person, the destination is asked about the key
    "1" and the key "1:7" only, and the log holds a single warning, for the
    counterparty. *)
Theorem skip_on_missing_id :
  (∀ (D : Type) (bitrix_post : string -> json -> D -> reply * D)
     (elba_get : string -> list (string * Z) -> response) (fuel : nat) (org : json)
     (before : list json) (c : list (string * json)) (after : list json) (s : D),
     cp_elba_id c = "" →
     skipped_with_warning
       (sync_listing bitrix_post elba_get fuel org (before ++ JObj c :: after) s)
       (sync_listing bitrix_post elba_get fuel org (before ++ after) s))
  ∧ (∀ (D : Type) (bitrix_post : string -> json -> D -> reply * D)
       (before : list json) (p : list (string * json)) (after : list json)
       (cp : json) (cp_id company_id : string) (s : D),
       person_id p = "" →
       lookup_and_sync_persons bitrix_post (before ++ JObj p :: after) cp cp_id
         company_id s
       = lookup_and_sync_persons bitrix_post (before ++ after) cp cp_id company_id s)
  ∧ (let run := main crm_post mixed_source 1 crm_empty in
     run.1.1 = Ok tt
     ∧ List.filter is_warning run.2 = [ELog LWarning MsgSkipCounterparty]
     ∧ record_requests run.2
       = [lookup_request "company" ["1"];
          ("crm.company.add",
           JObj [("fields", JObj [("TITLE", JStr "Acme"); ("UF_CRM_ELBA_ID", JStr "1")])]);
          lookup_request "contact" ["1:7"];
          ("crm.contact.add",
           JObj [("fields",
                  JObj [("LAST_NAME", JStr "Ivanov"); ("NAME", JStr "Ivan");
                        ("SECOND_NAME", JStr ""); ("UF_CRM_ELBA_ID", JStr "1:7");
                        ("COMPANY_ID", JStr "4")])])]).
Proof.
  split; [| split; [| by vm_compute]].
  - intros D bitrix_post elba_get fuel org before c after s Hid.
    unfold sync_listing. rewrite !bind_lift.
    pose proof (company_ids_skip c after Hid before) as Hids.
    destruct (company_ids (before ++ JObj c :: after)) as [e | ids],
      (company_ids (before ++ after)) as [e' | ids']; try done.
    { subst e'. by apply skipped_with_warning_stopped. }
    unfold lookup_and_sync. rewrite Hids, !bind_run.
    destruct (find_existing_by_elba_ids _ _ _ s) as [[[existing | e |] s1] ev1];
      try by apply skipped_with_warning_stopped.
    apply skipped_with_warning_prepend, skipped_with_warning_bind.
    by apply sync_counterparties_skip.
  - intros D bitrix_post before p after cp cp_id company_id s Hid.
    unfold lookup_and_sync_persons. rewrite (contact_ids_skip cp_id p after Hid before).
    apply bind_ext. intros ids s1. apply bind_ext. intros existing s2.
    by apply sync_persons_skip.
Qed.

Lemma skip_on_missing_id_witness :
  skipped_with_warning
    (sync_listing crm_post mixed_source 1 (JStr "o1")
       ([] ++ JObj [("name", JStr "Nameless")] :: [JObj acme]) crm_empty)
    (sync_listing crm_post mixed_source 1 (JStr "o1") ([] ++ [JObj acme]) crm_empty)
  ∧ lookup_and_sync_persons crm_post
      ([] ++ JObj anonymous_person :: [JObj twin_person])
      (JObj twins) "1" "4" crm_empty
    = lookup_and_sync_persons crm_post ([] ++ [JObj twin_person]) (JObj twins) "1" "4"
        crm_empty.
Proof.
  split.
  - apply (proj1 skip_on_missing_id crm crm_post mixed_source 1%nat (JStr "o1") []
             [("name", JStr "Nameless")] [JObj acme] crm_empty).
    reflexivity.
  - apply (proj1 (proj2 skip_on_missing_id) crm crm_post []
             anonymous_person [JObj twin_person] (JObj twins) "1" "4" crm_empty).
    reflexivity.
Defined.

(** ** Re-running against the reference destination *)

(** *** Computations that do not depend on the destination *)

Section Stateless.

Context {D : Type}.
Variable elba_get : string -> list (string * Z) -> response.

Abbreviation stateless := (stateless (D := D)).
Abbreviation gather_persons := (gather_persons (D := D) elba_get).

Lemma stateless_ret {A} (a : A) : stateless (ret a).
Proof. by exists (Ok a), []. Qed.

Lemma stateless_throw {A} (e : exn) : stateless (throw (A := A) e).
Proof. by exists (Raise e), []. Qed.

Lemma stateless_log (lv : level) (msg : log_msg) : stateless (log lv msg).
Proof. by exists (Ok tt), [ELog lv msg]. Qed.

Lemma stateless_bind {A B} (m : M A) (k : A -> M B) :
  stateless m → (∀ a, stateless (k a)) → stateless (bind m k).
Proof.
  intros (r & ev & Hm) Hk. destruct r as [a | e |].
  - destruct (Hk a) as (r' & ev' & Hka). exists r', (ev ++ ev'). intros s.
    by rewrite bind_run, Hm, Hka.
  - exists (Raise e), ev. intros s. by rewrite bind_run, Hm.
  - exists NoFuel, ev. intros s. by rewrite bind_run, Hm.
Qed.

Lemma stateless_try_except {A} (m : M A) (h : exn -> M A) :
  stateless m → (∀ e, stateless (h e)) → stateless (try_except m h).
Proof.
  intros (r & ev & Hm) Hh. unfold try_except. destruct r as [a | e |].
  - exists (Ok a), ev. intros s. by rewrite Hm.
  - destruct (Hh e) as (r' & ev' & Hhe). exists r', (ev ++ ev'). intros s.
    by rewrite Hm, Hhe.
  - exists NoFuel, ev. intros s. by rewrite Hm.
Qed.

Lemma stateless_elba_request (url : string) (params : list (string * Z)) :
  stateless (elba_request elba_get url params).
Proof. by eexists _, _. Qed.

Lemma stateless_fetch_pages (fuel : nat) (url : string) (params : list (string * Z))
    (item_keys : list string) (limit : Z) :
  ∀ items skip,
    stateless (fetch_pages elba_get fuel url params item_keys limit items skip).
Proof.
  induction fuel as [| fuel IH]; intros items skip; [by exists NoFuel, [] |].
  cbn [fetch_pages]. apply stateless_bind; [apply stateless_elba_request |].
  intros [data0 | status |].
  - destruct (extract_batch _ _) as [batch |].
    + apply stateless_bind; [apply stateless_log |]. intros _.
      destruct (_ <? _); [apply stateless_ret | apply IH].
    + apply stateless_bind; [apply stateless_log | intros _; apply stateless_ret].
  - apply stateless_bind; [apply stateless_log | intros _; apply stateless_ret].
  - apply stateless_bind; [apply stateless_log | intros _; apply stateless_ret].
Qed.

Lemma stateless_probe_counterparties (fuel : nat) (candidates : list string) :
  stateless (probe_counterparties elba_get fuel candidates).
Proof.
  induction candidates as [| endpoint rest IH]; cbn [probe_counterparties].
  - apply stateless_bind; [apply stateless_log | intros _; apply stateless_ret].
  - apply stateless_bind; [apply stateless_fetch_pages |]. intros [| item items].
    + by apply stateless_bind; [apply stateless_log |].
    + apply stateless_bind; [apply stateless_log | intros _; apply stateless_ret].
Qed.

Lemma stateless_probe_contacts (fuel : nat) (candidates : list string) :
  stateless (probe_contacts elba_get fuel candidates).
Proof.
  induction candidates as [| url rest IH]; cbn [probe_contacts]; [apply stateless_ret |].
  apply stateless_bind; [apply stateless_fetch_pages |].
  intros [| item items]; [done | apply stateless_ret].
Qed.

Lemma stateless_get_organization_id : stateless (get_organization_id elba_get).
Proof.
  unfold get_organization_id.
  apply stateless_try_except;
    [| intros e; apply stateless_bind;
       [apply stateless_log | intros _; apply stateless_throw]].
  apply stateless_bind; [apply stateless_elba_request |].
  intros [data0 | status |]; [| apply stateless_throw ..].
  destruct (py_or data0 _); try apply stateless_throw.
  destruct (negb _); [apply stateless_throw |].
  repeat (match goal with
          | |- stateless (match ?x with _ => _ end) => destruct x
          end; try apply stateless_throw; try apply stateless_ret).
Qed.

Lemma stateless_gather_persons (fuel : nat) (org : json) (c : list (string * json)) :
  stateless (gather_persons fuel org c).
Proof.
  unfold gather_persons. destruct (inline_persons _ _); [| apply stateless_ret].
  apply stateless_probe_contacts.
Qed.

End Stateless.

(** *** Lookups in the reference destination *)

Lemma json_strings_JStr (group : list string) :
  json_strings (JList (List.map JStr group)) = group.
Proof. cbn. induction group as [| x group IH]; [done |]. cbn. by rewrite IH. Qed.

Lemma chunks_concat {A} (size : nat) :
  (0 < size)%nat → ∀ (n : nat) (l : list A), (length l ≤ n)%nat →
  concat (chunks n l size) = l.
Proof.
  intros Hsize. induction n as [| n IH]; intros l Hlen.
  - destruct l; [done | cbn in Hlen; lia].
  - cbn [chunks]. destruct l as [| x l]; [done |].
    cbn [concat]. rewrite IH; [apply take_drop |].
    rewrite length_drop. cbn [length] in *. lia.
Qed.

Lemma index_rows_keeps (rows : list json) :
  ∀ (result result' : gmap string string),
    index_rows rows result = inr result' →
    ∀ k, is_Some (result !! k) → is_Some (result' !! k).
Proof.
  induction rows as [| row rows IH]; intros result result'; cbn [index_rows].
  - by intros [= <-].
  - destruct row as [| | | | | row]; try done.
    intros Hrest k Hk. apply (IH _ _ Hrest).
    destruct (String.eqb _ ""); [done |].
    rewrite lookup_insert. by destruct (decide _).
Qed.

Lemma index_rows_adds (rows : list json) :
  ∀ (result result' : gmap string string) (row : list (string * json)),
    index_rows rows result = inr result' →
    JObj row ∈ rows →
    py_str (dict_get row "UF_CRM_ELBA_ID") ≠ "" →
    is_Some (result' !! py_str (dict_get row "UF_CRM_ELBA_ID")).
Proof.
  induction rows as [| row0 rows IH]; intros result result' row; cbn [index_rows].
  - intros _ Hin. by apply elem_of_nil in Hin.
  - destruct row0 as [| | | | | row0]; try done.
    intros Hrest Hin Hkey. apply elem_of_cons in Hin as [[= ->] | Hin].
    + apply (index_rows_keeps _ _ _ Hrest).
      destruct (String.eqb_spec (py_str (dict_get row0 "UF_CRM_ELBA_ID")) ""); [done |].
      by rewrite lookup_insert_eq.
    + by eapply IH.
Qed.

Lemma index_rows_crm (records : list (Z * list (string * json))) :
  ∀ result, ∃ result', index_rows (List.map crm_row records) result = inr result'.
Proof.
  induction records as [| record records IH]; intros result; [by eexists |].
  cbn. apply IH.
Qed.

Lemma index_groups_crm (records : list (Z * list (string * json)))
    (groups : list (list string)) :
  ∀ result, ∃ result', index_groups records groups result = inr result'.
Proof.
  induction groups as [| group groups IH]; intros result; [by eexists |].
  cbn [index_groups]. unfold lookup_rows.
  destruct (index_rows_crm (List.filter (has_key group) records) result) as [r ->].
  apply IH.
Qed.

Lemma has_key_stored (records : list (Z * list (string * json))) (group : list string)
    (record : Z * list (string * json)) :
  record ∈ List.filter (has_key group) records →
  ∃ k, k ∈ group ∧ record ∈ records ∧ dict_get record.2 "UF_CRM_ELBA_ID" = JStr k.
Proof.
  rewrite list_elem_of_In, List.filter_In, <- list_elem_of_In. intros [Hin Hkey].
  unfold has_key in Hkey. destruct (dict_get record.2 "UF_CRM_ELBA_ID"); try done.
  apply bool_decide_eq_true in Hkey. eauto.
Qed.

Lemma index_groups_sound (records : list (Z * list (string * json)))
    (groups : list (list string)) :
  ∀ result result',
    index_groups records groups result = inr result' →
    sound_map records result → sound_map records result'.
Proof.
  induction groups as [| group groups IH]; intros result result'; cbn [index_groups].
  - by intros [= <-].
  - destruct (index_rows _ result) as [e | result1] eqn:Hidx; [done |].
    intros Hrest Hsound. apply (IH _ _ Hrest). intros k v Hk.
    destruct (index_rows_known _ _ _ Hidx k v Hk) as [Hold | (row & Hrow & Hkey & Hid)];
      [by apply Hsound |].
    unfold lookup_rows in Hrow. apply list_elem_of_fmap in Hrow as (record & Heq & Hin).
    injection Heq as ->. apply has_key_stored in Hin as (k' & _ & Hin & Hk').
    cbn in Hkey, Hid. rewrite Hk' in Hkey. cbn in Hkey. subst k' v.
    split; [by exists record |]. apply pretty_Z_nonempty.
Qed.

Lemma index_groups_keeps (records : list (Z * list (string * json)))
    (groups : list (list string)) :
  ∀ result result',
    index_groups records groups result = inr result' →
    ∀ k, is_Some (result !! k) → is_Some (result' !! k).
Proof.
  induction groups as [| group groups IH]; intros result result'; cbn [index_groups].
  - by intros [= <-].
  - destruct (index_rows _ result) as [e | result1] eqn:Hidx; [done |].
    intros Hrest k Hk. apply (IH _ _ Hrest). by eapply index_rows_keeps.
Qed.

(** Every requested key that is stored is in the map. *)
Lemma index_groups_complete (records : list (Z * list (string * json)))
    (groups : list (list string)) :
  ∀ result result',
    index_groups records groups result = inr result' →
    ∀ k, k ∈ concat groups → k ≠ "" → stored records k → is_Some (result' !! k).
Proof.
  induction groups as [| group groups IH]; intros result result'; cbn [index_groups concat].
  - intros _ k Hk. by apply elem_of_nil in Hk.
  - destruct (index_rows _ result) as [e | result1] eqn:Hidx; [done |].
    intros Hrest k Hk Hne (record & Hin & Hkey).
    apply elem_of_app in Hk as [Hk | Hk]; [| by eapply IH; [| | | exists record]].
    apply (index_groups_keeps _ _ _ _ Hrest).
    assert (JObj [("ID", JStr (pretty record.1)); ("UF_CRM_ELBA_ID", JStr k)]
            ∈ lookup_rows records group) as Hrow.
    { unfold lookup_rows. apply list_elem_of_fmap. exists record.
      split; [unfold crm_row; by rewrite Hkey |].
      rewrite list_elem_of_In, List.filter_In, <- list_elem_of_In. split; [done |].
      unfold has_key. rewrite Hkey. by apply bool_decide_eq_true. }
    by apply (index_rows_adds _ _ _ _ Hidx Hrow).
Qed.

Lemma rows_of_JList (l : list json) : rows_of (JList l) = inr l.
Proof. by destruct l. Qed.

Lemma crm_list_lookup (records : list (Z * list (string * json))) (group : list string)
    (select : json) :
  crm_list records
    (JObj [("filter", JObj [("UF_CRM_ELBA_ID", JList (List.map JStr group))]);
           ("select", select)])
  = JObj [("result", JList (lookup_rows records group))].
Proof.
  unfold crm_list, lookup_rows.
  change (dict_get _ "UF_CRM_ELBA_ID") with (JList (List.map JStr group)).
  by rewrite json_strings_JStr.
Qed.

Lemma crm_rules :
  calm_rules crm_post no_creation same_records
    (fun method => method ≠ "crm.company.add" ∧ method ≠ "crm.contact.add").
Proof.
  split.
  - done.
  - intros s1 s2 s3 [H1 H2] [H3 H4]. split; congruence.
  - done.
  - done.
  - intros method body s [Hcompany Hcontact]. split.
    + unfold no_creation. cbn. apply orb_false_iff. by rewrite !String.eqb_neq.
    + unfold crm_post.
      repeat match goal with
             | |- context [String.eqb method ?x] =>
                 destruct (String.eqb_spec method x) as [-> | _]; [cbn; by split |]
             end.
      by split.
Qed.

(** Listing and field provisioning leave the records alone. *)
Lemma ensure_userfields_reads (s : crm) :
  Forall no_creation (ensure_userfields crm_post s).2
  ∧ same_records s (ensure_userfields crm_post s).1.2.
Proof. by eapply calm_ensure_userfields; [apply crm_rules | ..]. Qed.

Section Lookup.

Variable method : string.
Variable select : crm -> list (Z * list (string * json)).
Hypothesis method_lists :
  ∀ params s, crm_post method params s = (ReplyJson (crm_list (select s) params), s).
Hypothesis method_reads : no_creation (EPost method JNull ReplyFailure).

Lemma find_in_groups_crm (groups : list (list string)) :
  ∀ (result : gmap string string) (s : crm),
    ∃ ev, find_in_groups crm_post method groups result s
          = (match index_groups (select s) groups result with
             | inr m => Ok m
             | inl e => Raise e
             end, s, ev)
          ∧ Forall no_creation ev.
Proof.
  induction groups as [| group groups IH]; intros result s; [by exists [] |].
  cbn [find_in_groups index_groups]. rewrite bind_run.
  erewrite bitrix_call_answered by apply method_lists.
  cbn [py_or truthy]. rewrite crm_list_lookup. cbn [bitrix_result].
  change (dict_mem _ "error") with false. cbn match.
  change (dict_get _ "result") with (JList (lookup_rows (select s) group)).
  rewrite bind_lift, rows_of_JList, bind_lift.
  destruct (index_rows _ result) as [e | result1].
  - eexists. split; [reflexivity |]. by repeat constructor.
  - destruct (IH result1 s) as (ev & -> & Hev). eexists. split; [reflexivity |].
    cbn. by constructor.
Qed.

End Lookup.

Lemma find_existing_crm (entity_type : string)
    (select : crm -> list (Z * list (string * json))) :
  (∀ params s, crm_post ("crm." +:+ entity_type +:+ ".list") params s
               = (ReplyJson (crm_list (select s) params), s)) →
  no_creation (EPost ("crm." +:+ entity_type +:+ ".list") JNull ReplyFailure) →
  ∀ (elba_ids : list string) (s : crm),
    ∃ m ev, find_existing_by_elba_ids crm_post entity_type elba_ids s = (Ok m, s, ev)
            ∧ Forall no_creation ev
            ∧ sound_map (select s) m
            ∧ ∀ k, k ∈ elba_ids → k ≠ "" → stored (select s) k → is_Some (m !! k).
Proof.
  intros Hlist Hread elba_ids s. unfold find_existing_by_elba_ids.
  destruct elba_ids as [| x l].
  - exists ∅, []. split; [done |]. split; [constructor |]. split.
    + intros k v Hk. by rewrite lookup_empty in Hk.
    + intros k Hk. by apply elem_of_nil in Hk.
  - cbn [chunked].
    destruct (find_in_groups_crm _ select Hlist Hread
                (chunks (length (x :: l)) (x :: l) 50) ∅ s) as (ev & Hrun & Hev).
    destruct (index_groups_crm (select s) (chunks (length (x :: l)) (x :: l) 50) ∅)
      as [m Hm].
    rewrite Hm in Hrun. exists m, ev. split; [done |]. split; [done |]. split.
    + apply (index_groups_sound _ _ _ _ Hm). intros k v Hk.
      by rewrite lookup_empty in Hk.
    + intros k Hk. apply (index_groups_complete _ _ _ _ Hm).
      by rewrite chunks_concat by lia.
Qed.

Lemma find_existing_companies (elba_ids : list string) (s : crm) :
  ∃ m ev, find_existing_by_elba_ids crm_post "company" elba_ids s = (Ok m, s, ev)
          ∧ Forall no_creation ev
          ∧ sound_map (crm_companies s) m
          ∧ ∀ k, k ∈ elba_ids → k ≠ "" → stored (crm_companies s) k → is_Some (m !! k).
Proof. by apply (find_existing_crm "company" crm_companies). Qed.

Lemma find_existing_contacts (elba_ids : list string) (s : crm) :
  ∃ m ev, find_existing_by_elba_ids crm_post "contact" elba_ids s = (Ok m, s, ev)
          ∧ Forall no_creation ev
          ∧ sound_map (crm_contacts s) m
          ∧ ∀ k, k ∈ elba_ids → k ≠ "" → stored (crm_contacts s) k → is_Some (m !! k).
Proof. by apply (find_existing_crm "contact" crm_contacts). Qed.

(** Creations append one record with the fields of the request. *)
Lemma create_company_crm (fields : list (string * json)) (s : crm) :
  ∃ ev, create_company crm_post fields s
        = (Ok (pretty (crm_next s)),
           Crm (crm_companies s ++ [(crm_next s, fields)]) (crm_contacts s)
             (crm_company_fields s) (crm_contact_fields s) (crm_next s + 1), ev).
Proof.
  unfold create_company. rewrite bind_run.
  erewrite bitrix_call_answered by reflexivity. by eexists.
Qed.

Lemma create_contact_crm (fields : list (string * json)) (s : crm) :
  ∃ ev, create_contact crm_post fields s
        = (Ok (pretty (crm_next s)),
           Crm (crm_companies s) (crm_contacts s ++ [(crm_next s, fields)])
             (crm_company_fields s) (crm_contact_fields s) (crm_next s + 1), ev).
Proof.
  unfold create_contact. rewrite bind_run.
  erewrite bitrix_call_answered by reflexivity. by eexists.
Qed.

(** *** One run establishes what the next one looks up *)

Lemma person_id_plain (p : list (string * json)) :
  plain_id (JObj p) → py_str (py_or (dict_get p "id") (JStr "")) = person_id p.
Proof.
  unfold person_id, py_or. intros [Hid | Hpid].
  - by rewrite !Hid.
  - destruct (truthy (dict_get p "id")) eqn:Hid; [by rewrite Hid |]. by rewrite Hpid.
Qed.

Lemma person_id_truthy (p : list (string * json)) :
  person_id p ≠ "" → truthy (py_or (dict_get p "id") (dict_get p "personId")) = true.
Proof.
  unfold person_id. intros Hne.
  destruct (truthy (py_or _ _)) eqn:Ht; [done |].
  destruct Hne. unfold py_or at 1. by rewrite Ht.
Qed.

Lemma contact_ids_mem (cp_id : string) (persons : list json) :
  ∀ ids (p : list (string * json)),
    contact_ids cp_id persons = inr ids →
    JObj p ∈ persons → person_id p ≠ "" →
    cp_id +:+ ":" +:+ person_id p ∈ ids.
Proof.
  induction persons as [| person persons IH]; intros ids p; cbn [contact_ids].
  - intros _ Hin. by apply elem_of_nil in Hin.
  - destruct person as [| | | | | q]; try done.
    destruct (contact_ids cp_id persons) as [e | ids'] eqn:Hrest; [done |].
    intros Hids Hin Hne. apply elem_of_cons in Hin as [[= ->] | Hin].
    + rewrite (person_id_truthy _ Hne) in Hids. injection Hids as <-.
      apply list_elem_of_here.
    + specialize (IH ids' p eq_refl Hin Hne).
      destruct (truthy _); injection Hids as <-; [by apply list_elem_of_further | done].
Qed.

Lemma grows_refl (s : crm) : grows s s.
Proof. by split. Qed.

Lemma grows_trans (s1 s2 s3 : crm) : grows s1 s2 → grows s2 s3 → grows s1 s3.
Proof. intros [H1 H2] [H3 H4]. split; eauto. Qed.

Lemma stored_app (records more : list (Z * list (string * json))) (k : string) :
  stored records k → stored (records ++ more) k.
Proof. intros (r & Hin & Hk). exists r. split; [| done]. apply elem_of_app. by left. Qed.

Lemma stored_new (records : list (Z * list (string * json))) (id : Z)
    (fields : list (string * json)) (k : string) :
  assoc fields "UF_CRM_ELBA_ID" = Some (JStr k) →
  stored (records ++ [(id, fields)]) k.
Proof.
  intros Hk. exists (id, fields). split; [apply elem_of_app; right; apply list_elem_of_here |].
  unfold dict_get. cbn. by rewrite Hk.
Qed.

Lemma sound_map_grows (records records' : list (Z * list (string * json)))
    (m : gmap string string) :
  (∀ k, stored records k → stored records' k) →
  sound_map records m → sound_map records' m.
Proof. intros Hg Hs k v Hk. destruct (Hs k v Hk). eauto. Qed.

Section FirstRun.

Variable elba_get : string -> list (string * Z) -> response.
Variables (fuel : nat) (org : json).

Abbreviation gathered := (gathered elba_get fuel org).
Abbreviation covered := (covered elba_get fuel org).
Abbreviation plain_ids := (plain_ids elba_get fuel org).

Lemma gather_persons_run (c : list (string * json)) (s : crm) :
  ∃ ev, gather_persons elba_get fuel org c s = (gathered c, s, ev)
        ∧ Forall no_creation ev.
Proof.
  destruct (stateless_gather_persons (D := crm) elba_get fuel org c) as (r & ev & Hrun).
  unfold gathered. rewrite (Hrun crm_empty). exists ev. split; [apply Hrun |].
  assert (calm (D := crm) no_creation same_records (gather_persons elba_get fuel org c))
    as Hcalm.
  { unfold gather_persons. destruct (inline_persons _ _).
    - eapply calm_probe_contacts, crm_rules.
    - eapply calm_ret, crm_rules. }
  destruct (Hcalm crm_empty) as [Hev _]. by rewrite Hrun in Hev.
Qed.

Lemma sync_contacts_gather (c : list (string * json)) (company_id : string) (s : crm) :
  sync_contacts crm_post elba_get fuel org c (cp_elba_id c) company_id s
  = bind (gather_persons elba_get fuel org c)
      (fun persons =>
         match persons with
         | [] => ret tt
         | _ =>
             bind (lift (contact_ids (cp_elba_id c) persons)) (fun contact_elba_ids =>
             bind (find_existing_by_elba_ids crm_post "contact" contact_elba_ids)
               (fun existing_contacts =>
                  sync_persons crm_post persons (JObj c) (cp_elba_id c) company_id
                    existing_contacts))
         end) s.
Proof.
  unfold sync_contacts, gather_persons, get_elba_contacts_for_counterparty.
  destruct (inline_persons _ _); reflexivity.
Qed.

Lemma attach_company_key (fields : list (string * json)) (company_id : string) :
  assoc (if String.eqb company_id "" then fields
         else assoc_set fields "COMPANY_ID" (JStr company_id)) "UF_CRM_ELBA_ID"
  = assoc fields "UF_CRM_ELBA_ID".
Proof. destruct (String.eqb company_id ""); [done |]. by rewrite assoc_set_ne. Qed.

(** After the person loop every person with an id has its contact stored. *)
Lemma sync_persons_stores (c : list (string * json)) (company_id : string)
    (existing : gmap string string) (persons : list json) :
  Forall plain_id persons →
  ∀ (s : crm) r s' ev,
    sound_map (crm_contacts s) existing →
    sync_persons crm_post persons (JObj c) (cp_elba_id c) company_id existing s
    = (r, s', ev) →
    grows s s'
    ∧ (r = Ok tt →
       ∀ p, JObj p ∈ persons → person_id p ≠ "" →
            stored (crm_contacts s') (cp_elba_id c +:+ ":" +:+ person_id p)).
Proof.
  induction persons as [| person rest IH]; intros Hplain s r s' ev Hsound;
    cbn [sync_persons].
  { intros [= <- <- <-]. split; [apply grows_refl |]. intros _ p Hin.
    by apply elem_of_nil in Hin. }
  apply Forall_cons in Hplain as [Hp Hplain]. specialize (IH Hplain).
  destruct person as [| | | | | q];
    try (intros [= <- <- <-]; split; [apply grows_refl | done]).
  destruct (String.eqb_spec (person_id q) "") as [Hnone | Hsome].
  { intros Hrun. destruct (IH _ _ _ _ Hsound Hrun) as [Hg Hrest]. split; [done |].
    intros Hr p Hin Hne. apply elem_of_cons in Hin as [[= ->] | Hin]; [done |].
    by apply Hrest. }
  destruct (existing !! _) as [found |] eqn:Hfound.
  { rewrite bind_run. cbn.
    destruct (sync_persons _ rest _ _ _ _ s) as [[r1 s1] ev1] eqn:Hrun.
    destruct (IH _ _ _ _ Hsound Hrun) as [Hg Hrest].
    unfold prepend. cbn. intros [= <- <- <-]. split; [done |].
    intros Hr p Hin Hne. apply elem_of_cons in Hin as [[= ->] | Hin]; [| by apply Hrest].
    apply Hg. by destruct (Hsound _ _ Hfound). }
  rewrite bind_lift.
  destruct (map_contact_fields_from_person _ _) as [e | fields] eqn:Hmap.
  { intros [= <- <- <-]. split; [apply grows_refl | done]. }
  rewrite bind_run.
  destruct (create_contact_crm
              (if String.eqb company_id "" then fields
               else assoc_set fields "COMPANY_ID" (JStr company_id)) s) as [ev0 ->].
  rewrite bind_run. cbn [log emit].
  match goal with
  | |- context [sync_persons _ rest _ _ _ _ ?s1] =>
      destruct (sync_persons crm_post rest (JObj c) (cp_elba_id c) company_id existing s1)
        as [[r1 s2] ev1] eqn:Hrun;
      assert (grows s s1) as Hstep by (split; [done | intros k; apply stored_app])
  end.
  assert (stored (crm_contacts s ++ [(crm_next s,
            if String.eqb company_id "" then fields
            else assoc_set fields "COMPANY_ID" (JStr company_id))])
            (cp_elba_id c +:+ ":" +:+ person_id q)) as Hnew.
  { apply stored_new. rewrite attach_company_key, (contact_key _ _ _ Hmap).
    by rewrite person_id_plain. }
  apply IH in Hrun as [Hg Hrest];
    [| by eapply sound_map_grows; [apply Hstep | ]].
  unfold prepend. cbn. intros [= <- <- <-]. split; [by eapply grows_trans |].
  intros Hr p Hin Hne. apply elem_of_cons in Hin as [[= ->] | Hin]; [| by apply Hrest].
  by apply Hg.
Qed.

(** When every person with an id is in the map, the loop creates nothing. *)
Lemma sync_persons_rerun (cp : json) (cp_id company_id : string)
    (existing : gmap string string) (persons : list json) :
  (∀ p, JObj p ∈ persons → person_id p ≠ "" →
        is_Some (existing !! (cp_id +:+ ":" +:+ person_id p))) →
  ∀ (s : crm) r s' ev,
    sync_persons crm_post persons cp cp_id company_id existing s = (r, s', ev) →
    s' = s ∧ Forall no_creation ev.
Proof.
  induction persons as [| person rest IH]; intros Hall s r s' ev; cbn [sync_persons].
  { by intros [= <- <- <-]. }
  assert (∀ p, JObj p ∈ rest → person_id p ≠ "" →
               is_Some (existing !! (cp_id +:+ ":" +:+ person_id p))) as Hrest
    by (intros p Hin; apply Hall; by apply list_elem_of_further).
  destruct person as [| | | | | q]; try by intros [= <- <- <-].
  destruct (String.eqb_spec (person_id q) "") as [Hnone | Hsome]; [by apply IH |].
  destruct (Hall q (list_elem_of_here _ _) Hsome) as [found ->].
  rewrite bind_run. cbn.
  destruct (sync_persons _ rest _ _ _ _ s) as [[r1 s1] ev1] eqn:Hrun.
  apply IH in Hrun as [-> Hev]; [| done].
  unfold prepend. cbn. intros [= <- <- <-]. split; [done |]. by constructor.
Qed.

(** The company part leaves the company of [c] stored and the map sound. *)
Lemma sync_company_stores (c : list (string * json)) (existing : gmap string string)
    (s : crm) r s' ev :
  sound_map (crm_companies s) existing →
  sync_company crm_post (JObj c) (cp_elba_id c) existing s = (r, s', ev) →
  grows s s'
  ∧ ∀ company_id existing',
      r = Ok (company_id, existing') →
      stored (crm_companies s') (cp_elba_id c)
      ∧ sound_map (crm_companies s') existing'.
Proof.
  intros Hsound. unfold sync_company.
  destruct (String.eqb_spec (default "" (existing !! cp_elba_id c)) "") as [Hnone | Hfound];
    cbn [negb].
  - rewrite bind_lift.
    destruct (map_company_fields_from_cp (JObj c)) as [e | fields] eqn:Hmap.
    { intros [= <- <- <-]. split; [apply grows_refl | done]. }
    rewrite bind_run. destruct (create_company_crm fields s) as [ev0 ->].
    rewrite bind_run. cbn. intros [= <- <- <-].
    assert (stored (crm_companies s ++ [(crm_next s, fields)]) (cp_elba_id c)) as Hnew
      by (by apply stored_new, company_key).
    split; [split; [intros k; apply stored_app | done] |].
    intros company_id existing' [= <- <-]. split; [done |].
    intros k v Hk. apply lookup_insert_Some in Hk as [[<- <-] | [_ Hk]].
    + split; [done | apply pretty_Z_nonempty].
    + destruct (Hsound k v Hk). split; [by apply stored_app | done].
  - cbn. intros [= <- <- <-]. split; [apply grows_refl |].
    intros company_id existing' [= <- <-]. split; [| done].
    destruct (existing !! cp_elba_id c) as [found |] eqn:Hk; [| done].
    by destruct (Hsound _ _ Hk).
Qed.

(** With the company in the map, the company part creates nothing. *)
Lemma sync_company_rerun (cp : json) (cp_id : string) (existing : gmap string string)
    (s : crm) (found : string) :
  existing !! cp_id = Some found → found ≠ "" →
  sync_company crm_post cp cp_id existing s
  = (Ok (found, existing), s, [ELog LDebug (MsgCompanyExists cp_id found)]).
Proof.
  intros Hk Hne. unfold sync_company. rewrite Hk. cbn [default from_option id].
  by destruct (String.eqb_spec found "").
Qed.

Lemma sync_contacts_stores (c : list (string * json)) (company_id : string)
    (s : crm) r s' ev :
  (∀ persons, gathered c = Ok persons → Forall plain_id persons) →
  sync_contacts crm_post elba_get fuel org c (cp_elba_id c) company_id s = (r, s', ev) →
  grows s s'
  ∧ (r = Ok tt →
     ∀ persons p, gathered c = Ok persons → JObj p ∈ persons → person_id p ≠ "" →
                  stored (crm_contacts s') (cp_elba_id c +:+ ":" +:+ person_id p)).
Proof.
  intros Hplain. rewrite sync_contacts_gather, bind_run.
  destruct (gather_persons_run c s) as (ev0 & -> & _).
  destruct (gathered c) as [persons | e |] eqn:Hg;
    try (intros [= <- <- <-]; split; [apply grows_refl | done]).
  specialize (Hplain persons eq_refl).
  destruct persons as [| person persons].
  { cbn. intros [= <- <- <-]. split; [apply grows_refl |].
    intros _ persons p [= <-] Hin. by apply elem_of_nil in Hin. }
  rewrite bind_lift. destruct (contact_ids _ _) as [e | ids].
  { cbn. intros [= <- <- <-]. split; [apply grows_refl | done]. }
  rewrite bind_run.
  destruct (find_existing_contacts ids s) as (m & ev1 & -> & _ & Hsound & _).
  destruct (sync_persons _ _ _ _ _ _ s) as [[r2 s2] ev2] eqn:Hrun.
  apply sync_persons_stores in Hrun as [Hgrow Hstored]; [| done ..].
  unfold prepend. cbn. intros [= <- <- <-]. split; [done |].
  intros Hr persons' p [= <-]. by apply Hstored.
Qed.

Lemma sync_contacts_rerun (c : list (string * json)) (company_id : string)
    (s : crm) r s' ev :
  (∀ persons p, gathered c = Ok persons → JObj p ∈ persons → person_id p ≠ "" →
                stored (crm_contacts s) (cp_elba_id c +:+ ":" +:+ person_id p)) →
  sync_contacts crm_post elba_get fuel org c (cp_elba_id c) company_id s = (r, s', ev) →
  s' = s ∧ Forall no_creation ev.
Proof.
  intros Hstored. rewrite sync_contacts_gather, bind_run.
  destruct (gather_persons_run c s) as (ev0 & -> & Hev0).
  destruct (gathered c) as [persons | e |] eqn:Hg; try by intros [= <- <- <-].
  destruct persons as [| person persons].
  { cbn. intros [= <- <- <-]. split; [done |]. by rewrite app_nil_r. }
  rewrite bind_lift. destruct (contact_ids _ _) as [e | ids] eqn:Hids.
  { cbn. intros [= <- <- <-]. split; [done |]. by rewrite app_nil_r. }
  rewrite bind_run.
  destruct (find_existing_contacts ids s) as (m & ev1 & -> & Hev1 & _ & Hcomplete).
  destruct (sync_persons _ _ _ _ _ _ s) as [[r2 s2] ev2] eqn:Hrun.
  apply sync_persons_rerun in Hrun as [-> Hev2].
  - unfold prepend. cbn. intros [= <- <- <-]. split; [done |].
    rewrite !Forall_app. by repeat split.
  - intros p Hin Hne. apply Hcomplete.
    + by eapply contact_ids_mem.
    + destruct (cp_elba_id c); discriminate.
    + by eapply Hstored.
Qed.

Lemma sync_counterparties_stores (cps : list json) :
  plain_ids cps →
  ∀ (existing : gmap string string) (s : crm) s' ev,
    sound_map (crm_companies s) existing →
    sync_counterparties crm_post elba_get fuel org cps existing s = (Ok tt, s', ev) →
    grows s s' ∧ covered s' cps.
Proof.
  induction cps as [| cp rest IH]; intros Hplain existing s s' ev Hsound;
    cbn [sync_counterparties].
  { intros [= <- <-]. split; [apply grows_refl |]. intros c Hin.
    by apply elem_of_nil in Hin. }
  assert (plain_ids rest) as Hplain'
    by (intros c persons Hin; apply Hplain; by apply list_elem_of_further).
  specialize (IH Hplain').
  destruct cp as [| | | | | c]; try done.
  destruct (String.eqb_spec (cp_elba_id c) "") as [Hnone | Hsome].
  { rewrite bind_run. cbn.
    destruct (sync_counterparties _ _ _ _ rest existing s) as [[r1 s1] ev1] eqn:Hrun.
    unfold prepend. cbn. intros [= -> <- <-].
    destruct (IH _ _ _ _ Hsound Hrun) as [Hg Hcov]. split; [done |].
    intros c' Hin Hne. apply elem_of_cons in Hin as [[= ->] | Hin]; [done |].
    by apply Hcov. }
  rewrite bind_run.
  destruct (sync_company _ _ _ _ s) as [[[[company_id existing'] | e |] s1] ev1] eqn:Hco;
    [| done ..].
  apply sync_company_stores in Hco as [Hg1 Hco]; [| done].
  destruct (Hco _ _ eq_refl) as [Hcompany Hsound1].
  rewrite bind_run. cbn [fst snd].
  destruct (sync_contacts _ _ _ _ _ _ _ s1) as [[[[] | e |] s2] ev2] eqn:Hct;
    [| done ..].
  apply sync_contacts_stores in Hct as [Hg2 Hct];
    [| intros persons; apply Hplain, list_elem_of_here].
  destruct (sync_counterparties _ _ _ _ rest existing' s2) as [[r3 s3] ev3] eqn:Hrun.
  unfold prepend. cbn. intros [= -> <- <-].
  apply IH in Hrun as [Hg3 Hcov];
    [| by eapply sound_map_grows; [apply Hg2 |]].
  split; [eauto using grows_trans |].
  intros c' Hin Hne. apply elem_of_cons in Hin as [[= ->] | Hin]; [| by apply Hcov].
  split.
  - by apply Hg3, Hg2.
  - intros persons p Hgath Hp Hpid. apply Hg3. by eapply Hct.
Qed.

Lemma sync_counterparties_rerun (cps : list json) :
  ∀ (existing : gmap string string) (s : crm) r s' ev,
    covered s cps →
    (∀ c, JObj c ∈ cps → cp_elba_id c ≠ "" →
          ∃ found, existing !! cp_elba_id c = Some found ∧ found ≠ "") →
    sync_counterparties crm_post elba_get fuel org cps existing s = (r, s', ev) →
    s' = s ∧ Forall no_creation ev.
Proof.
  induction cps as [| cp rest IH]; intros existing s r s' ev Hcov Hmap;
    cbn [sync_counterparties].
  { by intros [= <- <- <-]. }
  assert (covered s rest) as Hcov'
    by (intros c Hin; apply Hcov; by apply list_elem_of_further).
  assert (∀ c, JObj c ∈ rest → cp_elba_id c ≠ "" →
               ∃ found, existing !! cp_elba_id c = Some found ∧ found ≠ "") as Hmap'
    by (intros c Hin; apply Hmap; by apply list_elem_of_further).
  destruct cp as [| | | | | c]; try by intros [= <- <- <-].
  destruct (String.eqb_spec (cp_elba_id c) "") as [Hnone | Hsome].
  { rewrite bind_run. cbn.
    destruct (sync_counterparties _ _ _ _ rest existing s) as [[r1 s1] ev1] eqn:Hrun.
    apply IH in Hrun as [-> Hev]; [| done ..].
    unfold prepend. cbn. intros [= <- <- <-]. split; [done |]. by constructor. }
  destruct (Hmap c (list_elem_of_here _ _) Hsome) as (found & Hfound & Hne).
  destruct (Hcov c (list_elem_of_here _ _) Hsome) as [_ Hcontacts].
  rewrite bind_run, (sync_company_rerun _ _ _ _ _ Hfound Hne), bind_run. cbn [fst snd].
  destruct (sync_contacts _ _ _ _ _ _ _ s) as [[r2 s2] ev2] eqn:Hct.
  apply sync_contacts_rerun in Hct as [-> Hev2]; [| done].
  destruct r2 as [[] | e |].
  - destruct (sync_counterparties _ _ _ _ rest existing s) as [[r3 s3] ev3] eqn:Hrun.
    apply IH in Hrun as [-> Hev3]; [| done ..].
    unfold prepend. cbn. intros [= <- <- <-]. split; [done |].
    constructor; [done |]. rewrite Forall_app. by split.
  - unfold prepend. cbn. intros [= <- <- <-]. split; [done |]. by constructor.
  - unfold prepend. cbn. intros [= <- <- <-]. split; [done |]. by constructor.
Qed.

End FirstRun.

(** *** Two runs *)

Lemma bind_ok_inv {D A B} (m : M (D := D) A) (k : A -> M B) (s : D) b s2 ev :
  bind m k s = (Ok b, s2, ev) →
  ∃ a s1 ev1 ev2, m s = (Ok a, s1, ev1) ∧ k a s1 = (Ok b, s2, ev2) ∧ ev = ev1 ++ ev2.
Proof.
  rewrite bind_run. destruct (m s) as [[[a | e |] s1] ev1]; [| done ..].
  destruct (k a s1) as [[r s2'] ev2] eqn:Hk. unfold prepend. cbn.
  intros [= -> -> <-]. by exists a, s1, ev1, ev2.
Qed.

Lemma company_ids_mem (cps : list json) :
  ∀ ids c, company_ids cps = inr ids → JObj c ∈ cps → cp_elba_id c ∈ ids.
Proof.
  induction cps as [| cp rest IH]; intros ids c; cbn [company_ids].
  - intros _ Hin. by apply elem_of_nil in Hin.
  - destruct cp as [| | | | | c0]; try done.
    destruct (company_ids rest) as [e | ids'] eqn:Hrest; [done |].
    intros [= <-] Hin. apply elem_of_cons in Hin as [[= ->] | Hin].
    + apply list_elem_of_here.
    + by apply list_elem_of_further, IH.
Qed.

Lemma no_creation_filter (ev : list event) :
  Forall no_creation ev → List.filter is_creation ev = [].
Proof.
  induction 1 as [| e ev He _ IH]; [done |]. cbn. unfold no_creation in He.
  by rewrite He.
Qed.

(** Goals of the form [Forall P (e :: ev1 ++ ev2 ...)] from their parts. *)
Ltac forall_events :=
  cbn;
  repeat first
    [ assumption
    | apply Forall_nil_2
    | apply Forall_app_2
    | apply Forall_cons_2; [done |] ].

Section TwoRuns.

Variable elba_get : string -> list (string * Z) -> response.
Variable fuel : nat.

Abbreviation source_org := (source_org elba_get).
Abbreviation source_counterparties := (source_counterparties elba_get fuel).

Lemma organization_run (s : crm) :
  ∃ ev, get_organization_id elba_get s = (source_org, s, ev) ∧ Forall no_creation ev.
Proof.
  destruct (stateless_get_organization_id (D := crm) elba_get) as (r & ev & Hrun).
  unfold source_org. rewrite (Hrun crm_empty). exists ev. split; [apply Hrun |].
  destruct (calm_get_organization_id crm_post elba_get _ _ _ crm_rules crm_empty) as [Hev _].
  by rewrite Hrun in Hev.
Qed.

Lemma counterparties_run (org : json) (s : crm) :
  ∃ ev, get_elba_counterparties elba_get fuel org s = (source_counterparties org, s, ev)
        ∧ Forall no_creation ev.
Proof.
  destruct (stateless_probe_counterparties (D := crm) elba_get fuel
              (counterparty_endpoints org)) as (r & ev & Hrun).
  unfold source_counterparties, get_elba_counterparties. rewrite (Hrun crm_empty).
  exists ev. split; [apply Hrun |].
  destruct (calm_probe_counterparties crm_post elba_get _ _ _ crm_rules fuel
              (counterparty_endpoints org) crm_empty) as [Hev _].
  by rewrite Hrun in Hev.
Qed.

Lemma covered_same_records (org : json) (s s' : crm) (cps : list json) :
  same_records s s' → covered elba_get fuel org s cps → covered elba_get fuel org s' cps.
Proof. intros [H1 H2]. unfold covered. by rewrite H1, H2. Qed.

(** A completed run leaves every counterparty of the source covered. *)
Lemma main_first_run (s s1 : crm) (ev : list event) (org : json) (cps : list json) :
  main crm_post elba_get fuel s = (Ok tt, s1, ev) →
  source_org = Ok org → source_counterparties org = Ok cps →
  plain_ids elba_get fuel org cps →
  covered elba_get fuel org s1 cps.
Proof.
  intros Hrun Horg Hcps Hplain. unfold main, try_except in Hrun.
  match type of Hrun with
  | context [match ?body s with _ => _ end] =>
      destruct (body s) as [[[[] | e |] s1'] ev'] eqn:Hbody
  end; [| by rewrite bind_run in Hrun | done].
  injection Hrun as <- <-.
  apply bind_ok_inv in Hbody as (_ & ? & ? & ? & [= <- <-] & Hbody & _).
  apply bind_ok_inv in Hbody as ([] & sA & ? & ? & Hensure & Hbody & _).
  pose proof (ensure_userfields_reads s) as [_ Hsame]. rewrite Hensure in Hsame.
  apply bind_ok_inv in Hbody as (_ & ? & ? & ? & [= <- <-] & Hbody & _).
  apply bind_ok_inv in Hbody as (org' & ? & ? & ? & Horg' & Hbody & _).
  destruct (organization_run sA) as (? & Horun & _). rewrite Horun, Horg in Horg'.
  injection Horg' as <- <- <-.
  apply bind_ok_inv in Hbody as (_ & ? & ? & ? & [= <- <-] & Hbody & _).
  apply bind_ok_inv in Hbody as (_ & ? & ? & ? & [= <- <-] & Hbody & _).
  apply bind_ok_inv in Hbody as (cps' & ? & ? & ? & Hcps' & Hbody & _).
  destruct (counterparties_run org sA) as (? & Hcrun & _). rewrite Hcrun, Hcps in Hcps'.
  injection Hcps' as <- <- <-.
  apply bind_ok_inv in Hbody as (_ & ? & ? & ? & [= <- <-] & Hbody & _).
  destruct cps as [| cp cps].
  { intros c Hin. by apply elem_of_nil in Hin. }
  rewrite bind_lift in Hbody. destruct (company_ids _) as [e | ids]; [done |].
  apply bind_ok_inv in Hbody as (m & ? & ? & ? & Hfind & Hbody & _).
  destruct (find_existing_companies
              (List.filter (fun eid => negb (String.eqb eid "")) ids) sA)
    as (m' & ? & Hfind' & _ & Hsound & _).
  rewrite Hfind' in Hfind. injection Hfind as <- <- <-.
  apply bind_ok_inv in Hbody as ([] & s2 & ? & ? & Hloop & Hdone & _).
  injection Hdone as <-.
  by apply sync_counterparties_stores in Hloop as [_ Hcov].
Qed.

(** On a destination that covers the source, a run creates nothing. *)
Lemma main_rerun (s : crm) :
  (∀ org cps, source_org = Ok org → source_counterparties org = Ok cps →
              covered elba_get fuel org s cps) →
  same_records s (main crm_post elba_get fuel s).1.2
  ∧ Forall no_creation (main crm_post elba_get fuel s).2.
Proof.
  intros Hcov. unfold main, try_except.
  match goal with
  | |- context [match ?body s with _ => _ end] =>
      assert (same_records s (body s).1.2 ∧ Forall no_creation (body s).2) as [Hst Hev];
      [| destruct (body s) as [[[[] | e |] s1] ev1]; [done | | done]]
  end.
  2: { rewrite bind_run. cbn in *. split; [done | forall_events]. }
  rewrite bind_run. cbn [log emit]. rewrite bind_run.
  pose proof (ensure_userfields_reads s) as [Hev1 Hsame].
  destruct (ensure_userfields crm_post s) as [[[[] | e |] sA] ev1];
    [| cbn in *; split; [done | forall_events] ..].
  cbn [fst snd] in Hev1, Hsame. rewrite bind_run. cbn [log emit]. rewrite bind_run.
  destruct (organization_run sA) as (ev2 & -> & Hev2).
  destruct source_org as [org | e |] eqn:Horg;
    [| cbn; split; [done | forall_events] ..].
  rewrite bind_run. cbn [log emit]. rewrite bind_run. cbn [log emit]. rewrite bind_run.
  destruct (counterparties_run org sA) as (ev3 & -> & Hev3).
  destruct (source_counterparties org) as [cps | e |] eqn:Hcps;
    [| cbn; split; [done | forall_events] ..].
  specialize (Hcov org cps eq_refl Hcps).
  apply (covered_same_records _ _ _ _ Hsame) in Hcov.
  rewrite bind_run. cbn [log emit].
  destruct cps as [| cp cps].
  { cbn. split; [done | forall_events]. }
  rewrite bind_lift. destruct (company_ids _) as [e | ids] eqn:Hids.
  { cbn. split; [done | forall_events]. }
  rewrite bind_run.
  destruct (find_existing_companies
              (List.filter (fun eid => negb (String.eqb eid "")) ids) sA)
    as (m & ev4 & -> & Hev4 & Hsound & Hcomplete).
  rewrite bind_run.
  destruct (sync_counterparties _ _ _ _ _ m sA) as [[r5 s5] ev5] eqn:Hloop.
  apply sync_counterparties_rerun in Hloop as [-> Hev5]; [| done |].
  - destruct r5 as [[] | e |]; cbn; (split; [done | forall_events]).
  - intros c Hin Hne. destruct (Hcov c Hin Hne) as [Hstored _].
    destruct (Hcomplete (cp_elba_id c)) as [found Hfound]; [| done | done |].
    + rewrite list_elem_of_In. apply List.filter_In. split.
      * rewrite <- list_elem_of_In. by eapply company_ids_mem.
      * by destruct (String.eqb_spec (cp_elba_id c) "").
    + exists found. split; [done |]. by destruct (Hsound _ _ Hfound).
Qed.

End TwoRuns.

(** X28. Idempotence where the identity keys agree: if no person record
    relies on [personId] alone, a run that follows a completed run on the
    same source issues no creation request and leaves the number of records
    unchanged. *)
Theorem rerun_creates_nothing
    (elba_get : string -> list (string * Z) -> response) (fuel : nat)
    (s s1 : crm) (ev : list event) :
  main crm_post elba_get fuel s = (Ok tt, s1, ev) →
  (∀ org cps, source_org elba_get = Ok org →
              source_counterparties elba_get fuel org = Ok cps →
              plain_ids elba_get fuel org cps) →
  let run2 := main crm_post elba_get fuel s1 in
  List.filter is_creation run2.2 = [] ∧ crm_size run2.1.2 = crm_size s1.
Proof.
  intros Hrun Hplain run2.
  destruct (main_rerun elba_get fuel s1) as [[Hco Hct] Hev].
  { intros org cps Horg Hcps. eapply main_first_run; eauto. }
  split; [by apply no_creation_filter |].
  subst run2. unfold crm_size. by rewrite <- Hco, <- Hct.
Qed.

(** ** One company per key *)

Lemma company_rules :
  calm_rules crm_post (fun _ => True) same_companies
    (fun method => method ≠ "crm.company.add").
Proof.
  split; try done.
  - intros s1 s2 s3. unfold same_companies. congruence.
  - intros method body s Hne. split; [done |]. unfold crm_post, same_companies.
    repeat match goal with
           | |- context [String.eqb method ?x] =>
               destruct (String.eqb_spec method x) as [-> | _]; [by cbn |]
           end.
    done.
Qed.

Section OncePerKey.

Variable elba_get : string -> list (string * Z) -> response.
Variable fuel : nat.

Lemma stored_keys_cons (id : Z) (fields : list (string * json))
    (records : list (Z * list (string * json))) :
  stored_keys ((id, fields) :: records)
  = dict_get fields "UF_CRM_ELBA_ID" :: stored_keys records.
Proof. done. Qed.

Lemma fresh_keys_nil (before : list (Z * list (string * json))) : fresh_keys before [].
Proof. split; [constructor |]. intros k Hk. by apply elem_of_nil in Hk. Qed.

Lemma sync_counterparties_once (org : json) (cps : list json) :
  ∀ (existing : gmap string string) (s : crm),
    complete_map existing s cps →
    ∃ added,
      crm_companies (sync_counterparties crm_post elba_get fuel org cps existing s).1.2
      = crm_companies s ++ added
      ∧ fresh_keys (crm_companies s) added.
Proof.
  induction cps as [| cp rest IH]; intros existing s Hmap; cbn [sync_counterparties].
  { exists []. split; [by rewrite app_nil_r | apply fresh_keys_nil]. }
  destruct cp as [| | | | | c];
    try (exists []; split; [by rewrite app_nil_r | apply fresh_keys_nil]).
  destruct (String.eqb_spec (cp_elba_id c) "") as [Hnone | Hsome].
  { rewrite bind_run. cbn. apply IH. intros c' Hin. apply Hmap.
    by apply list_elem_of_further. }
  rewrite bind_run. unfold sync_company.
  destruct (String.eqb_spec (default "" (existing !! cp_elba_id c)) "") as [Hmiss | Hfound];
    cbn [negb].
  - (* not in the map: the company is created *)
    assert (¬ stored (crm_companies s) (cp_elba_id c)) as Hnew.
    { intros Hst. destruct (Hmap c (list_elem_of_here _ _) Hsome Hst) as (found & Hk & Hne).
      rewrite Hk in Hmiss. by cbn in Hmiss. }
    rewrite bind_lift.
    destruct (map_company_fields_from_cp (JObj c)) as [e | fields] eqn:Hfields.
    { exists []. split; [by rewrite app_nil_r | apply fresh_keys_nil]. }
    rewrite bind_run. destruct (create_company_crm fields s) as [ev0 ->].
    rewrite bind_run. cbn [log emit prepend fst snd ret]. rewrite bind_run.
    match goal with
    | |- context [sync_contacts _ _ _ _ _ _ ?cid ?s1] =>
        destruct (calm_sync_contacts crm_post elba_get _ _ _ company_rules fuel org c
                    (cp_elba_id c) cid ltac:(done) ltac:(done) s1) as [_ Hsame];
        destruct (sync_contacts crm_post elba_get fuel org c (cp_elba_id c) cid s1)
          as [[r2 s2] ev2]
    end.
    unfold same_companies in Hsame. cbn [fst snd crm_companies] in Hsame.
    assert (dict_get fields "UF_CRM_ELBA_ID" = JStr (cp_elba_id c)) as Hkey
      by (unfold dict_get; by rewrite (company_key _ _ Hfields)).
    destruct r2 as [[] | e |]; cbn [prepend fst snd];
      try (exists [(crm_next s, fields)]; rewrite <- Hsame; split; [done |];
           split; [rewrite stored_keys_cons, Hkey; apply NoDup_singleton |];
           rewrite stored_keys_cons, Hkey; intros k Hk;
           apply list_elem_of_singleton in Hk; by injection Hk as ->).
    match goal with
    | |- context [sync_counterparties _ _ _ _ rest ?m s2] =>
        destruct (IH m s2) as (added & Hrest & Hnodup & Hfresh)
    end.
    { intros c' Hin Hne' Hst. rewrite <- Hsame in Hst.
      destruct (decide (cp_elba_id c' = cp_elba_id c)) as [-> | Hdiff].
      - rewrite lookup_insert_eq. eexists. split; [done | apply pretty_Z_nonempty].
      - rewrite lookup_insert_ne by done. apply Hmap; [by apply list_elem_of_further | done |].
        destruct Hst as (record & Hrec & Hk). apply elem_of_app in Hrec as [Hrec | Hrec];
          [by exists record |].
        apply list_elem_of_singleton in Hrec as ->. cbn [snd] in Hk.
        rewrite Hkey in Hk. injection Hk as Heq. by destruct Hdiff. }
    exists ((crm_next s, fields) :: added). cbn [prepend fst snd].
    rewrite Hrest, <- Hsame, <- app_assoc. split; [done |].
    assert (stored (crm_companies s2) (cp_elba_id c)) as Hnow.
    { rewrite <- Hsame. exists (crm_next s, fields).
      split; [apply elem_of_app; right; apply list_elem_of_here | done]. }
    split.
    + rewrite stored_keys_cons, Hkey. apply NoDup_cons_2; [| done].
      intros Hin. by apply (Hfresh _ Hin).
    + rewrite stored_keys_cons, Hkey. intros k Hk.
      apply elem_of_cons in Hk as [[= ->] | Hk]; [done |].
      intros Hst. apply (Hfresh _ Hk). rewrite <- Hsame. by apply stored_app.
  - (* found in the map: nothing is created for the company *)
    cbn [log emit bind prepend fst snd ret]. rewrite bind_run.
    match goal with
    | |- context [sync_contacts _ _ _ _ _ _ ?cid s] =>
        destruct (calm_sync_contacts crm_post elba_get _ _ _ company_rules fuel org c
                    (cp_elba_id c) cid ltac:(done) ltac:(done) s) as [_ Hsame];
        destruct (sync_contacts crm_post elba_get fuel org c (cp_elba_id c) cid s)
          as [[r2 s2] ev2]
    end.
    unfold same_companies in Hsame. cbn [fst snd] in Hsame.
    destruct r2 as [[] | e |]; cbn [prepend fst snd];
      try (exists []; rewrite <- Hsame; split; [by rewrite app_nil_r | apply fresh_keys_nil]).
    destruct (IH existing s2) as (added & Hrest & Hfresh).
    { intros c' Hin Hne' Hst. rewrite <- Hsame in Hst. apply Hmap; [| done ..].
      by apply list_elem_of_further. }
    exists added. rewrite Hrest, <- Hsame. split; [done |]. by rewrite Hsame.
Qed.

End OncePerKey.

(** X29. Within one run against the reference destination, the companies
    the run creates carry pairwise distinct keys, none of which was stored
    before the run: lookup-before-create and the update of the in-memory map
    keep one company per key, also when the source lists a counterparty
    twice. *)
Theorem companies_created_once
    (elba_get : string -> list (string * Z) -> response) (fuel : nat) (s : crm) :
  ∃ added,
    crm_companies (main crm_post elba_get fuel s).1.2 = crm_companies s ++ added
    ∧ fresh_keys (crm_companies s) added.
Proof.
  unfold main, try_except.
  match goal with
  | |- context [match ?body s with _ => _ end] =>
      assert (∃ added, crm_companies (body s).1.2 = crm_companies s ++ added
                       ∧ fresh_keys (crm_companies s) added) as (added & Hadd & Hfresh);
      [| destruct (body s) as [[[[] | e |] s1] ev1]; [by exists added | | by exists added]]
  end.
  2: { rewrite bind_run. cbn in *. by exists added. }
  assert (∀ s' : crm, crm_companies s' = crm_companies s →
            ∃ added, crm_companies s' = crm_companies s ++ added
                     ∧ fresh_keys (crm_companies s) added) as Hnone.
  { intros s' ->. exists []. split; [by rewrite app_nil_r | apply fresh_keys_nil]. }
  rewrite bind_run. cbn [log emit]. rewrite bind_run.
  destruct (calm_ensure_userfields crm_post _ _ _ company_rules
              ltac:(done) ltac:(done) ltac:(done) ltac:(done) s) as [_ Hsame].
  unfold same_companies in Hsame.
  destruct (ensure_userfields crm_post s) as [[[[] | e |] sA] ev1];
    [| by apply Hnone ..].
  cbn [fst snd] in Hsame. rewrite bind_run. cbn [log emit]. rewrite bind_run.
  destruct (organization_run elba_get sA) as (ev2 & -> & _).
  destruct (source_org elba_get) as [org | e |]; [| by apply Hnone ..].
  rewrite bind_run. cbn [log emit]. rewrite bind_run. cbn [log emit]. rewrite bind_run.
  destruct (counterparties_run elba_get fuel org sA) as (ev3 & -> & _).
  destruct (source_counterparties elba_get fuel org) as [cps | e |];
    [| by apply Hnone ..].
  rewrite bind_run. cbn [log emit].
  destruct cps as [| cp cps]; [by apply Hnone |].
  rewrite bind_lift. destruct (company_ids _) as [e | ids] eqn:Hids; [by apply Hnone |].
  rewrite bind_run.
  destruct (find_existing_companies
              (List.filter (fun eid => negb (String.eqb eid "")) ids) sA)
    as (m & ev4 & -> & _ & Hsound & Hcomplete).
  rewrite bind_run.
  destruct (sync_counterparties_once elba_get fuel org (cp :: cps) m sA)
    as (added & Hadd & Hfresh).
  { intros c Hin Hne Hst. destruct (Hcomplete (cp_elba_id c)) as [found Hfound];
      [| done | done |].
    - rewrite list_elem_of_In. apply List.filter_In. split.
      + rewrite <- list_elem_of_In. by eapply company_ids_mem.
      + by destruct (String.eqb_spec (cp_elba_id c) "").
    - exists found. split; [done |]. by destruct (Hsound _ _ Hfound). }
  exists added. rewrite Hsame.
  destruct (sync_counterparties _ _ _ _ _ m sA) as [[[[] | e |] s5] ev5];
    cbn in *; by split.
Qed.

(** The counterparty that lists person "7" twice: a second run creates
    nothing. *)
Example twins_rerun :
  let run1 := main crm_post twins_source 1 crm_empty in
  let run2 := main crm_post twins_source 1 run1.1.2 in
  List.filter is_creation run2.2 = [] ∧ crm_size run2.1.2 = crm_size run1.1.2.
Proof.
  apply (rerun_creates_nothing twins_source 1 crm_empty _
           (main crm_post twins_source 1 crm_empty).2).
  - by vm_compute.
  - intros org cps [= <-] [= <-] c persons Hin.
    apply list_elem_of_singleton in Hin as [= ->]. intros [= <-].
    repeat constructor; by left.
Defined.

(** * Further properties *)

(** ** Chunking *)

Lemma chunks_nil {A} (n size : nat) : chunks (A := A) n [] size = [].
Proof. by destruct n. Qed.

Lemma chunks_shape {A} (size : nat) :
  (0 < size)%nat → ∀ (n : nat) (l : list A), (length l ≤ n)%nat →
  length (chunks n l size) = ((length l + size - 1) / size)%nat
  ∧ Forall (fun g => (0 < length g ≤ size)%nat) (chunks n l size)
  ∧ ∀ i g, (S i < length (chunks n l size))%nat →
           chunks n l size !! i = Some g → length g = size.
Proof.
  intros Hsize. induction n as [| n IH]; intros l Hlen.
  - destruct l; [| cbn in Hlen; lia]. cbn. split; [| split; [constructor | intros; lia]].
    symmetry. apply Nat.div_small. lia.
  - cbn [chunks]. destruct l as [| x l].
    { cbn. split; [| split; [constructor | intros; lia]].
      symmetry. apply Nat.div_small. lia. }
    set (l0 := x :: l) in *.
    assert (0 < length l0)%nat as Hpos by (cbn; lia).
    destruct (IH (drop size l0)) as (Hc & Hf & Hfull).
    { rewrite length_drop. cbn in *. lia. }
    split; [| split].
    + cbn [length]. rewrite Hc, length_drop.
      destruct (decide (length l0 ≤ size)%nat) as [Hle | Hgt].
      * replace (length l0 - size + size - 1)%nat with (size - 1)%nat by lia.
        rewrite Nat.div_small by lia.
        apply (Nat.div_unique _ _ _ (length l0 - 1)); lia.
      * replace (length l0 + size - 1)%nat
          with ((length l0 - size + size - 1) + 1 * size)%nat by lia.
        rewrite Nat.div_add by lia. lia.
    + constructor; [| done]. rewrite length_take. lia.
    + intros [| i] g Hi Hg; cbn in Hi, Hg.
      * injection Hg as <-. rewrite length_take.
        destruct (drop size l0) as [| y rest] eqn:Hdrop.
        { rewrite chunks_nil in Hi. cbn in Hi. lia. }
        assert (0 < length (drop size l0))%nat as Hd by (rewrite Hdrop; cbn; lia).
        rewrite length_drop in Hd. lia.
      * apply (Hfull i g); [lia | done].
Qed.

(** X1. [chunked] loses nothing and keeps the order: for a positive size the
    groups, put end to end, are the list it was given. *)
Theorem chunked_concat {A} (iterable : list A) (size : nat) :
  (0 < size)%nat →
  ∃ groups, chunked iterable size = Some groups ∧ concat groups = iterable.
Proof.
  intros Hsize. destruct size as [| size]; [lia |].
  eexists. split; [done |]. apply chunks_concat; lia.
Qed.

Lemma chunked_concat_witness :
  ∃ groups, chunked [1; 2; 3; 4; 5] 2 = Some groups ∧ concat groups = [1; 2; 3; 4; 5].
Proof. apply (chunked_concat [1; 2; 3; 4; 5] 2). lia. Defined.

(** X2. [chunked] makes as many groups as the size requires, rounding up; no
    group is empty or longer than the size, and every group before the last is
    full. *)
Theorem chunked_group_sizes {A} (iterable : list A) (size : nat)
    (groups : list (list A)) :
  chunked iterable size = Some groups →
  length groups = ((length iterable + size - 1) / size)%nat
  ∧ Forall (fun g => (0 < length g ≤ size)%nat) groups
  ∧ ∀ i g, (S i < length groups)%nat → groups !! i = Some g → length g = size.
Proof.
  destruct size as [| size]; [done |]. cbn [chunked]. intros [= <-].
  apply chunks_shape; lia.
Qed.

Lemma chunked_group_sizes_witness :
  length [[1; 2]; [3; 4]; [5]] = ((length [1; 2; 3; 4; 5] + 2 - 1) / 2)%nat
  ∧ Forall (fun g => (0 < length g ≤ 2)%nat) [[1; 2]; [3; 4]; [5]]
  ∧ ∀ i g, (S i < length [[1; 2]; [3; 4]; [5]])%nat →
           [[1; 2]; [3; 4]; [5]] !! i = Some g → length g = 2%nat.
Proof. apply (chunked_group_sizes [1; 2; 3; 4; 5] 2). reflexivity. Defined.

(** ** Name parts *)

Lemma no_ascii_space_app (a b : string) :
  no_ascii_space a → no_ascii_space b → no_ascii_space (a +:+ b).
Proof.
  unfold no_ascii_space. intros Ha Hb. induction a as [| c a IH]; [done |].
  cbn in *. apply Forall_cons in Ha as [Hc Ha]. constructor; [done | by apply IH].
Qed.

Lemma space_width_zero (c : ascii) (s : string) :
  space_width (String c s) = 0%nat → is_ascii_space (N_of_ascii c) = false.
Proof.
  unfold space_width. cbn [list_ascii_of_string List.map].
  by destruct (is_ascii_space (N_of_ascii c)).
Qed.

Lemma split_from_no_space (s : string) :
  ∀ (skip : nat) (cur : string),
    no_ascii_space cur → Forall no_ascii_space (split_from s skip cur).
Proof.
  induction s as [| c s IH]; intros skip cur Hcur; cbn [split_from].
  - unfold flush_token. destruct (String.eqb cur ""); repeat constructor. done.
  - destruct skip as [| k]; [| by apply IH].
    destruct (space_width (String c s)) as [| k] eqn:Hw.
    + apply IH. apply no_ascii_space_app; [done |].
      constructor; [by eapply space_width_zero | constructor].
    + unfold flush_token. destruct (String.eqb cur "").
      * apply IH. constructor.
      * constructor; [done |]. apply IH. constructor.
Qed.

Lemma nth_no_space (parts : list string) (i : nat) :
  Forall no_ascii_space parts → no_ascii_space (nth i parts "").
Proof.
  intros H. revert i. induction H as [| x l Hx Hl IH]; intros [| i]; cbn;
    try done; by constructor.
Qed.

(** X3. The three name parts never contain a space, a tab, a line break or any
    other ASCII white space, whatever the input. *)
Theorem name_parts_have_no_white_space (full_name : json) :
  let parts := extract_name_parts full_name in
  no_ascii_space parts.1.1 ∧ no_ascii_space parts.1.2 ∧ no_ascii_space parts.2.
Proof.
  unfold extract_name_parts.
  destruct (negb (truthy full_name)); [cbn; repeat split; constructor |].
  assert (Forall no_ascii_space (py_split (py_str full_name))) as H.
  { apply split_from_no_space. constructor. }
  cbn [fst snd].
  repeat split; match goal with |- no_ascii_space (if ?b then _ else _) => destruct b end;
    try (by apply nth_no_space); constructor.
Qed.

(** ** Calls of the destination *)

Lemma bitrix_retry_shape {D} (bitrix_post : string -> json -> D -> reply * D)
    (method : string) (params : json) (attempts : nat) :
  ∀ s : D,
    let run := bitrix_retry bitrix_post attempts method params s in
    let body := py_or params (JObj []) in
    let failed := EPost method body ReplyFailure in
    (∃ n data,
        (n < attempts)%nat
        ∧ run.2 = replicate n failed ++ [EPost method body (ReplyJson data)]
        ∧ run.1.1 = match bitrix_result data with inl e => Raise e | inr v => Ok v end)
    ∨ (run.2 = replicate attempts failed ∧ run.1.1 = Raise RetryError).
Proof.
  induction attempts as [| n IH]; intros s; cbn zeta; [by right |].
  cbn [bitrix_retry]. rewrite bind_run. unfold bitrix_attempt.
  destruct (bitrix_post method _ s) as [[data |] s1].
  - left. exists 0%nat, data. split; [lia |].
    by destruct (bitrix_result data).
  - destruct (IH s1) as [(k & data & Hk & Hev & Hr) | [Hev Hr]].
    + left. exists (S k), data. split; [lia |].
      destruct (bitrix_retry _ n method params s1) as [[r s2] ev2]. cbn in *.
      by rewrite Hev, Hr.
    + right. destruct (bitrix_retry _ n method params s1) as [[r s2] ev2]. cbn in *.
      by rewrite Hev, Hr.
Qed.

(** X4. [bitrix_call] posts the same request at most three times. It tries
    again only after a transport failure; the first decoded answer decides the
    call (the result, or the error it reports), and three failures in a row
    end it with a [RetryError]. *)
Theorem bitrix_call_attempts {D} (bitrix_post : string -> json -> D -> reply * D)
    (method : string) (params : json) (s : D) :
  let run := bitrix_call bitrix_post method params s in
  let body := py_or params (JObj []) in
  let failed := EPost method body ReplyFailure in
  (∃ n data,
      (n < 3)%nat
      ∧ run.2 = replicate n failed ++ [EPost method body (ReplyJson data)]
      ∧ run.1.1 = match bitrix_result data with inl e => Raise e | inr v => Ok v end)
  ∨ (run.2 = [failed; failed; failed] ∧ run.1.1 = Raise RetryError).
Proof. apply (bitrix_retry_shape bitrix_post method params 3). Qed.

Lemma elem_of_methods (m : string) (ev : list event) :
  m ∈ methods ev ↔ ∃ params r, EPost m params r ∈ ev.
Proof.
  unfold methods, posts. split.
  - intros H. apply list_elem_of_fmap in H as ([m' r] & -> & H).
    apply list_elem_of_fmap in H as ([[m'' p] r'] & [= -> ->] & H). cbn.
    apply list_elem_of_omap in H as (e & He & Hm).
    destruct e as [| m0 p0 r0 |]; simplify_eq. by exists p, r'.
  - intros (p & r & H). apply list_elem_of_fmap. exists (m, p). split; [done |].
    apply list_elem_of_fmap. exists (m, p, r). split; [done |].
    apply list_elem_of_omap. by exists (EPost m p r).
Qed.

Lemma methods_app (ev1 ev2 : list event) : methods (ev1 ++ ev2) = methods ev1 ++ methods ev2.
Proof. unfold methods, posts. by rewrite omap_app, !fmap_app. Qed.

(** What a call leaves behind: requests of its own method only, at least
    one; a decoded answer among them decides the outcome, and a result comes
    from such an answer. *)
Lemma bitrix_call_cases {D} (bitrix_post : string -> json -> D -> reply * D)
    (method : string) (params : json) (s : D) :
  ∃ r s1 ev,
    bitrix_call bitrix_post method params s = (r, s1, ev)
    ∧ (∃ n, methods ev = replicate (S n) method)
    ∧ (∀ body data, EPost method body (ReplyJson data) ∈ ev →
         r = match bitrix_result data with inl e => Raise e | inr v => Ok v end)
    ∧ (∀ v, r = Ok v →
         ∃ data, EPost method (py_or params (JObj [])) (ReplyJson data) ∈ ev
                 ∧ bitrix_result data = inr v).
Proof.
  pose proof (bitrix_retry_shape bitrix_post method params 3 s) as Hshape.
  cbn zeta in Hshape. fold (bitrix_call bitrix_post method params s) in Hshape.
  destruct (bitrix_call bitrix_post method params s) as [[r s1] ev] eqn:Hrun.
  exists r, s1, ev. split; [done |]. cbn [fst snd] in Hshape.
  destruct Hshape as [(n & data & _ & -> & ->) | [-> ->]].
  - split; [| split].
    + exists n. rewrite methods_app. clear.
      induction n as [| n IH]; [done |].
      change (methods (replicate (S n) ?e)) with (method :: methods (replicate n e)).
      cbn [app]. by rewrite IH.
    + intros body d Hin. apply elem_of_app in Hin as [Hin | Hin].
      * by apply elem_of_replicate in Hin as [[=] _].
      * by apply list_elem_of_singleton in Hin as [= _ ->].
    + intros v Hv. exists data. split.
      * apply elem_of_app. right. apply list_elem_of_here.
      * by destruct (bitrix_result data); simplify_eq.
  - split; [by exists 2%nat |]. split; [| done].
    intros body d Hin. by apply elem_of_replicate in Hin as [[=] _].
Qed.

(** ** User fields *)

(** X5. [ensure_userfield] asks for the creation of the field exactly when the
    listing was answered without an error and shows no field of that name; a
    failed or refused listing never leads to a creation. *)
Theorem userfield_created_when_missing {D}
    (bitrix_post : string -> json -> D -> reply * D)
    (entity_type field_name label : string) (s : D) :
  let list_method := "crm." +:+ entity_type +:+ ".userfield.list" in
  let add_method := "crm." +:+ entity_type +:+ ".userfield.add" in
  let run := ensure_userfield bitrix_post entity_type field_name label s in
  add_method ∈ methods run.2
  ↔ ∃ params data res rows,
      EPost list_method params (ReplyJson data) ∈ run.2
      ∧ bitrix_result data = inr res
      ∧ rows_of res = inr rows
      ∧ any_field_named field_name rows = inr false.
Proof.
  intros list_method add_method run.
  assert (add_method ≠ list_method) as Hne.
  { subst add_method list_method. intros H.
    apply append_inj_l in H. apply append_inj_l in H. done. }
  subst run. unfold ensure_userfield. rewrite bind_run. fold list_method.
  set (filter := JObj [("filter", JObj [("FIELD_NAME", JStr field_name)])]).
  destruct (bitrix_call_cases bitrix_post list_method filter s)
    as (r & s1 & ev1 & -> & [n Hm] & Hdec & Hok).
  assert (add_method ∉ methods ev1) as Hnot.
  { rewrite Hm. intros H. by apply elem_of_replicate in H as [? _]. }
  destruct r as [res | e |].
  2, 3: split; [done |]; intros (params & data & res & rows & Hin & Hres & _);
        apply Hdec in Hin; by rewrite Hres in Hin.
  destruct (Hok res eq_refl) as (data & Hdata & Hres).
  assert (∀ params d res', EPost list_method params (ReplyJson d) ∈ ev1 →
            bitrix_result d = inr res' → res' = res) as Hsame.
  { intros params d res' Hin Hr. apply Hdec in Hin. rewrite Hr in Hin. by simplify_eq. }
  unfold prepend. rewrite bind_lift.
  destruct (rows_of res) as [e | rows] eqn:Hrows.
  { cbn [fst snd]. rewrite app_nil_r. split; [done |].
    intros (params & d & res' & rows & Hin & Hr & Hrows' & _).
    rewrite (Hsame _ _ _ Hin Hr) in Hrows'. congruence. }
  rewrite bind_lift.
  destruct (any_field_named field_name rows) as [e | found] eqn:Hfound.
  { cbn [fst snd]. rewrite app_nil_r. split; [done |].
    intros (params & d & res' & rows' & Hin & Hr & Hrows' & Hf).
    rewrite (Hsame _ _ _ Hin Hr) in Hrows'. congruence. }
  destruct found.
  { cbn [fst snd ret]. rewrite app_nil_r. split; [done |].
    intros (params & d & res' & rows' & Hin & Hr & Hrows' & Hf).
    rewrite (Hsame _ _ _ Hin Hr) in Hrows'. congruence. }
  split.
  - intros _. exists filter, data, res, rows. repeat split; try done.
    cbn [snd]. apply elem_of_app. by left.
  - intros _. cbn [snd]. rewrite methods_app. apply elem_of_app. right.
    rewrite bind_run. unfold create_bitrix_userfield. fold add_method.
    match goal with
    | |- context [bitrix_call bitrix_post add_method ?b s1] =>
        destruct (bitrix_call_cases bitrix_post add_method b s1)
          as (r2 & s2 & ev2 & -> & [k Hk] & _ & _)
    end.
    assert (add_method ∈ methods ev2) as H2 by (rewrite Hk; apply list_elem_of_here).
    destruct r2; unfold prepend, log, emit; cbn [fst snd];
      rewrite ?methods_app; try apply elem_of_app; auto.
Qed.

(** ** Reading the source *)

(** X6. [get_organization_id] sends one request, for one organization, and
    never repeats it; it leaves the destination alone, and when it raises it
    has logged that error, once, after the request. *)
Theorem organization_requested_once {D}
    (elba_get : string -> list (string * Z) -> response) (s : D) :
  let run := get_organization_id elba_get s in
  let request := EGet (ELBA_API_BASE +:+ "/organizations") [("limit", 1)] in
  run.1.2 = s
  ∧ match run.1.1 with
    | Ok _ => run.2 = [request]
    | Raise e => run.2 = [request; ELog LError (MsgOrganizationFailed e)]
    | NoFuel => False
    end.
Proof.
  unfold get_organization_id, try_except. rewrite bind_run. unfold elba_request.
  destruct (elba_get _ _) as [data0 | status |]; [| done ..].
  destruct (py_or data0 (JObj [])) as [| | | | | data]; try done.
  destruct (negb (truthy _)); [done |].
  destruct (py_or _ (JList [])) as [| | | | [| [] ?] |]; done.
Qed.

(** X7. [get_organization_id] raises its own error, that no organization was
    found, exactly when the answer is decoded and holds neither a truthy
    [organizations] nor a truthy [items]. *)
Theorem organization_not_found {D}
    (elba_get : string -> list (string * Z) -> response) (s : D) :
  (get_organization_id elba_get s).1.1 = Raise OrganizationNotFound
  ↔ ∃ data0 data,
      elba_get (ELBA_API_BASE +:+ "/organizations") [("limit", 1)] = RespJson data0
      ∧ py_or data0 (JObj []) = JObj data
      ∧ truthy (dict_get data "organizations") = false
      ∧ truthy (dict_get data "items") = false.
Proof.
  unfold get_organization_id, try_except. rewrite bind_run. unfold elba_request.
  destruct (elba_get _ _) as [data0 | status |].
  2, 3: split; [done | by intros (? & ? & [=] & _)].
  destruct (py_or data0 (JObj [])) as [| | | | | data] eqn:Hdata.
  1-5: split; [done | intros (d0 & d & [= <-] & Hd & _); congruence].
  assert (∀ Q : Prop,
            (Q ↔ truthy (dict_get data "organizations") = false
                 ∧ truthy (dict_get data "items") = false) →
            Q ↔ ∃ d0 d, RespJson data0 = RespJson d0 ∧ py_or d0 (JObj []) = JObj d
                        ∧ truthy (dict_get d "organizations") = false
                        ∧ truthy (dict_get d "items") = false) as Hiff.
  { intros Q HQ. rewrite HQ. split.
    - intros [? ?]. by exists data0, data.
    - intros (d0 & d & [= <-] & Hd & ? & ?). rewrite Hdata in Hd. by injection Hd as <-. }
  apply Hiff. clear Hiff.
  set (orgs := py_or (py_or (dict_get data "organizations") (dict_get data "items"))
                 (JList [])).
  assert (truthy orgs = truthy (dict_get data "organizations")
                        || truthy (dict_get data "items")) as Horgs.
  { subst orgs. unfold py_or.
    destruct (truthy (dict_get data "organizations")) eqn:Ho; rewrite ?Ho; [done |].
    by destruct (truthy (dict_get data "items")) eqn:Hi; rewrite ?Hi. }
  destruct (truthy orgs) eqn:Ht; cbn [negb].
  - symmetry in Horgs. apply orb_true_iff in Horgs.
    split; [| intros [? ?]; destruct Horgs; congruence].
    destruct orgs as [| | | | [| [] ?] |]; done.
  - symmetry in Horgs. apply orb_false_iff in Horgs. by cbn.
Qed.

Lemma posts_none (ev : list event) :
  Forall (fun e => ∀ method params r, e ≠ EPost method params r) ev → posts ev = [].
Proof.
  induction 1 as [| e ev He _ IH]; [done |]. unfold posts in *. cbn.
  destruct e as [| method params r |]; [done | | done]. by destruct (He method params r).
Qed.

Lemma source_rules {D} (bitrix_post : string -> json -> D -> reply * D) :
  calm_rules bitrix_post (fun e => ∀ method params r, e ≠ EPost method params r) eq
    (fun _ => False).
Proof. split; try done. by intros s1 s2 s3 -> ->. Qed.

Lemma fetch_pages_no_raise {D} (elba_get : string -> list (string * Z) -> response)
    (url : string) (params : list (string * Z)) (item_keys : list string) (limit : Z)
    (fuel : nat) :
  ∀ (items : list json) (skip : Z) (s : D) (e : exn),
    (fetch_pages elba_get fuel url params item_keys limit items skip s).1.1 ≠ Raise e.
Proof.
  induction fuel as [| fuel IH]; intros items skip s e; [done |].
  cbn [fetch_pages]. rewrite bind_run. unfold elba_request.
  destruct (elba_get url _) as [data0 | status |]; [| done ..].
  destruct (extract_batch _ _) as [batch |]; [| done].
  rewrite bind_run. cbn [log emit]. destruct (_ <? _); [done |].
  unfold prepend. cbn [fst snd]. apply IH.
Qed.

Lemma pagination_quiet {D} (elba_get : string -> list (string * Z) -> response)
    (fuel : nat) (url : string) (params : list (string * Z)) (item_keys : list string)
    (s : D) :
  posts (fetch_all_paginated elba_get fuel url params item_keys s).2 = [].
Proof.
  unfold fetch_all_paginated.
  destruct (calm_fetch_pages (fun _ _ s => (ReplyFailure, s)) elba_get _ _ _
              (source_rules _) fuel url params item_keys
              (default 100 (assoc params "limit")) [] 0 s) as [Hev _].
  by apply posts_none.
Qed.

(** X8. [fetch_all_paginated] never raises, whatever the source answers: every
    failure ends the loop instead. It sends nothing to the destination and
    leaves it as it was. *)
Theorem pagination_never_raises {D}
    (elba_get : string -> list (string * Z) -> response) (fuel : nat) (url : string)
    (params : list (string * Z)) (item_keys : list string) (s : D) :
  let run := fetch_all_paginated elba_get fuel url params item_keys s in
  (∀ e, run.1.1 ≠ Raise e) ∧ run.1.2 = s ∧ posts run.2 = [].
Proof.
  cbn zeta. unfold fetch_all_paginated. split; [intros e; apply fetch_pages_no_raise |].
  destruct (calm_fetch_pages (fun _ _ s => (ReplyFailure, s)) elba_get _ _ _
              (source_rules _) fuel url params item_keys
              (default 100 (assoc params "limit")) [] 0 s) as [Hev Hst].
  split; [done | by apply posts_none].
Qed.

Lemma probe_counterparties_no_raise {D}
    (elba_get : string -> list (string * Z) -> response) (fuel : nat)
    (candidates : list string) :
  ∀ (s : D) (e : exn), (probe_counterparties elba_get fuel candidates s).1.1 ≠ Raise e.
Proof.
  induction candidates as [| endpoint rest IH]; intros s e; [done |].
  cbn [probe_counterparties]. rewrite bind_run. unfold fetch_all_paginated.
  pose proof (fetch_pages_no_raise (D := D) elba_get endpoint [("limit", 100)]
                ["items"; "counterparties"; "contractors"]
                (default 100 (assoc [("limit", 100)] "limit")) fuel [] 0 s) as H.
  destruct (fetch_pages _ _ _ _ _ _ _ _ s) as [[[items | e' |] s1] ev1]; [| | done].
  - destruct items; rewrite bind_run; cbn [log emit prepend fst snd]; [| done].
    unfold prepend. cbn [fst snd]. apply IH.
  - by destruct (H e').
Qed.

Lemma probe_contacts_no_raise {D}
    (elba_get : string -> list (string * Z) -> response) (fuel : nat)
    (candidates : list string) :
  ∀ (s : D) (e : exn), (probe_contacts elba_get fuel candidates s).1.1 ≠ Raise e.
Proof.
  induction candidates as [| endpoint rest IH]; intros s e; [done |].
  cbn [probe_contacts]. rewrite bind_run. unfold fetch_all_paginated.
  pose proof (fetch_pages_no_raise (D := D) elba_get endpoint [("limit", 100)]
                ["items"; "contacts"]
                (default 100 (assoc [("limit", 100)] "limit")) fuel [] 0 s) as H.
  destruct (fetch_pages _ _ _ _ _ _ _ _ s) as [[[items | e' |] s1] ev1]; [| | done].
  - destruct items; [| done]. unfold prepend. cbn [fst snd]. apply IH.
  - by destruct (H e').
Qed.

(** X9. Neither listing of the source ever raises: a counterparty listing or a
    contact listing that meets failures on every endpoint comes back empty.
    Both send nothing to the destination and leave it as it was. *)
Theorem source_listings_never_raise {D}
    (elba_get : string -> list (string * Z) -> response) (fuel : nat)
    (org : json) (cp_id : string) (s : D) :
  let counterparties := get_elba_counterparties elba_get fuel org s in
  let contacts := get_elba_contacts_for_counterparty elba_get fuel org cp_id s in
  ((∀ e, counterparties.1.1 ≠ Raise e)
   ∧ counterparties.1.2 = s ∧ posts counterparties.2 = [])
  ∧ ((∀ e, contacts.1.1 ≠ Raise e) ∧ contacts.1.2 = s ∧ posts contacts.2 = []).
Proof.
  cbn zeta. unfold get_elba_counterparties, get_elba_contacts_for_counterparty. split.
  - split; [intros e; apply probe_counterparties_no_raise |].
    destruct (calm_probe_counterparties (fun _ _ s => (ReplyFailure, s)) elba_get _ _ _
                (source_rules _) fuel (counterparty_endpoints org) s) as [Hev Hst].
    split; [done | by apply posts_none].
  - split; [intros e; apply probe_contacts_no_raise |].
    destruct (calm_probe_contacts (fun _ _ s => (ReplyFailure, s)) elba_get _ _ _
                (source_rules _) fuel (contact_endpoints org cp_id) s) as [Hev Hst].
    split; [done | by apply posts_none].
Qed.

(** X10. Nothing bounds the number of pages: against a source that answers
    every offset with a full page the loop does not end, and any bound on the
    number of requests is used up, one request per page. *)
Theorem pagination_has_no_page_cap {D}
    (elba_get : string -> list (string * Z) -> response) (url : string)
    (params : list (string * Z)) (item_keys : list string) (fuel : nat) (s : D) :
  let limit := default 100 (assoc params "limit") in
  (∀ i, full_page elba_get url params item_keys limit i) →
  let run := fetch_all_paginated elba_get fuel url params item_keys s in
  run.1.1 = NoFuel
  ∧ requested run.2 = replicate fuel url
  ∧ offsets run.2 = List.map (fun i => Some (Z.of_nat i * limit)) (seq 0 fuel).
Proof.
  intros limit Hfull run.
  destruct (fetch_pages_full_run elba_get url params item_keys limit fuel 0 0 [] s)
    as (ev & Hrun & Hg & _); [by intros |].
  subst run. unfold fetch_all_paginated. fold limit.
  rewrite Nat.add_0_r in Hrun. change (Z.of_nat 0 * limit) with 0 in Hrun.
  rewrite Hrun. cbn [fetch_pages out_of_fuel prepend fst snd]. rewrite app_nil_r.
  split; [done |]. by apply offsets_page_gets in Hg as [-> ->].
Qed.

Lemma pagination_has_no_page_cap_witness :
  let elba_get := fun (_ : string) (_ : list (string * Z)) =>
                    RespJson (JObj [("items", JList (replicate 100 JNull))]) in
  let run := fetch_all_paginated elba_get 3 "u" [("limit", 100)] ["items"] crm_empty in
  run.1.1 = NoFuel
  ∧ requested run.2 = replicate 3 "u"
  ∧ offsets run.2 = List.map (fun i => Some (Z.of_nat i * 100)) (seq 0 3).
Proof.
  apply (pagination_has_no_page_cap (D := crm)
           (fun _ _ => RespJson (JObj [("items", JList (replicate 100 JNull))]))
           "u" [("limit", 100)] ["items"] 3 crm_empty).
  intros i. exists (replicate 100 JNull). split; [reflexivity | cbn; lia].
Defined.

(** X11. A page whose body is a bare JSON array is not taken as the batch when
    there are keys to try: looking the first key up fails, the failure is
    logged as a warning, and the items of that page are lost. *)
Theorem bare_array_page_is_dropped {D}
    (elba_get : string -> list (string * Z) -> response) (fuel : nat) (url : string)
    (params : list (string * Z)) (key : string) (keys : list string)
    (x : json) (l : list json) (s : D) :
  let limit := default 100 (assoc params "limit") in
  elba_get url (page_params params limit 0) = RespJson (JList (x :: l)) →
  fetch_all_paginated elba_get (S fuel) url params (key :: keys) s
  = (Ok [], s, [EGet url (page_params params limit 0);
                ELog LWarning (MsgPaginationError url AttributeError)]).
Proof.
  intros limit Hget. unfold fetch_all_paginated. fold limit.
  cbn [fetch_pages]. rewrite bind_run. unfold elba_request.
  change (assoc_set (assoc_set params "skip" 0) "limit" limit)
    with (page_params params limit 0).
  by rewrite Hget.
Qed.

Lemma bare_array_page_is_dropped_witness :
  fetch_all_paginated (fun _ _ => RespJson (JList [JObj [("id", JStr "1")]])) 1 "u"
    [("limit", 100)] ["items"; "contacts"] crm_empty
  = (Ok [], crm_empty,
     [EGet "u" (page_params [("limit", 100)] 100 0);
      ELog LWarning (MsgPaginationError "u" AttributeError)]).
Proof.
  apply (bare_array_page_is_dropped (D := crm)
           (fun _ _ => RespJson (JList [JObj [("id", JStr "1")]])) 0 "u"
           [("limit", 100)] "items" ["contacts"] (JObj [("id", JStr "1")]) [] crm_empty).
  reflexivity.
Defined.

Lemma probe_counterparties_all_empty {D}
    (elba_get : string -> list (string * Z) -> response) (fuel : nat) (s : D)
    (candidates : list string) :
  (∀ e, e ∈ candidates →
        (fetch_all_paginated elba_get fuel e [("limit", 100)]
           ["items"; "counterparties"; "contractors"] s).1.1 = Ok []) →
  let run := probe_counterparties elba_get fuel candidates s in
  run.1.1 = Ok []
  ∧ requested run.2 = candidates
  ∧ last run.2 = Some (ELog LError MsgNoCounterparties).
Proof.
  induction candidates as [| endpoint rest IH]; intros Hempty; [done |].
  destruct (fetch_outcome_empty elba_get fuel endpoint _ s
              (Hempty endpoint ltac:(apply list_elem_of_here))) as (ev & Hrun & Hreq).
  cbn zeta. rewrite (probe_counterparties_miss elba_get fuel endpoint rest s ev Hrun).
  destruct IH as (Hr & Hq & Hl).
  { intros e He. apply Hempty. by apply list_elem_of_further. }
  unfold prepend. cbn [fst snd]. split; [done |]. split.
  - by rewrite !requested_app, Hreq, Hq.
  - rewrite last_app, Hl. done.
Qed.

(** X12. When none of the four counterparty endpoints yields an item, each of
    them is asked once, in the order of the candidate list, and the listing
    comes back empty after logging an error; it does not raise. *)
Theorem counterparties_unavailable {D}
    (elba_get : string -> list (string * Z) -> response) (fuel : nat)
    (org : json) (s : D) :
  (∀ e, e ∈ counterparty_endpoints org →
        (fetch_all_paginated elba_get fuel e [("limit", 100)]
           ["items"; "counterparties"; "contractors"] s).1.1 = Ok []) →
  let run := get_elba_counterparties elba_get fuel org s in
  run.1.1 = Ok []
  ∧ requested run.2 = counterparty_endpoints org
  ∧ last run.2 = Some (ELog LError MsgNoCounterparties).
Proof. apply probe_counterparties_all_empty. Qed.

Lemma counterparties_unavailable_witness :
  let run := get_elba_counterparties silent_source 1 (JStr "o1") crm_empty in
  run.1.1 = Ok []
  ∧ requested run.2 = counterparty_endpoints (JStr "o1")
  ∧ last run.2 = Some (ELog LError MsgNoCounterparties).
Proof.
  apply (counterparties_unavailable silent_source 1 (JStr "o1") crm_empty).
  intros e He. cbn in He.
  repeat (apply elem_of_cons in He as [-> | He]; [by vm_compute |]).
  by apply elem_of_nil in He.
Defined.

(** ** Mapped fields *)

Lemma name_of_nameless (x : string) :
  py_split ("Контакт " +:+ x) = "Контакт" :: py_split x.
Proof. reflexivity. Qed.

Lemma name_parts_of_nameless (x : string) :
  extract_name_parts (JStr ("Контакт " +:+ x))
  = ("Контакт", nth 0 (py_split x) "", nth 1 (py_split x) "").
Proof.
  unfold extract_name_parts. cbn [truthy py_str].
  change (negb (negb (String.eqb ("Контакт " +:+ x) ""))) with false. cbv iota.
  rewrite name_of_nameless. by destruct (py_split x) as [| w1 [| w2 ws]].
Qed.

Lemma py_or_truthy (a b : json) : truthy b = true → truthy (py_or a b) = true.
Proof. intros Hb. unfold py_or. by destruct (truthy a) eqn:Ha. Qed.

Lemma py_or_falsy (a b : json) : truthy a = false → py_or a b = b.
Proof. intros Ha. unfold py_or. by rewrite Ha. Qed.

Lemma company_title (cp fields : list (string * json)) :
  map_company_fields_from_cp (JObj cp) = inr fields →
  ∃ title,
    assoc fields "TITLE" = Some title
    ∧ truthy title = true
    ∧ (truthy (dict_get cp "shortName") = false →
       truthy (dict_get cp "name") = false →
       truthy (dict_get cp "inn") = false →
       title = JStr "Без названия").
Proof.
  intros Hmap. unfold map_company_fields_from_cp in Hmap.
  destruct (py_or (dict_get cp "contactInfo") (JObj [])); try discriminate.
  injection Hmap as <-. eexists. split; [| split].
  - rewrite add_phone_email_other by done.
    by destruct (truthy (py_or (dict_get cp "inn") (dict_get cp "INN"))).
  - by apply py_or_truthy.
  - intros H1 H2 H3. by rewrite (py_or_falsy _ _ H1), (py_or_falsy _ _ H2), (py_or_falsy _ _ H3).
Qed.

(** X13. The fields mapped for a company always carry the key under which
    [main] looks the company up, and a title that is not empty: the title
    falls back to a fixed text when the counterparty has no short name, no
    name and no tax number. *)
Theorem company_fields_key_and_title (cp fields : list (string * json)) :
  map_company_fields_from_cp (JObj cp) = inr fields →
  assoc fields "UF_CRM_ELBA_ID" = Some (JStr (cp_elba_id cp))
  ∧ ∃ title,
      assoc fields "TITLE" = Some title
      ∧ truthy title = true
      ∧ (truthy (dict_get cp "shortName") = false →
         truthy (dict_get cp "name") = false →
         truthy (dict_get cp "inn") = false →
         title = JStr "Без названия").
Proof. intros Hmap. split; [by apply company_key | by apply company_title]. Qed.

Lemma company_fields_key_and_title_witness :
  assoc [("TITLE", JStr "Acme"); ("UF_CRM_ELBA_ID", JStr "1")] "UF_CRM_ELBA_ID"
  = Some (JStr (cp_elba_id acme))
  ∧ ∃ title,
      assoc [("TITLE", JStr "Acme"); ("UF_CRM_ELBA_ID", JStr "1")] "TITLE" = Some title
      ∧ truthy title = true
      ∧ (truthy (dict_get acme "shortName") = false →
         truthy (dict_get acme "name") = false →
         truthy (dict_get acme "inn") = false →
         title = JStr "Без названия").
Proof. apply (company_fields_key_and_title acme). reflexivity. Defined.

(** X14. The only counterparty dict the company mapper fails on is one whose
    [contactInfo] is neither falsy nor a dict; the contact mapper accepts
    every pair of dicts. *)
Theorem mappers_fail_only_on_contact_info :
  (∀ cp : list (string * json),
     (∃ fields, map_company_fields_from_cp (JObj cp) = inr fields)
     ↔ (truthy (dict_get cp "contactInfo") = false
        ∨ ∃ info, dict_get cp "contactInfo" = JObj info))
  ∧ (∀ p cp : list (string * json),
       ∃ fields, map_contact_fields_from_person (JObj p) (JObj cp) = inr fields).
Proof.
  split.
  - intros cp. unfold map_company_fields_from_cp, py_or.
    destruct (truthy (dict_get cp "contactInfo")) eqn:Ht;
      [| split; [by left | by eexists]].
    destruct (dict_get cp "contactInfo") as [| | | | | info];
      (split; [intros [fields H] | intros [H | [info' H]]]);
      try done; try (by eexists); right; by eexists.
  - intros p cp. unfold map_contact_fields_from_person.
    destruct (extract_name_parts _) as [[? ?] ?]. by eexists.
Qed.

(** X15. When the person has a truthy [id], the key written into the contact
    is the one the contact is looked up by. *)
Theorem contact_key_agrees_with_own_id (p cp fields : list (string * json)) :
  truthy (dict_get p "id") = true →
  map_contact_fields_from_person (JObj p) (JObj cp) = inr fields →
  ∃ key,
    contact_ids (cp_elba_id cp) [JObj p] = inr [key]
    ∧ assoc fields "UF_CRM_ELBA_ID" = Some (JStr key).
Proof.
  intros Hid Hmap. exists (cp_elba_id cp +:+ ":" +:+ person_id p). split.
  - cbn. unfold py_or at 1. by rewrite Hid, Hid.
  - by apply contact_key_with_id.
Qed.

Lemma contact_key_agrees_with_own_id_witness :
  ∃ key,
    contact_ids (cp_elba_id twins) [JObj twin_person] = inr [key]
    ∧ assoc [("LAST_NAME", JStr "Ivanov"); ("NAME", JStr "Ivan"); ("SECOND_NAME", JStr "");
             ("UF_CRM_ELBA_ID", JStr "1:7")] "UF_CRM_ELBA_ID" = Some (JStr key).
Proof.
  apply (contact_key_agrees_with_own_id twin_person twins); reflexivity.
Defined.

(** X16. A person without [fullName], [fio] and [name] is given the last name
    "Контакт"; the first and middle names are what follows it, the first two
    words of the person's [id] (empty when there is no [id]). *)
Theorem nameless_person_is_called_contact (p cp fields : list (string * json)) :
  truthy (dict_get p "fullName") = false →
  truthy (dict_get p "fio") = false →
  truthy (dict_get p "name") = false →
  map_contact_fields_from_person (JObj p) (JObj cp) = inr fields →
  let words := py_split (py_str (py_or (dict_get p "id") (JStr ""))) in
  assoc fields "LAST_NAME" = Some (JStr "Контакт")
  ∧ assoc fields "NAME" = Some (JStr (nth 0 words ""))
  ∧ assoc fields "SECOND_NAME" = Some (JStr (nth 1 words "")).
Proof.
  intros H1 H2 H3 Hmap words. unfold map_contact_fields_from_person in Hmap.
  rewrite (py_or_falsy _ _ H1), (py_or_falsy _ _ H2), (py_or_falsy _ _ H3) in Hmap.
  rewrite name_parts_of_nameless in Hmap. injection Hmap as <-.
  by rewrite !add_phone_email_other.
Qed.

Lemma nameless_person_is_called_contact_witness :
  let words := py_split (py_str (py_or (dict_get [("id", JNum 7)] "id") (JStr ""))) in
  assoc [("LAST_NAME", JStr "Контакт"); ("NAME", JStr "7"); ("SECOND_NAME", JStr "");
         ("UF_CRM_ELBA_ID", JStr "1:7")] "LAST_NAME" = Some (JStr "Контакт")
  ∧ assoc [("LAST_NAME", JStr "Контакт"); ("NAME", JStr "7"); ("SECOND_NAME", JStr "");
           ("UF_CRM_ELBA_ID", JStr "1:7")] "NAME" = Some (JStr (nth 0 words ""))
  ∧ assoc [("LAST_NAME", JStr "Контакт"); ("NAME", JStr "7"); ("SECOND_NAME", JStr "");
           ("UF_CRM_ELBA_ID", JStr "1:7")] "SECOND_NAME" = Some (JStr (nth 1 words "")).
Proof.
  apply (nameless_person_is_called_contact [("id", JNum 7)] acme); reflexivity.
Defined.

(** ** Lookups *)

Lemma answered_app (ev1 ev2 : list event) :
  answered (ev1 ++ ev2) = answered ev1 ++ answered ev2.
Proof. apply omap_app. Qed.

Lemma bitrix_call_answered_once {D} (bitrix_post : string -> json -> D -> reply * D)
    (method : string) (params : json) (s : D) v s1 ev :
  bitrix_call bitrix_post method params s = (Ok v, s1, ev) →
  answered ev = [(method, py_or params (JObj []))].
Proof.
  intros Hrun.
  destruct (bitrix_retry_shape bitrix_post method params 3 s)
    as [(n & data & _ & Hev & _) | [_ Hr]];
    fold (bitrix_call bitrix_post method params s) in *; rewrite Hrun in *;
    cbn [fst snd] in *; [| done].
  subst ev. rewrite answered_app. cbn.
  replace (answered (replicate n _)) with (@nil (string * json)); [done |].
  clear. by induction n.
Qed.

Lemma find_in_groups_requests {D} (bitrix_post : string -> json -> D -> reply * D)
    (entity_type : string) (groups : list (list string)) :
  ∀ (result m : gmap string string) (s s' : D) (ev : list event),
    find_in_groups bitrix_post ("crm." +:+ entity_type +:+ ".list") groups result s
    = (Ok m, s', ev) →
    answered ev = List.map (lookup_request entity_type) groups.
Proof.
  induction groups as [| group groups IH]; intros result m s s' ev.
  - by intros [= <- <- <-].
  - cbn [find_in_groups]. intros Hrun.
    apply bind_ok_inv in Hrun as (res & s1 & ev1 & ev2 & Hcall & Hrest & ->).
    apply bind_ok_inv in Hrest as (rows & s2 & ev3 & ev4 & Hrows & Hrest & ->).
    apply bind_ok_inv in Hrest as (result' & s3 & ev5 & ev6 & Hidx & Hrest & ->).
    apply bitrix_call_answered_once in Hcall.
    destruct (rows_of res); [done |]. injection Hrows as <- <- <-.
    destruct (index_rows _ _); [done |]. injection Hidx as <- <- <-.
    rewrite !answered_app, Hcall, (IH _ _ _ _ _ Hrest). done.
Qed.

(** X17. A lookup that succeeds has put its keys to the destination in groups
    of at most fifty: one answered listing request per group, in order, which
    together ask for exactly the keys given, each once. *)
Theorem lookup_asks_in_groups_of_fifty {D}
    (bitrix_post : string -> json -> D -> reply * D) (entity_type : string)
    (elba_ids : list string) (s s' : D) (m : gmap string string) (ev : list event) :
  find_existing_by_elba_ids bitrix_post entity_type elba_ids s = (Ok m, s', ev) →
  ∃ groups,
    answered ev = List.map (lookup_request entity_type) groups
    ∧ concat groups = elba_ids
    ∧ Forall (fun group => (0 < length group ≤ 50)%nat) groups.
Proof.
  unfold find_existing_by_elba_ids. intros Hrun.
  destruct (chunks_shape (A := string) 50 ltac:(lia) (length elba_ids) elba_ids ltac:(lia))
    as (_ & Hsizes & _).
  exists (chunks (length elba_ids) elba_ids 50). split; [| split; [| done]].
  - destruct elba_ids as [| x l]; [by injection Hrun as <- <- <- |].
    cbn [chunked] in Hrun. by eapply find_in_groups_requests.
  - apply chunks_concat; lia.
Qed.

Lemma lookup_asks_in_groups_of_fifty_witness :
  ∃ groups,
    answered [EPost "crm.company.list" (lookup_request "company" ["1"; "2"]).2
                (ReplyJson (JObj [("result", JList [])]))]
    = List.map (lookup_request "company") groups
    ∧ concat groups = ["1"; "2"]
    ∧ Forall (fun group => (0 < length group ≤ 50)%nat) groups.
Proof.
  apply (lookup_asks_in_groups_of_fifty crm_post "company" ["1"; "2"] crm_empty crm_empty ∅).
  reflexivity.
Defined.

(** ** The whole run *)

Section WholeRun.

Context {D : Type}.
Variable bitrix_post : string -> json -> D -> reply * D.
Variable elba_get : string -> list (string * Z) -> response.
Variable P : event -> Prop.
Variable R : D -> D -> Prop.
Variable allowed : string -> Prop.

Hypothesis rules : calm_rules bitrix_post P R allowed.

Lemma calm_sync_company (cp : json) (cp_id : string) (existing : gmap string string) :
  allowed "crm.company.add" → calm P R (sync_company bitrix_post cp cp_id existing).
Proof.
  intros Hadd. unfold sync_company. destruct (negb _).
  - eapply calm_bind; [done | by eapply calm_log |]. intros _. by eapply calm_ret.
  - eapply calm_bind; [done | by eapply calm_lift |]. intros fields.
    eapply calm_bind; [done | |].
    { eapply calm_bind; [done | | intros r; by eapply calm_ret].
      by eapply calm_bitrix_call. }
    intros cid. eapply calm_bind; [done | by eapply calm_log |].
    intros _. by eapply calm_ret.
Qed.

Hypothesis contact_allowed : allowed "crm.contact.list" ∧ allowed "crm.contact.add".
Hypothesis company_calm :
  ∀ (c : list (string * json)) (existing : gmap string string),
    cp_elba_id c ≠ "" →
    calm P R (sync_company bitrix_post (JObj c) (cp_elba_id c) existing).

Lemma calm_sync_counterparties (fuel : nat) (org : json) (cps : list json) :
  ∀ existing, calm P R (sync_counterparties bitrix_post elba_get fuel org cps existing).
Proof.
  induction cps as [| cp rest IH]; intros existing; cbn [sync_counterparties].
  { by eapply calm_ret. }
  destruct cp as [| | | | | c]; try by eapply calm_throw.
  destruct (String.eqb_spec (cp_elba_id c) "") as [| Hne].
  { eapply calm_bind; [done | by eapply calm_log | intros _; apply IH]. }
  eapply calm_bind; [done | by apply company_calm |]. intros r.
  eapply calm_bind; [done | | intros _; apply IH].
  eapply calm_sync_contacts; [done | apply contact_allowed ..].
Qed.

Hypothesis userfields_allowed :
  Forall allowed ["crm.contact.userfield.list"; "crm.contact.userfield.add";
                  "crm.company.userfield.list"; "crm.company.userfield.add"].
Hypothesis lookup_allowed : allowed "crm.company.list".

Lemma calm_main (fuel : nat) : calm P R (main bitrix_post elba_get fuel).
Proof.
  unfold main. eapply calm_try_except; [done | |].
  2: { intros e. eapply calm_bind; [done | by eapply calm_log |].
       intros _. by eapply calm_throw. }
  eapply calm_bind; [done | by eapply calm_log |]. intros _.
  eapply calm_bind; [done | |].
  { pose proof userfields_allowed as H.
    apply Forall_cons in H as [H1 H]. apply Forall_cons in H as [H2 H].
    apply Forall_cons in H as [H3 H]. apply Forall_cons in H as [H4 _].
    by eapply calm_ensure_userfields. }
  intros _. eapply calm_bind; [done | by eapply calm_log |]. intros _.
  eapply calm_bind; [done | by eapply calm_get_organization_id |]. intros org.
  eapply calm_bind; [done | by eapply calm_log |]. intros _.
  eapply calm_bind; [done | by eapply calm_log |]. intros _.
  eapply calm_bind; [done | by eapply calm_probe_counterparties |]. intros cps.
  eapply calm_bind; [done | by eapply calm_log |]. intros _.
  destruct cps as [| cp cps]; [by eapply calm_ret |].
  eapply calm_bind; [done | by eapply calm_lift |]. intros ids.
  eapply calm_bind; [done | by eapply calm_find_existing |].
  intros existing.
  eapply calm_bind; [done | apply calm_sync_counterparties |]. intros _.
  by eapply calm_log.
Qed.

End WholeRun.

Lemma script_method_rules {D} (bitrix_post : string -> json -> D -> reply * D) :
  calm_rules bitrix_post script_method (fun _ _ => True) (fun m => m ∈ script_methods).
Proof. by split. Qed.

Lemma methods_script (ev : list event) :
  Forall script_method ev → Forall (fun m => m ∈ script_methods) (methods ev).
Proof.
  intros H. apply Forall_forall. intros m Hm.
  apply elem_of_methods in Hm as (params & r & Hin).
  rewrite Forall_forall in H. apply (H _ Hin).
Qed.

(** X18. Whatever the destination and the source answer, a run calls no method
    of the destination but the eight it names: it lists and adds user fields,
    lists companies and contacts and adds them, and never updates or deletes
    anything. *)
Theorem run_only_lists_and_adds {D} (bitrix_post : string -> json -> D -> reply * D)
    (elba_get : string -> list (string * Z) -> response) (fuel : nat) (s : D) :
  Forall (fun method => method ∈ script_methods)
    (methods (main bitrix_post elba_get fuel s).2).
Proof.
  apply methods_script.
  apply (calm_main bitrix_post elba_get script_method (fun _ _ => True)
           (fun m => m ∈ script_methods) (script_method_rules bitrix_post));
    [split; cbn; set_solver | | repeat constructor; cbn; set_solver | cbn; set_solver].
  intros c existing _.
  eapply calm_sync_company; [apply script_method_rules | cbn; set_solver].
Qed.

Lemma company_add_rules {D} (bitrix_post : string -> json -> D -> reply * D) :
  calm_rules bitrix_post sound_company_add (fun _ _ => True)
    (fun method => method ≠ "crm.company.add").
Proof.
  split; try done.
  intros method body s Hm. split; [| done]. intros params r [= -> _ _]. done.
Qed.

Lemma sync_company_sound {D} (bitrix_post : string -> json -> D -> reply * D)
    (c : list (string * json)) (existing : gmap string string) :
  cp_elba_id c ≠ "" →
  calm sound_company_add (fun _ _ => True)
    (sync_company bitrix_post (JObj c) (cp_elba_id c) existing).
Proof.
  intros Hne s. split; [| done]. unfold sync_company.
  destruct (negb _).
  { cbn. repeat constructor. by intros params r [=]. }
  rewrite bind_lift.
  destruct (map_company_fields_from_cp (JObj c)) as [e | fields] eqn:Hmap; [constructor |].
  rewrite bind_run. unfold create_company. rewrite bind_run.
  pose proof (bitrix_call_events bitrix_post "crm.company.add"
                (JObj [("fields", JObj fields)]) s) as Hev.
  assert (∀ e, (∃ r, e = EPost "crm.company.add"
                         (py_or (JObj [("fields", JObj fields)]) (JObj [])) r) →
               sound_company_add e) as Hsound.
  { intros e [r ->] params r' [= <- <-].
    destruct (company_title c fields Hmap) as (title & Htitle & Htruthy & _).
    exists fields, (cp_elba_id c), title. repeat split; try done.
    by apply company_key. }
  apply (Forall_impl _ _ _ Hev) in Hsound.
  destruct (bitrix_call _ _ _ s) as [[[r | e |] s1] ev1]; cbn in *;
    rewrite ?app_nil_r; try done.
  apply Forall_app. split; [done |]. repeat constructor. by intros params r' [=].
Qed.

(** X19. Whatever the destination and the source answer, every request of a
    run for the creation of a company carries an identity key and a title,
    neither of them empty. *)
Theorem companies_are_created_with_key_and_title {D}
    (bitrix_post : string -> json -> D -> reply * D)
    (elba_get : string -> list (string * Z) -> response) (fuel : nat) (s : D) :
  Forall sound_company_add (main bitrix_post elba_get fuel s).2.
Proof.
  apply (calm_main bitrix_post elba_get sound_company_add (fun _ _ => True)
           (fun method => method ≠ "crm.company.add") (company_add_rules bitrix_post)).
  - by split.
  - intros c existing Hne. by apply sync_company_sound.
  - by repeat constructor.
  - done.
Qed.

(** X20. A run that raises has logged that error last, as a failed
    synchronisation; a run that returns ends with the line that reports
    completion, or with the count of counterparties when there is none. *)
Theorem run_reports_its_outcome {D} (bitrix_post : string -> json -> D -> reply * D)
    (elba_get : string -> list (string * Z) -> response) (fuel : nat) (s : D) :
  let run := main bitrix_post elba_get fuel s in
  match run.1.1 with
  | Raise e => last run.2 = Some (ELog LError (MsgSyncFailed e))
  | Ok _ => last run.2 = Some (ELog LInfo MsgDone)
            ∨ last run.2 = Some (ELog LInfo (MsgCounterpartyCount 0))
  | NoFuel => True
  end.
Proof.
  cbn zeta. unfold main, try_except.
  match goal with |- context [match ?body s with _ => _ end] => set (m := body) end.
  assert (∀ r s1 ev, m s = (r, s1, ev) →
            match r with
            | Ok _ => last ev = Some (ELog LInfo MsgDone)
                      ∨ last ev = Some (ELog LInfo (MsgCounterpartyCount 0))
            | _ => True
            end) as Hok.
  { subst m. intros r s1 ev Hrun. destruct r as [[] | |]; [| done ..].
    repeat (apply bind_ok_inv in Hrun as (? & ? & ? & ? & ? & Hrun & ->)).
    match type of Hrun with
    | match ?cps with _ => _ end _ = _ => destruct cps as [| cp cps]
    end.
    - injection Hrun as <- <-. right.
      repeat match goal with
             | H : log _ _ _ = _ |- _ => unfold log, emit in H; injection H as <- <- <-
             end.
      by rewrite !last_app.
    - left.
      repeat (apply bind_ok_inv in Hrun as (? & ? & ? & ? & ? & Hrun & ->)).
      unfold log, emit in Hrun. injection Hrun as <- <-. by rewrite !last_app. }
  specialize (Hok (m s).1.1 (m s).1.2 (m s).2).
  destruct (m s) as [[[[] | e |] s1] ev]; cbn in *; [by apply Hok | | done].
  by rewrite last_app.
Qed.

Lemma calm_bind_ok {D} (bitrix_post : string -> json -> D -> reply * D)
    (P : event -> Prop) (R : D -> D -> Prop) (allowed : string -> Prop) {A B}
    (m : M A) (k : A -> M B) :
  calm_rules bitrix_post P R allowed →
  calm P R m → (∀ a, (∃ s, (m s).1.1 = Ok a) → calm P R (k a)) → calm P R (bind m k).
Proof.
  intros rules Hm Hk s. rewrite bind_run. destruct (Hm s) as [Hev Hst].
  destruct (m s) as [[[a | e |] s1] ev1] eqn:Hrun; [| done ..].
  destruct (Hk a ltac:(exists s; by rewrite Hrun) s1) as [Hev' Hst']. cbn in *. split.
  - apply Forall_app. by split.
  - by eapply (calm_trans rules).
Qed.

Lemma userfield_rules {D} (bitrix_post : string -> json -> D -> reply * D) :
  calm_rules bitrix_post userfield_method (fun _ _ => True)
    (fun method => method ∈ userfield_methods).
Proof. by split. Qed.

(** X21. When the source lists no counterparty, the run stops there: it has
    looked at the user fields and asks the destination for nothing else, so no
    company or contact is listed or created. *)
Theorem empty_source_ends_the_run {D} (bitrix_post : string -> json -> D -> reply * D)
    (elba_get : string -> list (string * Z) -> response) (fuel : nat) (s : D) :
  (∀ (org : json) (s0 s1 : D),
     (get_organization_id elba_get s0).1.1 = Ok org →
     (get_elba_counterparties elba_get fuel org s1).1.1 = Ok []) →
  Forall (fun method => method ∈ userfield_methods)
    (methods (main bitrix_post elba_get fuel s).2).
Proof.
  intros Hempty.
  pose proof (userfield_rules bitrix_post) as rules.
  assert (Forall userfield_method (main bitrix_post elba_get fuel s).2) as Hev.
  { apply (λ H : calm userfield_method (fun _ _ => True) (main bitrix_post elba_get fuel),
             proj1 (H s)).
    unfold main. eapply calm_try_except; [done | |].
    2: { intros e. eapply calm_bind; [done | by eapply calm_log |].
         intros _. by eapply calm_throw. }
    eapply calm_bind; [done | by eapply calm_log |]. intros _.
    eapply calm_bind; [done | |].
    { eapply calm_ensure_userfields; [done | cbn; set_solver ..]. }
    intros _. eapply calm_bind; [done | by eapply calm_log |]. intros _.
    eapply calm_bind_ok; [done | by eapply calm_get_organization_id |].
    intros org [s0 Horg].
    eapply calm_bind; [done | by eapply calm_log |]. intros _.
    eapply calm_bind; [done | by eapply calm_log |]. intros _.
    eapply calm_bind_ok; [done | by eapply calm_probe_counterparties |].
    intros cps [s1 Hcps].
    rewrite (Hempty org s0 s1 Horg) in Hcps. injection Hcps as <-.
    eapply calm_bind; [done | by eapply calm_log |]. intros _. by eapply calm_ret. }
  apply Forall_forall. intros m Hm.
  apply elem_of_methods in Hm as (params & r & Hin).
  rewrite Forall_forall in Hev. apply (Hev _ Hin).
Qed.

Lemma empty_source_ends_the_run_witness :
  Forall (fun method => method ∈ userfield_methods)
    (methods (main crm_post silent_source 1 crm_empty).2).
Proof.
  apply (empty_source_ends_the_run crm_post silent_source 1 crm_empty).
  intros org s0 s1 Horg.
  destruct (stateless_get_organization_id (D := crm) silent_source) as (r & ev & Hrun).
  rewrite Hrun in Horg. specialize (Hrun crm_empty).
  vm_compute in Hrun. injection Hrun as <- _. injection Horg as <-.
  destruct (stateless_probe_counterparties (D := crm) silent_source 1
              (counterparty_endpoints (JStr "o1"))) as (r & ev' & Hrun).
  unfold get_elba_counterparties. rewrite Hrun. specialize (Hrun crm_empty).
  vm_compute in Hrun. by injection Hrun as <- _.
Defined.

(** *** The phases of a run *)

(** A run first looks at the user fields and reads the source; what follows,
    if anything, is the company lookup and the loop over the counterparties
    that the source lists, and a last line when the run raises. *)
Lemma main_source_phases {D} (bitrix_post : string -> json -> D -> reply * D)
    (elba_get : string -> list (string * Z) -> response) (fuel : nat) (s : D) :
  ∃ pre rest closing,
    (main bitrix_post elba_get fuel s).2 = pre ++ rest ++ closing
    ∧ Forall userfield_method pre
    ∧ (closing = [] ∨ ∃ e, closing = [ELog LError (MsgSyncFailed e)])
    ∧ (rest = []
       ∨ ∃ org cps ids s1,
           (get_organization_id elba_get s).1.1 = Ok org
           ∧ (get_elba_counterparties elba_get fuel org s).1.1 = Ok cps
           ∧ company_ids cps = inr ids
           ∧ rest = (lookup_and_sync bitrix_post elba_get fuel org cps ids s1).2).
Proof.
  pose proof (userfield_rules bitrix_post) as rules.
  unfold main, try_except.
  match goal with |- context [match ?body s with _ => _ end] => set (m := body) end.
  assert (∃ pre rest,
            (m s).2 = pre ++ rest ∧ Forall userfield_method pre
            ∧ (rest = []
               ∨ ∃ org cps ids s1,
                   (get_organization_id elba_get s).1.1 = Ok org
                   ∧ (get_elba_counterparties elba_get fuel org s).1.1 = Ok cps
                   ∧ company_ids cps = inr ids
                   ∧ rest = (lookup_and_sync bitrix_post elba_get fuel org cps ids s1).2))
    as (pre & rest & Hev & Hpre & Hrest).
  2: { exists pre, rest.
       destruct (m s) as [[[[] | e |] s1] ev]; cbn [snd] in *; subst ev.
       - exists []. rewrite app_nil_r. repeat split; auto.
       - exists [ELog LError (MsgSyncFailed e)]. cbn. rewrite <- app_assoc.
         repeat split; eauto.
       - exists []. rewrite app_nil_r. repeat split; auto. }
  subst m.
  assert (∀ (ev : list event), Forall userfield_method ev →
            ∃ pre rest : list event,
              ev = pre ++ rest ∧ Forall userfield_method pre
              ∧ (rest = []
                 ∨ ∃ org cps ids s1,
                     (get_organization_id elba_get s).1.1 = Ok org
                     ∧ (get_elba_counterparties elba_get fuel org s).1.1 = Ok cps
                     ∧ company_ids cps = inr ids
                     ∧ rest = (lookup_and_sync bitrix_post elba_get fuel org cps ids s1).2))
    as Hstop.
  { intros ev Hev. exists ev, []. rewrite app_nil_r. auto. }
  rewrite bind_run. cbn [log emit]. rewrite bind_run.
  destruct (calm_ensure_userfields bitrix_post _ _ _ rules
              ltac:(cbn; set_solver) ltac:(cbn; set_solver)
              ltac:(cbn; set_solver) ltac:(cbn; set_solver) s) as [Hev1 _].
  destruct (ensure_userfields bitrix_post s) as [[[[] | e |] sA] ev1]; cbn [fst snd] in Hev1.
  2, 3: apply Hstop; cbn; by constructor.
  rewrite bind_run. cbn [log emit]. rewrite bind_run.
  destruct (calm_get_organization_id bitrix_post elba_get _ _ _ rules sA) as [Hev2 _].
  destruct (stateless_get_organization_id (D := D) elba_get) as (rA & evA & HorgA).
  rewrite (HorgA sA) in Hev2 |- *. cbn [fst snd] in Hev2.
  destruct rA as [org | e |].
  2, 3: apply Hstop; cbn; constructor; [done |]; apply Forall_app; split; [done |];
        by repeat constructor.
  rewrite bind_run. cbn [log emit]. rewrite bind_run. cbn [log emit]. rewrite bind_run.
  destruct (calm_probe_counterparties bitrix_post elba_get _ _ _ rules fuel
              (counterparty_endpoints org) sA) as [Hev3 _].
  destruct (stateless_probe_counterparties (D := D) elba_get fuel
              (counterparty_endpoints org)) as (rB & evB & HcpsB).
  change (get_elba_counterparties elba_get fuel org sA)
    with (probe_counterparties elba_get fuel (counterparty_endpoints org) sA).
  rewrite (HcpsB sA) in Hev3 |- *. cbn [fst snd] in Hev3.
  destruct rB as [cps | e |].
  2, 3: apply Hstop; cbn; constructor; [done |]; apply Forall_app; split; [done |];
        constructor; [done |]; apply Forall_app; split; [done |];
        repeat constructor; done.
  rewrite bind_run. cbn [log emit].
  assert (Forall userfield_method
            (ELog LInfo MsgCheckingUserfields :: ev1
               ++ ELog LInfo MsgFetchingOrganization :: evA
               ++ ELog LInfo (MsgOrganization org) :: ELog LInfo MsgFetchingCounterparties
               :: evB ++ [ELog LInfo (MsgCounterpartyCount (length cps))])) as Hpre.
  { constructor; [done |]. apply Forall_app; split; [done |].
    constructor; [done |]. apply Forall_app; split; [done |].
    constructor; [done |]. constructor; [done |]. apply Forall_app; split; [done |].
    by repeat constructor. }
  destruct cps as [| cp cps].
  { apply Hstop. by cbn in *. }
  rewrite bind_lift.
  destruct (company_ids (cp :: cps)) as [e | ids] eqn:Hids.
  { apply Hstop. cbn in *. by rewrite ?app_nil_r. }
  eexists _, _. split; [| split; [exact Hpre |]].
  2: { right. exists org, (cp :: cps), ids, sA. rewrite (HorgA s).
       unfold get_elba_counterparties. rewrite (HcpsB s). by repeat split. }
  unfold lookup_and_sync, prepend. cbn [fst snd]. cbn [app].
  repeat (rewrite <- ?app_assoc; cbn [app]; f_equal).
Qed.

(** The same, leaving the source aside. *)
Lemma main_phases {D} (bitrix_post : string -> json -> D -> reply * D)
    (elba_get : string -> list (string * Z) -> response) (fuel : nat) (s : D) :
  ∃ pre rest closing,
    (main bitrix_post elba_get fuel s).2 = pre ++ rest ++ closing
    ∧ Forall userfield_method pre
    ∧ (closing = [] ∨ ∃ e, closing = [ELog LError (MsgSyncFailed e)])
    ∧ (rest = []
       ∨ ∃ org cps ids s1,
           company_ids cps = inr ids
           ∧ rest = (lookup_and_sync bitrix_post elba_get fuel org cps ids s1).2).
Proof.
  destruct (main_source_phases bitrix_post elba_get fuel s)
    as (pre & rest & closing & Hev & Hpre & Hclosing & Hrest).
  exists pre, rest, closing. repeat split; [done .. |].
  destruct Hrest as [-> | (org & cps & ids & s1 & _ & _ & Hids & ->)]; [by left | right].
  by exists org, cps, ids, s1.
Qed.

(** *** Companies the lookup reports *)

Lemma other_method_rules {D} (bitrix_post : string -> json -> D -> reply * D)
    (name : string) :
  calm_rules bitrix_post (other_method name) (fun _ _ => True) (fun method => method ≠ name).
Proof.
  split; try done. intros method body s Hm. split; [| done]. by intros params r [= -> _ _].
Qed.

Lemma index_rows_listed (key : string) (rows : list json) :
  key ≠ "" →
  ∀ result result',
    index_rows rows result = inr result' →
    (∀ row, JObj row ∈ rows → py_str (dict_get row "UF_CRM_ELBA_ID") = key →
            py_str (dict_get row "ID") ≠ "") →
    (∃ row, JObj row ∈ rows ∧ py_str (dict_get row "UF_CRM_ELBA_ID") = key)
    ∨ found_in result key →
    found_in result' key.
Proof.
  intros Hkey. induction rows as [| row rows IH]; intros result result' Hidx Hids Hin.
  - injection Hidx as <-. destruct Hin as [(row & Hrow & _) | H]; [| done].
    by apply elem_of_nil in Hrow.
  - destruct row as [| | | | | row]; try done. cbn [index_rows] in Hidx.
    apply (IH _ _ Hidx).
    { intros row' Hrow'. apply Hids. by apply list_elem_of_further. }
    destruct (String.eqb_spec (py_str (dict_get row "UF_CRM_ELBA_ID")) key) as [Heq | Hne].
    + right. rewrite Heq. destruct (String.eqb_spec key ""); [done |].
      eexists. split; [apply lookup_insert_eq |].
      apply Hids; [apply list_elem_of_here | done].
    + destruct Hin as [(row' & Hrow' & Hk) | (v & Hv & Hne')].
      * apply elem_of_cons in Hrow' as [[= ->] | Hrow']; [done |]. left. by exists row'.
      * right. exists v. split; [| done].
        destruct (String.eqb _ ""); [done |]. by rewrite lookup_insert_ne.
Qed.

Lemma find_in_groups_listed {D} (bitrix_post : string -> json -> D -> reply * D)
    (key : string) (groups : list (list string)) :
  key ≠ "" →
  ∀ (result m : gmap string string) (s s' : D) (ev : list event),
    find_in_groups bitrix_post "crm.company.list" groups result s = (Ok m, s', ev) →
    (∀ e cid, e ∈ ev → listed key cid e → cid ≠ "") →
    (∃ e cid, e ∈ ev ∧ listed key cid e) ∨ found_in result key →
    found_in m key.
Proof.
  intros Hkey. induction groups as [| group groups IH]; intros result m s s' ev.
  { intros [= <- <- <-] _ [(e & cid & He & _) | H]; [| done]. by apply elem_of_nil in He. }
  cbn [find_in_groups]. intros Hrun Hids Hin.
  apply bind_ok_inv in Hrun as (res & s1 & ev1 & ev2 & Hcall & Hrest & ->).
  apply bind_ok_inv in Hrest as (rows & s2 & ev3 & ev4 & Hrows & Hrest & ->).
  apply bind_ok_inv in Hrest as (result' & s3 & ev5 & ev6 & Hidx & Hrest & ->).
  destruct (rows_of res) as [| rows'] eqn:Hres; [done |]. injection Hrows as <- <- <-.
  destruct (index_rows rows' result) as [| result''] eqn:Hindex; [done |].
  injection Hidx as <- <- <-. cbn [app] in *.
  match type of Hcall with
  | bitrix_call _ ?method ?params _ = _ =>
      destruct (bitrix_call_cases bitrix_post method params s)
        as (r0 & s0 & ev0 & Hcall' & _ & Hdec & Hok)
  end.
  rewrite Hcall in Hcall'. injection Hcall' as <- <- <-.
  destruct (Hok res eq_refl) as (data & Hdata & Hresult).
  assert (∀ e cid, e ∈ ev1 → listed key cid e →
            ∃ row, JObj row ∈ rows'
                   ∧ py_str (dict_get row "UF_CRM_ELBA_ID") = key
                   ∧ py_str (dict_get row "ID") = cid) as Hrows1.
  { intros e cid He (params & d & res' & rows0 & row & -> & Hr & Hro & Hrow & Hk & Hc).
    apply Hdec in He. rewrite Hr in He. injection He as ->.
    rewrite Hres in Hro. injection Hro as ->. by exists row. }
  apply (IH _ _ _ _ _ Hrest).
  { intros e cid He. apply Hids. apply elem_of_app. by right. }
  destruct Hin as [(e & cid & He & Hl) | Hfound].
  - apply elem_of_app in He as [He | He]; [| left; by exists e, cid].
    right. apply (index_rows_listed key rows' Hkey _ _ Hindex).
    + intros row Hrow Hk. apply (Hids _ _ (proj2 (elem_of_app _ _ _) (or_introl Hdata))).
      eexists _, data, res, rows', row. by repeat split.
    + left. destruct (Hrows1 _ _ He Hl) as (row & ? & ? & _). by exists row.
  - right. apply (index_rows_listed key rows' Hkey _ _ Hindex); [| by right].
    intros row Hrow Hk. apply (Hids _ _ (proj2 (elem_of_app _ _ _) (or_introl Hdata))).
    eexists _, data, res, rows', row. by repeat split.
Qed.

Lemma sync_company_creates {D} (bitrix_post : string -> json -> D -> reply * D)
    (c : list (string * json)) (existing : gmap string string) (s : D) :
  let run := sync_company bitrix_post (JObj c) (cp_elba_id c) existing s in
  Forall (fun e => ∀ key, creates_company key e →
                          key = cp_elba_id c ∧ default "" (existing !! key) = "") run.2
  ∧ ∀ cid existing',
      run.1.1 = Ok (cid, existing') →
      existing' = existing
      ∨ (default "" (existing !! cp_elba_id c) = ""
         ∧ existing' = <[cp_elba_id c := cid]> existing).
Proof.
  cbn zeta. unfold sync_company.
  destruct (String.eqb_spec (default "" (existing !! cp_elba_id c)) "") as [Hnone | Hsome];
    cbn [negb].
  2: { split; [| intros cid existing' [= _ <-]; by left].
       cbn. constructor; [| constructor]. by intros key (fields & r & [=] & _). }
  rewrite bind_lift.
  destruct (map_company_fields_from_cp (JObj c)) as [e | fields] eqn:Hmap;
    [split; [constructor | done] |].
  rewrite bind_run. unfold create_company. rewrite bind_run.
  pose proof (bitrix_call_events bitrix_post "crm.company.add"
                (JObj [("fields", JObj fields)]) s) as Hev.
  assert (Forall (fun e => ∀ key, creates_company key e →
                    key = cp_elba_id c ∧ default "" (existing !! key) = "")
            (bitrix_call bitrix_post "crm.company.add"
               (JObj [("fields", JObj fields)]) s).2) as Hcreates.
  { eapply Forall_impl; [exact Hev |]. intros e [r ->] key (fields' & r' & [= <- <-] & Hk).
    rewrite (company_key _ _ Hmap) in Hk. injection Hk as <-. done. }
  destruct (bitrix_call _ _ _ s) as [[[r | e |] s1] ev1]; cbn in *;
    rewrite ?app_nil_r; try done.
  split.
  - apply Forall_app. split; [done |]. constructor; [| constructor].
    by intros key (fields' & r' & [=] & _).
  - intros cid existing' [= <- <-]. by right.
Qed.

Lemma sync_counterparties_creates {D} (bitrix_post : string -> json -> D -> reply * D)
    (elba_get : string -> list (string * Z) -> response) (fuel : nat) (org : json)
    (cps : list json) :
  ∀ (existing : gmap string string) (s : D),
    Forall (fun e => ∀ key, creates_company key e →
                            key ≠ "" ∧ default "" (existing !! key) = "")
      (sync_counterparties bitrix_post elba_get fuel org cps existing s).2.
Proof.
  induction cps as [| cp rest IH]; intros existing s; cbn [sync_counterparties];
    [constructor |].
  destruct cp as [| | | | | c]; try constructor.
  destruct (String.eqb_spec (cp_elba_id c) "") as [| Hne].
  { rewrite bind_run. cbn [log emit prepend fst snd app]. constructor; [| apply IH].
    by intros key (fields & r & [=] & _). }
  rewrite bind_run.
  destruct (sync_company_creates bitrix_post c existing s) as [Hev1 Hmap].
  destruct (sync_company _ _ _ _ s) as [[[[cid existing'] | e |] s1] ev1];
    cbn [fst snd] in *.
  2, 3: eapply Forall_impl; [exact Hev1 |]; intros e' H key Hc;
        destruct (H key Hc) as [-> ?]; by split.
  unfold prepend. cbn [fst snd]. apply Forall_app. split.
  { eapply Forall_impl; [exact Hev1 |]. intros e' H key Hc.
    destruct (H key Hc) as [-> ?]. by split. }
  rewrite bind_run.
  destruct (calm_sync_contacts bitrix_post elba_get _ _ _
              (other_method_rules bitrix_post "crm.company.add") fuel org c
              (cp_elba_id c) cid ltac:(done) ltac:(done) s1) as [Hev2 _].
  assert (Forall (fun e => ∀ key, creates_company key e →
                    key ≠ "" ∧ default "" (existing !! key) = "")
            (sync_contacts bitrix_post elba_get fuel org c (cp_elba_id c) cid s1).2)
    as Hev2'.
  { eapply Forall_impl; [exact Hev2 |]. intros e' H key (fields & r & -> & _).
    by destruct (H _ r eq_refl). }
  destruct (sync_contacts _ _ _ _ _ _ _ s1) as [[[[] | e |] s2] ev2]; cbn [fst snd] in *;
    [| done ..].
  apply Forall_app. split; [done |].
  eapply Forall_impl; [apply IH |]. cbn beta. intros e' H key Hc.
  destruct (H key Hc) as [Hk Hd]. split; [done |].
  destruct (Hmap cid existing' eq_refl) as [-> | [Hnone ->]]; [done |].
  destruct (decide (key = cp_elba_id c)) as [-> | Hother]; [done |].
  by rewrite lookup_insert_ne in Hd.
Qed.

Lemma lookup_and_sync_respects {D} (bitrix_post : string -> json -> D -> reply * D)
    (elba_get : string -> list (string * Z) -> response) (fuel : nat) (org : json)
    (cps : list json) (ids : list string) (s : D) (key : string) :
  let ev := (lookup_and_sync bitrix_post elba_get fuel org cps ids s).2 in
  company_listed ev key → Forall (fun e => ¬ creates_company key e) ev.
Proof.
  intros ev [Hin Hids]. subst ev. unfold lookup_and_sync in *.
  rewrite bind_run in *.
  set (elba_ids := List.filter (fun eid => negb (String.eqb eid "")) ids) in *.
  destruct (calm_find_existing bitrix_post _ _ _
              (other_method_rules bitrix_post "crm.company.add") "company" elba_ids
              ltac:(done) s) as [Hev1 _].
  assert (Forall (fun e => ¬ creates_company key e)
            (find_existing_by_elba_ids bitrix_post "company" elba_ids s).2) as Hev1'.
  { eapply Forall_impl; [exact Hev1 |]. intros e H (fields & r & -> & _).
    by destruct (H _ r eq_refl). }
  destruct (find_existing_by_elba_ids bitrix_post "company" elba_ids s)
    as [[[m | e |] s1] ev1] eqn:Hfind; cbn [fst snd] in *; [| done ..].
  unfold prepend in *. cbn [fst snd] in *.
  apply Forall_app. split; [done |].
  rewrite bind_run in *.
  pose proof (sync_counterparties_creates bitrix_post elba_get fuel org cps m s1) as Hev2.
  destruct (calm_sync_counterparties bitrix_post elba_get _ (fun _ _ => True) _
              (other_method_rules bitrix_post "crm.company.list") ltac:(done)
              ltac:(intros c existing _;
                    by eapply calm_sync_company; [apply other_method_rules |])
              fuel org cps m s1) as [Hnolist _].
  set (sync := sync_counterparties bitrix_post elba_get fuel org cps m s1) in *.
  assert (∀ e cid, e ∈ sync.2 → ¬ listed key cid e) as Hnot.
  { intros e cid He (params & d & res & rows & row & -> & _).
    rewrite Forall_forall in Hnolist. by destruct (Hnolist _ He params (ReplyJson d)). }
  assert (Forall (fun e => ¬ creates_company key e) sync.2) as Hsync.
  { destruct (decide (key = "")) as [-> | Hkey].
    { eapply Forall_impl; [exact Hev2 |]. intros e H Hc. by destruct (H _ Hc). }
    assert (found_in m key) as (v & Hv & Hne).
    { unfold find_existing_by_elba_ids in Hfind.
      destruct Hin as (e & cid & He & Hl).
      assert (e ∈ ev1) as He1.
      { apply elem_of_app in He as [He | He]; [done |].
        destruct sync as [[[[] | |] s2] ev2]; cbn [fst snd] in *.
        - apply elem_of_app in He as [He | He]; [by destruct (Hnot _ _ He Hl) |].
          apply list_elem_of_singleton in He as ->.
          by destruct Hl as (? & ? & ? & ? & ? & [=] & _).
        - by destruct (Hnot _ _ He Hl).
        - by destruct (Hnot _ _ He Hl). }
      destruct elba_ids as [| x l].
      { injection Hfind as <- <- <-. by apply elem_of_nil in He1. }
      cbn [chunked] in Hfind.
      apply (find_in_groups_listed bitrix_post key _ Hkey _ _ _ _ _ Hfind).
      - intros e' cid' He'. apply Hids. apply elem_of_app. by left.
      - left. by exists e, cid. }
    eapply Forall_impl; [exact Hev2 |]. intros e H Hc.
    destruct (H _ Hc) as [_ Hd]. rewrite Hv in Hd. done. }
  destruct sync as [[[[] | |] s2] ev2]; cbn [fst snd] in *; try done.
  apply Forall_app. split; [done |]. constructor; [| constructor].
  by intros (fields & r & [=] & _).
Qed.

Lemma userfield_methods_records (method : string) (params : json) (r : reply) :
  userfield_method (EPost method params r) →
  method ≠ "crm.company.list" ∧ method ≠ "crm.company.add".
Proof.
  cbn. intros H. repeat (apply elem_of_cons in H as [-> | H]; [done |]).
  by apply elem_of_nil in H.
Qed.

(** X22. A company the lookup reports is not created again: when the company
    listing of a run shows a key, and never with an empty id, no request of
    that run asks for the creation of a company under that key, whatever the
    destination and the source answer. *)
Theorem listed_company_is_not_created {D}
    (bitrix_post : string -> json -> D -> reply * D)
    (elba_get : string -> list (string * Z) -> response) (fuel : nat) (s : D)
    (key : string) :
  let run := main bitrix_post elba_get fuel s in
  company_listed run.2 key →
  Forall (fun e => ¬ creates_company key e) run.2.
Proof.
  intros run [Hin Hids]. subst run.
  destruct (main_phases bitrix_post elba_get fuel s)
    as (pre & rest & closing & Hev & Hpre & Hclosing & Hrest).
  rewrite Hev in *.
  assert (Forall (fun e => ¬ creates_company key e) pre) as Hpre'.
  { eapply Forall_impl; [exact Hpre |]. intros e H (fields & r & -> & _).
    apply userfield_methods_records in H as [_ H]. by destruct H. }
  assert (Forall (fun e => ¬ creates_company key e) closing) as Hclosing'.
  { destruct Hclosing as [-> | [e ->]]; [constructor |]. constructor; [| constructor].
    by intros (fields & r & [=] & _). }
  apply Forall_app. split; [done |]. apply Forall_app. split; [| done].
  destruct Hrest as [-> | (org & cps & ids & s1 & _ & ->)]; [constructor |].
  apply lookup_and_sync_respects. split.
  - destruct Hin as (e & cid & He & Hl). exists e, cid. split; [| done].
    apply elem_of_app in He as [He | He].
    { rewrite Forall_forall in Hpre. specialize (Hpre _ He).
      destruct Hl as (? & ? & ? & ? & ? & -> & _).
      apply userfield_methods_records in Hpre as [Hpre _]. by destruct Hpre. }
    apply elem_of_app in He as [He | He]; [done |].
    destruct Hclosing as [-> | [e' ->]]; [by apply elem_of_nil in He |].
    apply list_elem_of_singleton in He as ->.
    by destruct Hl as (? & ? & ? & ? & ? & [=] & _).
  - intros e cid He. apply Hids. apply elem_of_app. right. apply elem_of_app. by left.
Qed.

Lemma listed_company_is_not_created_witness :
  let first := main crm_post twins_source 1 crm_empty in
  Forall (fun e => ¬ creates_company "1" e) (main crm_post twins_source 1 first.1.2).2.
Proof.
  apply (listed_company_is_not_created crm_post twins_source 1
           (main crm_post twins_source 1 crm_empty).1.2 "1").
  split.
  - eexists _, "4". split.
    + apply list_elem_of_lookup. exists 12%nat. vm_compute. reflexivity.
    + eexists _, _, _, _, _. split; [reflexivity |]. split; [reflexivity |].
      split; [reflexivity |]. split; [apply list_elem_of_here |].
      split; reflexivity.
  - intros e cid He (params & d & res & rows & row & -> & Hr & Hro & Hrow & Hk & <-).
    vm_compute in He.
    repeat (apply elem_of_cons in He as [He | He]; [try discriminate He |]).
    + injection He as -> ->. vm_compute in Hr. injection Hr as <-.
      vm_compute in Hro. injection Hro as <-.
      apply list_elem_of_singleton in Hrow. injection Hrow as ->. by vm_compute.
    + by apply elem_of_nil in He.
Defined.

(** *** Requests to the destination alone *)

Section Posting.

Context {D : Type}.
Variable bitrix_post : string -> json -> D -> reply * D.

Lemma posting_ret {A} (a : A) : posting (D := D) (ret a).
Proof. intros s. constructor. Qed.

Lemma posting_log (lv : level) (msg : log_msg) : posting (D := D) (log lv msg).
Proof. intros s. by repeat constructor. Qed.

Lemma posting_lift {A} (x : exn + A) : posting (D := D) (lift x).
Proof. intros s. destruct x; constructor. Qed.

Lemma posting_bind {A B} (m : M (D := D) A) (k : A -> M B) :
  posting m → (∀ a, posting (k a)) → posting (bind m k).
Proof.
  intros Hm Hk s. rewrite bind_run. specialize (Hm s).
  destruct (m s) as [[[a | e |] s1] ev1]; [| done ..].
  specialize (Hk a s1). cbn in *. apply Forall_app. by split.
Qed.

Lemma posting_bitrix_call (method : string) (params : json) :
  posting (bitrix_call bitrix_post method params).
Proof.
  intros s. eapply Forall_impl; [apply bitrix_call_events |].
  by intros e [r ->] url q.
Qed.

Lemma posting_find_existing (entity_type : string) (elba_ids : list string) :
  posting (find_existing_by_elba_ids bitrix_post entity_type elba_ids).
Proof.
  unfold find_existing_by_elba_ids. destruct elba_ids as [| x l]; [apply posting_ret |].
  cbn [chunked]. generalize (chunks (length (x :: l)) (x :: l) 50).
  generalize (∅ : gmap string string). intros result groups. revert result.
  induction groups as [| group groups IH]; intros result; cbn [find_in_groups];
    [apply posting_ret |].
  apply posting_bind; [apply posting_bitrix_call |]. intros res.
  apply posting_bind; [apply posting_lift |]. intros rows.
  apply posting_bind; [apply posting_lift |]. intros result'. apply IH.
Qed.

Lemma posting_sync_persons (cp : json) (cp_id company_id : string)
    (existing : gmap string string) (persons : list json) :
  posting (sync_persons bitrix_post persons cp cp_id company_id existing).
Proof.
  induction persons as [| person rest IH]; cbn [sync_persons]; [apply posting_ret |].
  destruct person as [| | | | | p]; try (intros ?; cbn; constructor).
  destruct (String.eqb _ ""); [done |].
  destruct (existing !! _); [by apply posting_bind; [apply posting_log |] |].
  apply posting_bind; [apply posting_lift |]. intros fields.
  apply posting_bind.
  { apply posting_bind; [apply posting_bitrix_call | intros r; apply posting_ret]. }
  intros cid. by apply posting_bind; [apply posting_log |].
Qed.

Lemma posting_try_except {A} (m : M (D := D) A) (h : exn -> M A) :
  posting m → (∀ e, posting (h e)) → posting (try_except m h).
Proof.
  intros Hm Hh s. unfold try_except. specialize (Hm s).
  destruct (m s) as [[[a | e |] s1] ev1]; [done | | done].
  specialize (Hh e s1). destruct (h e s1) as [[r s2] ev2].
  cbn in *. apply Forall_app. by split.
Qed.

Lemma posting_ensure_userfields : posting (ensure_userfields bitrix_post).
Proof.
  assert (∀ entity_type field_name label,
            posting (ensure_userfield bitrix_post entity_type field_name label)) as H.
  { intros entity_type field_name label. unfold ensure_userfield, create_bitrix_userfield.
    apply posting_bind; [apply posting_bitrix_call |]. intros res.
    apply posting_bind; [apply posting_lift |]. intros fields.
    apply posting_bind; [apply posting_lift |]. intros [|]; [apply posting_ret |].
    apply posting_bind; [apply posting_bitrix_call | intros uf; apply posting_log]. }
  unfold ensure_userfields. apply posting_try_except.
  - apply posting_bind; [apply H |]. intros _. apply posting_bind; [apply H |].
    intros _. apply H.
  - intros e. apply posting_bind; [apply posting_log |]. intros _ s. constructor.
Qed.

Lemma gets_posting (ev : list event) : Forall no_get ev → gets ev = [].
Proof.
  induction 1 as [| e ev He _ IH]; [done |].
  destruct e as [url params | |]; [by destruct (He url params) | done ..].
Qed.

End Posting.

(** X23. When the card of a counterparty lists persons, the contact part of
    its iteration sends no request to the source: the contact endpoints are
    asked only when the card lists none. *)
Theorem inline_persons_need_no_request {D}
    (bitrix_post : string -> json -> D -> reply * D)
    (elba_get : string -> list (string * Z) -> response) (fuel : nat) (org : json)
    (c : list (string * json)) (cp_id company_id : string) (s : D) :
  inline_persons c ["contacts"; "contactPersons"; "persons"] ≠ [] →
  gets (sync_contacts bitrix_post elba_get fuel org c cp_id company_id s).2 = [].
Proof.
  intros Hinline.
  assert (posting (sync_contacts bitrix_post elba_get fuel org c cp_id company_id)) as H.
  { unfold sync_contacts.
    destruct (inline_persons c _) as [| p l]; [done |].
    apply posting_bind; [apply posting_ret |]. intros [| p' l']; [apply posting_ret |].
    apply posting_bind; [apply posting_lift |]. intros ids.
    apply posting_bind; [apply posting_find_existing | intros existing].
    apply posting_sync_persons. }
  by apply gets_posting.
Qed.

Lemma inline_persons_need_no_request_witness :
  gets (sync_contacts crm_post acme_source 1 (JStr "o1") acme "1" "4" crm_empty).2 = [].
Proof.
  apply (inline_persons_need_no_request crm_post acme_source 1 (JStr "o1") acme "1" "4"
           crm_empty).
  discriminate.
Defined.

(** X24. When the user fields cannot be ensured the run ends there, with the
    same error: nothing is read from the source, and no company or contact is
    listed or created. *)
Theorem userfield_failure_stops_the_run {D}
    (bitrix_post : string -> json -> D -> reply * D)
    (elba_get : string -> list (string * Z) -> response) (fuel : nat) (s : D) (e : exn) :
  (ensure_userfields bitrix_post s).1.1 = Raise e →
  let run := main bitrix_post elba_get fuel s in
  run.1.1 = Raise e
  ∧ gets run.2 = []
  ∧ Forall (fun method => method ∈ userfield_methods) (methods run.2).
Proof.
  intros Hfail. cbn zeta. unfold main, try_except.
  rewrite bind_run. cbn [log emit]. rewrite bind_run.
  pose proof (posting_ensure_userfields bitrix_post s) as Hposts.
  destruct (calm_ensure_userfields bitrix_post _ _ _ (userfield_rules bitrix_post)
              ltac:(cbn; set_solver) ltac:(cbn; set_solver)
              ltac:(cbn; set_solver) ltac:(cbn; set_solver) s) as [Hfields _].
  destruct (ensure_userfields bitrix_post s) as [[r sA] ev1]. cbn [fst snd] in *.
  subst r. unfold prepend. cbn [fst snd bind log emit throw app]. split; [done |]. split.
  - apply gets_posting. constructor; [done |]. apply Forall_app. split; [done |].
    by repeat constructor.
  - apply Forall_forall. intros m Hm.
    apply elem_of_methods in Hm as (params & r & Hin).
    apply elem_of_cons in Hin as [[=] | Hin].
    apply elem_of_app in Hin as [Hin | Hin].
    + rewrite Forall_forall in Hfields. apply (Hfields _ Hin).
    + by apply list_elem_of_singleton in Hin.
Qed.

Lemma userfield_failure_stops_the_run_witness :
  let run := main unreachable silent_source 1 tt in
  run.1.1 = Raise RetryError
  ∧ gets run.2 = []
  ∧ Forall (fun method => method ∈ userfield_methods) (methods run.2).
Proof.
  apply (userfield_failure_stops_the_run unreachable silent_source 1 tt RetryError).
  reflexivity.
Defined.

(** *** Contacts of a counterparty *)

(** X25. Every request of the person loop for the creation of a contact refers
    to the company id of the iteration, and to no company at all when that id
    is empty. *)
Theorem contacts_refer_to_the_company {D}
    (bitrix_post : string -> json -> D -> reply * D) (persons : list json) (cp : json)
    (cp_id company_id : string) (existing : gmap string string) (s : D) :
  Forall (contact_link company_id)
    (sync_persons bitrix_post persons cp cp_id company_id existing s).2.
Proof.
  revert s. induction persons as [| person rest IH]; intros s; cbn [sync_persons];
    [constructor |].
  destruct person as [| | | | | p]; try constructor.
  destruct (String.eqb (person_id p) ""); [apply IH |].
  destruct (existing !! _).
  { rewrite bind_run. cbn [log emit prepend fst snd app].
    constructor; [by intros params r [=] | apply IH]. }
  rewrite bind_lift.
  destruct (map_contact_fields_from_person (JObj p) cp) as [e | fields] eqn:Hmap;
    [constructor |].
  rewrite bind_run. unfold create_contact. rewrite bind_run.
  set (linked_fields := if String.eqb company_id "" then fields
                        else assoc_set fields "COMPANY_ID" (JStr company_id)).
  assert (assoc linked_fields "COMPANY_ID"
          = if String.eqb company_id "" then None else Some (JStr company_id)) as Hlink.
  { subst linked_fields. destruct (String.eqb company_id ""); [| apply assoc_set_eq].
    unfold map_contact_fields_from_person in Hmap.
    destruct (extract_name_parts _) as [[? ?] ?]. destruct cp; try done.
    injection Hmap as <-. by rewrite add_phone_email_other. }
  pose proof (bitrix_call_events bitrix_post "crm.contact.add"
                (JObj [("fields", JObj linked_fields)]) s) as Hev.
  assert (Forall (contact_link company_id)
            (bitrix_call bitrix_post "crm.contact.add"
               (JObj [("fields", JObj linked_fields)]) s).2) as Hcall.
  { eapply Forall_impl; [exact Hev |]. intros e [r ->] params r' [= <- <-].
    by exists linked_fields. }
  destruct (bitrix_call _ _ _ s) as [[[r | e |] s1] ev1]; cbn [fst snd prepend ret] in *;
    rewrite ?app_nil_r; try done.
  apply Forall_app. split; [done |].
  rewrite bind_run. cbn [log emit prepend fst snd app].
  constructor; [by intros params r' [=] | apply IH].
Qed.

Lemma probe_contacts_all_empty {D}
    (elba_get : string -> list (string * Z) -> response) (fuel : nat) (s : D)
    (candidates : list string) :
  (∀ e, e ∈ candidates →
        (fetch_all_paginated elba_get fuel e [("limit", 100)] ["items"; "contacts"] s).1.1
        = Ok []) →
  ∃ ev, probe_contacts elba_get fuel candidates s = (Ok [], s, ev)
        ∧ requested ev = candidates
        ∧ posts ev = [].
Proof.
  induction candidates as [| endpoint rest IH]; intros Hempty; [by exists [] |].
  destruct (fetch_outcome_empty elba_get fuel endpoint _ s
              (Hempty endpoint ltac:(apply list_elem_of_here))) as (ev & Hrun & Hreq).
  rewrite (probe_contacts_miss elba_get fuel endpoint rest s ev Hrun).
  destruct IH as (ev' & -> & Hq & Hp).
  { intros e He. apply Hempty. by apply list_elem_of_further. }
  exists (ev ++ ev'). split; [done |]. split.
  - by rewrite requested_app, Hreq, Hq.
  - unfold posts in *. rewrite omap_app, Hp, app_nil_r.
    pose proof (pagination_quiet elba_get fuel endpoint [("limit", 100)]
                  ["items"; "contacts"] s) as Hposts.
    rewrite Hrun in Hposts. apply Hposts.
Qed.

(** X26. A counterparty for which neither the card nor any of the four contact
    endpoints yields a person is passed over: each endpoint is asked once, in
    order, and nothing is sent to the destination. *)
Theorem counterparty_without_persons {D}
    (bitrix_post : string -> json -> D -> reply * D)
    (elba_get : string -> list (string * Z) -> response) (fuel : nat) (org : json)
    (c : list (string * json)) (cp_id company_id : string) (s : D) :
  inline_persons c ["contacts"; "contactPersons"; "persons"] = [] →
  (∀ e, e ∈ contact_endpoints org cp_id →
        (fetch_all_paginated elba_get fuel e [("limit", 100)] ["items"; "contacts"] s).1.1
        = Ok []) →
  let run := sync_contacts bitrix_post elba_get fuel org c cp_id company_id s in
  run.1.1 = Ok tt
  ∧ run.1.2 = s
  ∧ requested run.2 = contact_endpoints org cp_id
  ∧ posts run.2 = [].
Proof.
  intros Hinline Hempty. cbn zeta. unfold sync_contacts. rewrite Hinline, bind_run.
  unfold get_elba_contacts_for_counterparty.
  destruct (probe_contacts_all_empty elba_get fuel s _ Hempty) as (ev & -> & Hreq & Hposts).
  cbn. by rewrite app_nil_r.
Qed.

Lemma counterparty_without_persons_witness :
  let run := sync_contacts crm_post silent_source 1 (JStr "o1") [("id", JStr "1")] "1" "4"
               crm_empty in
  run.1.1 = Ok tt
  ∧ run.1.2 = crm_empty
  ∧ requested run.2 = contact_endpoints (JStr "o1") "1"
  ∧ posts run.2 = [].
Proof.
  apply (counterparty_without_persons crm_post silent_source 1 (JStr "o1")
           [("id", JStr "1")] "1" "4" crm_empty); [reflexivity |].
  intros e He. cbn in He.
  repeat (apply elem_of_cons in He as [-> | He]; [by vm_compute |]).
  by apply elem_of_nil in He.
Defined.

(** X27. What a company lookup returns is what the destination listed: every
    entry of the result is the key and the id of a row of one of the listings
    answered during that lookup. *)
Theorem lookup_returns_listed_rows {D}
    (bitrix_post : string -> json -> D -> reply * D) (elba_ids : list string)
    (s s' : D) (m : gmap string string) (ev : list event) :
  find_existing_by_elba_ids bitrix_post "company" elba_ids s = (Ok m, s', ev) →
  map_Forall (fun key cid => ∃ e, e ∈ ev ∧ listed key cid e) m.
Proof.
  intros Hrun key cid Hm.
  destruct (find_existing_companies_known bitrix_post elba_ids s m s' ev Hrun key cid Hm)
    as (e & He & [Hlisted | (fields & data & res & -> & _)]); [by exists e |].
  destruct (calm_find_existing bitrix_post _ _ _
              (other_method_rules bitrix_post "crm.company.add") "company" elba_ids
              ltac:(done) s) as [Hev _].
  rewrite Hrun in Hev. rewrite Forall_forall in Hev. by destruct (Hev _ He _ _ eq_refl).
Qed.

Lemma lookup_returns_listed_rows_witness :
  map_Forall
    (fun key cid =>
       ∃ e, e ∈ [EPost "crm.company.list" (lookup_request "company" ["1"]).2
                   (ReplyJson (JObj [("result",
                      JList [JObj [("ID", JStr "4"); ("UF_CRM_ELBA_ID", JStr "1")]])]))]
            ∧ listed key cid e)
    (<["1" := "4"]> ∅ : gmap string string).
Proof.
  apply (lookup_returns_listed_rows crm_post ["1"]
           (main crm_post twins_source 1 crm_empty).1.2
           (main crm_post twins_source 1 crm_empty).1.2).
  by vm_compute.
Defined.

(** ** Parent linkage *)

Lemma app_cons_split {A} (a b : list A) (e : A) :
  ∀ x y, a ++ b = x ++ e :: y →
         (∃ m, a = x ++ e :: m ∧ y = m ++ b) ∨ (∃ m, x = a ++ m ∧ b = m ++ e :: y).
Proof.
  induction a as [| z a IH]; intros x y H.
  - right. by exists x.
  - destruct x as [| z' x]; cbn in H.
    + injection H as <- <-. left. by exists a.
    + injection H as <- H. destruct (IH _ _ H) as [(m & -> & ->) | (m & -> & ->)].
      * left. by exists m.
      * right. by exists m.
Qed.

Lemma no_contact_add_in (ev : list event) (params : json) (r : reply) :
  Forall no_contact_add ev → EPost "crm.contact.add" params r ∉ ev.
Proof.
  intros Hq Hin. rewrite Forall_forall in Hq. by specialize (Hq _ Hin).
Qed.

Lemma mapped_contact_has_no_company (person cp : json) (mapped : list (string * json)) :
  map_contact_fields_from_person person cp = inr mapped → assoc mapped "COMPANY_ID" = None.
Proof.
  unfold map_contact_fields_from_person. destruct person as [| | | | | p]; try done.
  destruct (extract_name_parts _) as [[? ?] ?]. destruct cp; try done.
  intros [= <-]. by rewrite add_phone_email_other.
Qed.

Lemma contact_request_company (person cp : json) (company_id : string) (params : json) :
  contact_request person cp company_id params →
  ∃ fields,
    params = JObj [("fields", JObj fields)]
    ∧ assoc fields "COMPANY_ID"
      = if String.eqb company_id "" then None else Some (JStr company_id).
Proof.
  intros (mapped & Hmap & ->). eexists. split; [done |].
  destruct (String.eqb company_id ""); [| apply assoc_set_eq].
  by eapply mapped_contact_has_no_company.
Qed.

(** The company part of an iteration ends with a company id that the events
    so far show under the counterparty's key. *)
Lemma sync_company_obtains {D} (bitrix_post : string -> json -> D -> reply * D)
    (c : list (string * json)) (existing : gmap string string)
    (s : D) company_id existing' s' ev :
  sync_company bitrix_post (JObj c) (cp_elba_id c) existing s
  = (Ok (company_id, existing'), s', ev) →
  ∀ pre, known_map pre existing →
         known_map (pre ++ ev) existing'
         ∧ company_known (pre ++ ev) (cp_elba_id c) company_id.
Proof.
  unfold sync_company.
  destruct (String.eqb_spec (default "" (existing !! cp_elba_id c)) "") as [Hnone | Hfound];
    cbn [negb].
  - rewrite bind_lift.
    destruct (map_company_fields_from_cp (JObj c)) as [e | fields] eqn:Hmap; [done |].
    unfold create_company. rewrite !bind_run.
    destruct (bitrix_call _ _ _ s) as [[[res | e |] s1] ev1] eqn:Hcall; [| done ..].
    apply bitrix_call_ok in Hcall as (s0 & data & Hpost & Hres & Hin).
    cbn. intros [= <- <- <- <-] pre Hknown.
    match goal with
    | |- known_map ?tr _ ∧ _ =>
        assert (company_known tr (cp_elba_id c) (py_str res)) as Hnew
    end.
    { eexists. split; [rewrite !elem_of_app; right; left; left; exact Hin |].
      right. exists fields, data, res. repeat split; [| done].
      by apply company_key. }
    split; [| done]. intros k v Hk.
    apply lookup_insert_Some in Hk as [[<- <-] | [_ Hk]]; [done |].
    by apply company_known_mono, Hknown.
  - cbn. intros [= <- <- <- <-] pre Hknown.
    split; [by apply known_map_mono |].
    apply company_known_mono, Hknown.
    destruct (existing !! cp_elba_id c); [done | by destruct Hfound].
Qed.

(** Every contact creation of the person loop is the request for one of the
    persons. *)
Lemma sync_persons_requests {D} (bitrix_post : string -> json -> D -> reply * D)
    (cp : json) (cp_id company_id : string) (existing : gmap string string)
    (persons : list json) :
  ∀ s : D,
    Forall (fun e => ∀ params r,
              e = EPost "crm.contact.add" params r →
              ∃ person, person ∈ persons ∧ contact_request person cp company_id params)
      (sync_persons bitrix_post persons cp cp_id company_id existing s).2.
Proof.
  induction persons as [| person rest IH]; intros s; cbn [sync_persons]; [constructor |].
  assert (∀ s1,
            Forall (fun e => ∀ params r,
                      e = EPost "crm.contact.add" params r →
                      ∃ person', person' ∈ person :: rest
                                 ∧ contact_request person' cp company_id params)
              (sync_persons bitrix_post rest cp cp_id company_id existing s1).2) as IH'.
  { intros s1. eapply Forall_impl; [apply IH |]. intros e H params r He.
    destruct (H params r He) as (person' & Hin & Hreq).
    exists person'. split; [by apply list_elem_of_further | done]. }
  destruct person as [| | | | | p]; try constructor.
  destruct (String.eqb (person_id p) ""); [apply IH' |].
  destruct (existing !! _).
  { rewrite bind_run. cbn [log emit prepend fst snd app].
    constructor; [by intros params r [=] | apply IH']. }
  rewrite bind_lift.
  destruct (map_contact_fields_from_person (JObj p) cp) as [e | mapped] eqn:Hmap;
    [constructor |].
  rewrite bind_run. unfold create_contact. rewrite bind_run.
  set (fields := if String.eqb company_id "" then mapped
                 else assoc_set mapped "COMPANY_ID" (JStr company_id)).
  pose proof (bitrix_call_events bitrix_post "crm.contact.add"
                (JObj [("fields", JObj fields)]) s) as Hev.
  assert (Forall (fun e => ∀ params r,
                    e = EPost "crm.contact.add" params r →
                    ∃ person', person' ∈ JObj p :: rest
                               ∧ contact_request person' cp company_id params)
            (bitrix_call bitrix_post "crm.contact.add"
               (JObj [("fields", JObj fields)]) s).2) as Hcall.
  { eapply Forall_impl; [exact Hev |]. intros e [r0 ->] params r [= <- <-].
    exists (JObj p). split; [apply list_elem_of_here |]. by exists mapped. }
  destruct (bitrix_call _ _ _ s) as [[[res | e |] s1] ev1]; cbn [fst snd prepend] in *;
    rewrite ?app_nil_r; try done.
  apply Forall_app. split; [done |].
  rewrite bind_run. cbn [log emit prepend fst snd app].
  constructor; [by intros params r' [=] | apply IH'].
Qed.

Lemma no_contact_add_any (Q : json -> reply -> Prop) (ev : list event) :
  Forall no_contact_add ev →
  Forall (fun e => ∀ params r, e = EPost "crm.contact.add" params r → Q params r) ev.
Proof.
  intros H. eapply Forall_impl; [exact H |]. by intros e He params r ->.
Qed.

Lemma gather_persons_quiet {D} (bitrix_post : string -> json -> D -> reply * D)
    (elba_get : string -> list (string * Z) -> response) (fuel : nat) (org : json)
    (c : list (string * json)) (s : D) :
  Forall no_contact_add (gather_persons elba_get fuel org c s).2.
Proof.
  unfold gather_persons. destruct (inline_persons _ _); [| constructor].
  apply (quiet_probe_contacts bitrix_post elba_get).
Qed.

(** Every contact creation of the contact part of an iteration is the
    request for one of the persons of the counterparty. *)
Lemma sync_contacts_requests {D} (bitrix_post : string -> json -> D -> reply * D)
    (elba_get : string -> list (string * Z) -> response) (fuel : nat) (org : json)
    (c : list (string * json)) (company_id : string) (s : D) :
  Forall (fun e => ∀ params r,
            e = EPost "crm.contact.add" params r →
            ∃ persons person,
              (gather_persons elba_get fuel org c s).1.1 = Ok persons
              ∧ person ∈ persons
              ∧ contact_request person (JObj c) company_id params)
    (sync_contacts bitrix_post elba_get fuel org c (cp_elba_id c) company_id s).2.
Proof.
  rewrite sync_contacts_persons, bind_run.
  pose proof (gather_persons_quiet bitrix_post elba_get fuel org c s) as Hq.
  destruct (gather_persons elba_get fuel org c s) as [[[persons | e |] s1] ev0];
    cbn [fst snd] in *; try by apply no_contact_add_any.
  apply Forall_app. split; [by apply no_contact_add_any |].
  destruct persons as [| p l]; [constructor |].
  unfold lookup_and_sync_persons. rewrite bind_lift.
  destruct (contact_ids _ _) as [e | ids]; [constructor |].
  rewrite bind_run.
  pose proof (proj1 (quiet_find_existing bitrix_post "contact" ids s1)) as Hfind.
  destruct (find_existing_by_elba_ids _ _ _ s1) as [[[existing | e |] s2] ev1];
    cbn [fst snd] in *; try by apply no_contact_add_any.
  apply Forall_app. split; [by apply no_contact_add_any |].
  eapply Forall_impl; [apply sync_persons_requests |].
  intros e H params r He. destruct (H params r He) as (person & Hin & Hreq).
  by exists (p :: l), person.
Qed.

(** A contact creation among the events of the loop over the counterparties
    lies in the contact part of the iteration of one of them, after the
    company part of that iteration. *)
Lemma sync_counterparties_iteration {D} (bitrix_post : string -> json -> D -> reply * D)
    (elba_get : string -> list (string * Z) -> response) (fuel : nat) (org : json)
    (params : json) (r : reply) (cps : list json) :
  ∀ (existing : gmap string string) (s : D) (head ev1 ev2 : list event),
    known_map head existing →
    (sync_counterparties bitrix_post elba_get fuel org cps existing s).2
    = ev1 ++ EPost "crm.contact.add" params r :: ev2 →
    ∃ before c after head' ev_company ev_contacts rest existing0 existing' s0 s1
      company_id,
      cps = before ++ JObj c :: after
      ∧ cp_elba_id c ≠ ""
      ∧ head ++ ev1 = head' ++ ev_company ++ ev_contacts
      ∧ known_map head' existing0
      ∧ sync_company bitrix_post (JObj c) (cp_elba_id c) existing0 s0
        = (Ok (company_id, existing'), s1, ev_company)
      ∧ (sync_contacts bitrix_post elba_get fuel org c (cp_elba_id c) company_id s1).2
        = ev_contacts ++ EPost "crm.contact.add" params r :: rest
      ∧ company_known (head' ++ ev_company) (cp_elba_id c) company_id.
Proof.
  induction cps as [| cp cps IH]; intros existing s head ev1 ev2 Hknown Hev;
    cbn [sync_counterparties] in Hev.
  { by destruct ev1. }
  destruct cp as [| | | | | c]; try by destruct ev1.
  destruct (String.eqb_spec (cp_elba_id c) "") as [Hid | Hid].
  { rewrite bind_run in Hev. cbn [log emit prepend fst snd] in Hev.
    destruct ev1 as [| e ev1]; [done |]. injection Hev as <- Hev.
    destruct (IH existing s (head ++ [ELog LWarning MsgSkipCounterparty]) ev1 ev2)
      as (before & c' & after & head' & evc & evk & rest & existing0 & existing'
          & s0 & s1 & cid & -> & Hc' & Hpre & Hknown0 & Hcompany & Hcontacts & Hcid);
      [by apply known_map_mono | done |].
    exists (JObj c :: before), c', after, head', evc, evk, rest, existing0, existing',
      s0, s1, cid.
    repeat split; try done. by rewrite <- Hpre, <- app_assoc. }
  rewrite bind_run in Hev.
  pose proof (proj1 (quiet_sync_company bitrix_post (JObj c) (cp_elba_id c) existing s))
    as Hquiet.
  destruct (sync_company _ _ _ _ s) as [[[[cid existing'] | e |] s1] evc] eqn:Hcompany;
    cbn [fst snd] in Hquiet, Hev.
  2, 3: destruct (no_contact_add_in evc params r Hquiet); rewrite Hev;
        apply elem_of_app; right; apply list_elem_of_here.
  destruct (sync_company_obtains bitrix_post c existing s cid existing' s1 evc Hcompany
              head Hknown) as [Hknown' Hcid].
  unfold prepend in Hev. cbn [fst snd] in Hev.
  apply app_cons_split in Hev as [(m & -> & _) | (m & -> & Hev)].
  { destruct (no_contact_add_in _ params r Hquiet).
    apply elem_of_app. right. apply list_elem_of_here. }
  assert (∀ rest,
            (sync_contacts bitrix_post elba_get fuel org c (cp_elba_id c) cid s1).2
            = m ++ EPost "crm.contact.add" params r :: rest →
            ∃ before c0 after head' ev_company ev_contacts rest0 existing0 existing1 s0 s2
              company_id,
              JObj c :: cps = before ++ JObj c0 :: after
              ∧ cp_elba_id c0 ≠ ""
              ∧ head ++ evc ++ m = head' ++ ev_company ++ ev_contacts
              ∧ known_map head' existing0
              ∧ sync_company bitrix_post (JObj c0) (cp_elba_id c0) existing0 s0
                = (Ok (company_id, existing1), s2, ev_company)
              ∧ (sync_contacts bitrix_post elba_get fuel org c0 (cp_elba_id c0)
                   company_id s2).2
                = ev_contacts ++ EPost "crm.contact.add" params r :: rest0
              ∧ company_known (head' ++ ev_company) (cp_elba_id c0) company_id) as Hhere.
  { intros rest Hcontacts.
    exists [], c, cps, head, evc, m, rest, existing, existing', s, s1, cid.
    by repeat split. }
  rewrite bind_run in Hev.
  destruct (sync_contacts _ _ _ _ _ _ _ s1) as [[[[] | e |] s2] evk] eqn:Hcontacts;
    cbn [fst snd] in Hev, Hhere; try by eapply Hhere.
  unfold prepend in Hev. cbn [fst snd] in Hev.
  apply app_cons_split in Hev as [(m' & -> & _) | (m' & -> & Hev)]; [by eapply Hhere |].
  destruct (IH existing' s2 (head ++ evc ++ evk) m' ev2)
    as (before & c' & after & head' & evc' & evk' & rest & existing0 & existing1
        & s0 & s3 & cid' & -> & Hc' & Hpre & Hknown0 & Hcompany' & Hcontacts' & Hcid');
    [| done |].
  { rewrite app_assoc. by apply known_map_mono. }
  exists (JObj c :: before), c', after, head', evc', evk', rest, existing0, existing1,
    s0, s3, cid'.
  repeat split; try done. by rewrite <- Hpre, <- !app_assoc.
Qed.

(** C9, as amended.  Every contact-creation request issued by a run is sent
    in the iteration of a counterparty of the source listing that has an
    id, for one of the persons of that counterparty; the events before the
    request end with the company part of that iteration, which yielded the
    company id, followed by the contact part up to the request, and they
    show that id as the destination id of the company under the
    counterparty's key, in a row of the company listing or as the answer to
    a company creation of this run.  The request carries the fields mapped from the
    person, with [COMPANY_ID] set to that id when the id is not empty and
    with no [COMPANY_ID] at all when it is empty. *)
Theorem contact_created_in_parent_iteration
    (D : Type) (bitrix_post : string -> json -> D -> reply * D)
    (elba_get : string -> list (string * Z) -> response) (fuel : nat) (s : D)
    (pre : list event) (params : json) (r : reply) (post : list event) :
  (main bitrix_post elba_get fuel s).2 = pre ++ EPost "crm.contact.add" params r :: post →
  created_in_iteration bitrix_post elba_get fuel s pre params r.
Proof.
  intros Hrun.
  destruct (main_source_phases bitrix_post elba_get fuel s)
    as (pre0 & rest & closing & Hev & Hpre0 & Hclosing & Hrest).
  rewrite Hrun in Hev.
  assert (Forall no_contact_add pre0) as Hquiet0.
  { eapply Forall_impl; [exact Hpre0 |]. intros [| method ps r0 |] Hm; try done.
    unfold no_contact_add. cbn [is_contact_add]. apply String.eqb_neq. intros ->.
    unfold userfield_method, userfield_methods in Hm.
    repeat (apply elem_of_cons in Hm as [Hm | Hm]; [done |]).
    by apply elem_of_nil in Hm. }
  symmetry in Hev. apply app_cons_split in Hev as [(m & -> & _) | (m & -> & Hev)].
  { destruct (no_contact_add_in _ params r Hquiet0).
    apply elem_of_app. right. apply list_elem_of_here. }
  apply app_cons_split in Hev as [(m1 & Hev & _) | (m1 & -> & Hev)].
  2: { destruct Hclosing as [-> | [e ->]]; [by destruct m1 |].
       destruct m1 as [| ? [| ? ?]]; done. }
  destruct Hrest as [-> | (org & cps & ids & sA & Horg & Hcps & Hids & ->)];
    [by destruct m |].
  unfold lookup_and_sync in Hev. rewrite bind_run in Hev.
  pose proof (proj1 (quiet_find_existing bitrix_post "company"
                       (List.filter (fun eid => negb (String.eqb eid "")) ids) sA))
    as Hquiet1.
  destruct (find_existing_by_elba_ids _ _ _ sA) as [[[existing | e |] sB] evf] eqn:Hfind;
    cbn [fst snd] in Hquiet1, Hev.
  2, 3: destruct (no_contact_add_in evf params r Hquiet1); rewrite Hev;
        apply elem_of_app; right; apply list_elem_of_here.
  apply find_existing_companies_known in Hfind.
  unfold prepend in Hev. cbn [fst snd] in Hev.
  apply app_cons_split in Hev as [(m2 & -> & _) | (m2 & -> & Hev)].
  { destruct (no_contact_add_in _ params r Hquiet1).
    apply elem_of_app. right. apply list_elem_of_here. }
  rewrite bind_run in Hev.
  assert (∃ ev2, (sync_counterparties bitrix_post elba_get fuel org cps existing sB).2
                 = m2 ++ EPost "crm.contact.add" params r :: ev2) as [ev2 Hloop].
  { destruct (sync_counterparties _ _ _ _ _ _ sB) as [[[[] | e |] sC] evl];
      cbn [fst snd log emit prepend] in Hev |- *; eauto.
    apply app_cons_split in Hev as [(m3 & -> & _) | (m3 & -> & Hev)]; [eauto |].
    destruct m3 as [| ? [| ? ?]]; done. }
  destruct (sync_counterparties_iteration bitrix_post elba_get fuel org params r cps
              existing sB (pre0 ++ evf) m2 ev2)
    as (before & c & after & head & evc & evk & rest & existing0 & existing' & s0 & s1
        & cid & -> & Hc & Hpre & Hknown0 & Hcompany & Hcontacts & Hcid); [| done |].
  { intros k v Hk. apply company_known_mono_l. exact (Hfind k v Hk). }
  pose proof (sync_contacts_requests bitrix_post elba_get fuel org c cid s1) as Hreq.
  rewrite Hcontacts in Hreq. apply Forall_app in Hreq as [_ Hreq].
  apply Forall_cons in Hreq as [Hreq _].
  destruct (Hreq params r eq_refl) as (persons & person & Hpersons & Hin & Hrequest).
  destruct (contact_request_company _ _ _ _ Hrequest) as (fields & Hparams & Hlink).
  destruct (stateless_gather_persons (D := D) elba_get fuel org c) as (rG & evG & Hg).
  rewrite (Hg s1) in Hpersons.
  exists org, before, c, after, head, evc, evk, rest, existing0, existing', s0, s1, cid,
    persons, person, fields.
  rewrite (Hg s). rewrite <- !app_assoc in Hpre. by repeat split.
Qed.

Lemma contact_created_in_parent_iteration_witness :
  created_in_iteration crm_post acme_source 1 crm_empty (take 22 acme_events)
    (JObj [("fields",
            JObj [("LAST_NAME", JStr "Ivanov"); ("NAME", JStr "Ivan");
                  ("SECOND_NAME", JStr ""); ("UF_CRM_ELBA_ID", JStr "1:");
                  ("COMPANY_ID", JStr "4")])])
    (ReplyJson (JObj [("result", JNum 5)])).
Proof.
  apply (contact_created_in_parent_iteration crm crm_post acme_source 1%nat crm_empty
           (take 22 acme_events) _ _ (drop 23 acme_events)).
  vm_compute. reflexivity.
Defined.

(** C9, the sentence as written fails: against a destination that answers
    the creation of a company with an empty id, the run goes on and creates
    the contact of that counterparty with no [COMPANY_ID] field. *)
Lemma contact_created_without_company :
  let run := main crm_blank_id acme_source 1 tt in
  run.1.1 = Ok tt
  ∧ List.filter is_creation run.2
    = [EPost "crm.company.add"
         (JObj [("fields", JObj [("TITLE", JStr "Acme"); ("UF_CRM_ELBA_ID", JStr "1")])])
         (ReplyJson (JObj [("result", JStr "")]));
       EPost "crm.contact.add"
         (JObj [("fields",
                 JObj [("LAST_NAME", JStr "Ivanov"); ("NAME", JStr "Ivan");
                       ("SECOND_NAME", JStr ""); ("UF_CRM_ELBA_ID", JStr "1:")])])
         (ReplyJson (JObj [("result", JNum 9)]))].
Proof. by vm_compute. Qed.
